(** * The tiling container tree of miracle-wm

    A shallow embedding of [tiling_window_tree.cpp], of the neighbour and
    visible-area code of [container.cpp] / [leaf_container.cpp], and of the
    list primitives of [ParentContainer] they call, together with the
    properties of directional selection, move, resize and removal.

    Conventions of the embedding.
    - A C++ [int] is a [Z]; signed overflow is undefined in C++ and is not
      modelled.  A [size_t] is a [Z] in [0, 2^64); the implicit conversion
      of an [int] to [size_t] is [to_size_t].
    - The ownership tree ([std::shared_ptr] children of a lane) is the
      inductive type [Container].  A reference to a container that lives in
      the tree ([Container&], [std::shared_ptr<Container>]) is a
      [ContainerRef]: the chain of child indices from the container up to the
      root.  [get_parent()] is the tail of the chain and
      [get_index_of_node] its head; the root lane is the empty chain.
    - Code that has undefined behaviour in C++ (an out-of-range [operator[]],
      a null dereference) yields [Undefined]. *)

From Stdlib Require Import ZArith String Lia Bool.
From stdpp Require Import base list.

Set Warnings "-register-all".
Local Open Scope Z_scope.

(** ** Geometry ([mir::geometry]) *)

Module geom.
Record Point := { x : Z; y : Z }.
Record Size := { width : Z; height : Z }.
Record Rectangle := { top_left : Point; size : Size }.

(** [Rectangle::contains(Point)]: the right and bottom edges are
    exclusive, and an empty rectangle contains nothing. *)
Definition contains (r : Rectangle) (p : Point) : bool :=
  (0 <? width (size r)) && (0 <? height (size r))
  && (x (top_left r) <=? x p) && (x p <? x (top_left r) + width (size r))
  && (y (top_left r) <=? y p) && (y p <? y (top_left r) + height (size r)).

Definition with_width (r : Rectangle) (w : Z) : Rectangle :=
  {| top_left := top_left r; size := {| width := w; height := height (size r) |} |}.
Definition with_height (r : Rectangle) (h : Z) : Rectangle :=
  {| top_left := top_left r; size := {| width := width (size r); height := h |} |}.
Definition with_x (r : Rectangle) (x' : Z) : Rectangle :=
  {| top_left := {| x := x'; y := y (top_left r) |}; size := size r |}.
Definition with_y (r : Rectangle) (y' : Z) : Rectangle :=
  {| top_left := {| x := x (top_left r); y := y' |}; size := size r |}.
End geom.

(** ** Enumerations *)

(** [direction.h] is absent from the sources.  The enumerators are taken in
    the order in which [Container::get_neighbors] fills its array of
    [(size_t)Direction::MAX] flags (top, left, bottom, right), the array
    that [LeafContainer::get_visible_area] indexes by [(int)Direction::...]. *)
Module Direction.
Inductive t := up | left | down | right.

Definition to_index (d : t) : nat :=
  match d with up => 0 | left => 1 | down => 2 | right => 3 end%nat.

(** The direction pointing the other way along the same axis. *)
Definition opposite (d : t) : t :=
  match d with up => down | down => up | left => right | right => left end.
End Direction.

(** [layout_scheme.h] is absent from the sources; the four schemes are
    those of the specification (§3) and of [Container::get_percent_of_parent]. *)
Module LayoutScheme.
Inductive t := horizontal | vertical | tabbing | stacking.

Definition eqb (a b : t) : bool :=
  match a, b with
  | horizontal, horizontal | vertical, vertical
  | tabbing, tabbing | stacking, stacking => true
  | _, _ => false
  end.
End LayoutScheme.

(** ** Results of code that may have undefined behaviour *)

Inductive outcome (A : Type) : Type :=
| Done (a : A)
| Undefined.
Arguments Done {A} a.
Arguments Undefined {A}.

(** ** Containers *)

(** A node of the tree is a window slot or a lane.  [LeafContainer] carries
    the fields of [leaf_container.cpp] the tree code reads: the window, the
    logical area and the staged one.  The class [ParentContainer] is absent
    from the sources; its constructor is modelled from the spec (§3): a
    layout scheme, an ordered sequence of children, and the logical and
    staged areas every container has. *)
Inductive Container : Type :=
| LeafContainer (window : nat)
    (logical_area : geom.Rectangle) (next_logical_area : option geom.Rectangle)
| ParentContainer (scheme : LayoutScheme.t)
    (logical_area : geom.Rectangle) (next_logical_area : option geom.Rectangle)
    (sub_nodes : list Container).

(** [Container::is_leaf] and [Container::is_lane]. *)
Definition is_leaf (c : Container) : bool :=
  match c with LeafContainer _ _ _ => true | ParentContainer _ _ _ _ => false end.

Definition is_lane (c : Container) : bool := negb (is_leaf c).

(** Modelled from the spec: [ParentContainer::get_sub_nodes] is absent from
    the sources.  §4.2 lists it among the ordering primitives: the ordered
    children of the lane.  A leaf has none. *)
Definition get_sub_nodes (c : Container) : list Container :=
  match c with
  | LeafContainer _ _ _ => []
  | ParentContainer _ _ _ sub_nodes => sub_nodes
  end.

(** Modelled from the spec: [ParentContainer::num_nodes] is absent from the
    sources.  §4.2: the number of children. *)
Definition num_nodes (c : Container) : nat := length (get_sub_nodes c).

(** [LeafContainer::get_logical_area]: the staged area when there is one. *)
Definition LeafContainer_get_logical_area (logical_area : geom.Rectangle)
    (next_logical_area : option geom.Rectangle) : geom.Rectangle :=
  match next_logical_area with
  | Some r => r
  | None => logical_area
  end.

(** Modelled from the spec: [ParentContainer::get_logical_area] is absent
    from the sources.  §3 and §4.1 give every container the same two-phase
    geometry: a logical area and a staged one that is read back until it is
    committed. *)
Definition ParentContainer_get_logical_area (logical_area : geom.Rectangle)
    (next_logical_area : option geom.Rectangle) : geom.Rectangle :=
  match next_logical_area with
  | Some r => r
  | None => logical_area
  end.

(** The virtual call [Container::get_logical_area]. *)
Definition get_logical_area (c : Container) : geom.Rectangle :=
  match c with
  | LeafContainer _ area next => LeafContainer_get_logical_area area next
  | ParentContainer _ area next _ => ParentContainer_get_logical_area area next
  end.

(** [LeafContainer::set_logical_area] stages the rectangle; for a lane,
    modelled from the spec (§3: "[set_logical_area] stages a value"), it
    does the same. *)
Definition set_logical_area (target_rect : geom.Rectangle) (c : Container) : Container :=
  match c with
  | LeafContainer w area _ => LeafContainer w area (Some target_rect)
  | ParentContainer s area _ subs => ParentContainer s area (Some target_rect) subs
  end.

(** [LeafContainer::commit_changes], the part that touches the container:
    the staged area, when there is one, becomes the logical area.  The calls
    to the window controller are not part of the tree. *)
Definition LeafContainer_commit_changes (window : nat) (logical_area : geom.Rectangle)
    (next_logical_area : option geom.Rectangle) : Container :=
  match next_logical_area with
  | Some r => LeafContainer window r None
  | None => LeafContainer window logical_area None
  end.

(** Modelled from the spec: [ParentContainer::commit_changes] is absent from
    the sources.  §3: "[commit_changes] applies" the staged value. *)
Definition ParentContainer_commit_changes (scheme : LayoutScheme.t)
    (logical_area : geom.Rectangle) (next_logical_area : option geom.Rectangle)
    (sub_nodes : list Container) : Container :=
  match next_logical_area with
  | Some r => ParentContainer scheme r None sub_nodes
  | None => ParentContainer scheme logical_area None sub_nodes
  end.

(** The virtual call [Container::commit_changes], as far as the container
    itself goes. *)
Definition commit_area (c : Container) : Container :=
  match c with
  | LeafContainer w area next => LeafContainer_commit_changes w area next
  | ParentContainer s area next subs => ParentContainer_commit_changes s area next subs
  end.

(** ** References into the tree *)

Abbreviation ContainerRef := (list nat).

Fixpoint container_at (c : Container) (path : list nat) : option Container :=
  match path with
  | [] => Some c
  | i :: rest =>
      match get_sub_nodes c !! i with
      | Some child => container_at child rest
      | None => None
      end
  end.

(** The container a reference denotes: walk its indices from the root. *)
Definition resolve (root : Container) (r : ContainerRef) : option Container :=
  container_at root (rev r).

Fixpoint alter_at (f : Container -> Container) (c : Container) (path : list nat)
    {struct path} : Container :=
  match path with
  | [] => f c
  | i :: rest =>
      match c with
      | LeafContainer _ _ _ => c
      | ParentContainer s area next subs =>
          ParentContainer s area next (alter (fun child => alter_at f child rest) i subs)
      end
  end.

Definition update (f : Container -> Container) (root : Container) (r : ContainerRef) : Container :=
  alter_at f root (rev r).

(** ** Directions and axes ([tiling_window_tree.cpp], anonymous namespace) *)

Definition from_direction (direction : Direction.t) : LayoutScheme.t :=
  match direction with
  | Direction.up | Direction.down => LayoutScheme.vertical
  | Direction.right | Direction.left => LayoutScheme.horizontal
  end.

Definition is_negative_direction (direction : Direction.t) : bool :=
  match direction with
  | Direction.left | Direction.up => true
  | _ => false
  end.

Definition is_vertical_direction (direction : Direction.t) : bool :=
  match direction with
  | Direction.up | Direction.down => true
  | _ => false
  end.

(** The test of [get_closest_window_to_select_from_node] on a lane. *)
Definition descent_axis_matches (direction : Direction.t) (scheme : LayoutScheme.t) : bool :=
  (is_vertical_direction direction && LayoutScheme.eqb scheme LayoutScheme.vertical)
  || (negb (is_vertical_direction direction) && LayoutScheme.eqb scheme LayoutScheme.horizontal).

(** The test of [handle_select] on an ancestor: tabbing lanes count as
    horizontal. *)
Definition select_axis_matches (direction : Direction.t) (scheme : LayoutScheme.t) : bool :=
  (is_vertical_direction direction && LayoutScheme.eqb scheme LayoutScheme.vertical)
  || (negb (is_vertical_direction direction)
      && (LayoutScheme.eqb scheme LayoutScheme.horizontal
          || LayoutScheme.eqb scheme LayoutScheme.tabbing)).

(** ** Directional selection *)

(** One of the two [for] loops of [get_closest_window_to_select_from_node]:
    [results] holds what the recursive call yields for each child, [indices]
    the values the loop variable takes.  The first child that yields a leaf
    ends the loop; [sub_nodes[i]] out of range is undefined. *)
Fixpoint scan_sub_nodes (results : list (outcome (option ContainerRef)))
    (indices : list nat) : outcome (option ContainerRef) :=
  match indices with
  | [] => Done None
  | i :: rest =>
      match results !! i with
      | None => Undefined
      | Some Undefined => Undefined
      | Some (Done (Some leaf)) => Done (Some (leaf ++ [i]))
      | Some (Done None) => scan_sub_nodes results rest
      end
  end.

(** The values of [i] in [for (auto i = sub_nodes.size() - 1; i != 0; i--)]
    when the vector is not empty: [size - 1] down to [1]. *)
Definition reverse_indices (size : nat) : list nat := rev (seq 1 (size - 1)).

(** The result is the reference of the chosen leaf relative to [node]: the
    indices from the leaf up to a child of [node]. *)
Fixpoint get_closest_window_to_select_from_node (node : Container)
    (direction : Direction.t) : outcome (option ContainerRef) :=
  match node with
  | LeafContainer _ _ _ => Done (Some [])
  | ParentContainer scheme _ _ sub_nodes =>
      let results :=
        map (fun sub_node => get_closest_window_to_select_from_node sub_node direction)
            sub_nodes in
      let forward := scan_sub_nodes results (seq 0 (length sub_nodes)) in
      if descent_axis_matches direction scheme && is_negative_direction direction then
        match sub_nodes with
        | [] =>
            (* [i] starts at [SIZE_MAX] and [sub_nodes[i]] is out of range *)
            Undefined
        | _ :: _ =>
            match scan_sub_nodes results (reverse_indices (length sub_nodes)) with
            | Done None => forward
            | found => found
            end
        end
      else forward
  end.

(** The [do ... while] loop of [handle_select]: [index] is the position of
    [current_node] in [parent].  A chain that does not lead to a lane is not
    a state of the program; the loop is [Undefined] on it. *)
Fixpoint handle_select_climb (root : Container) (index : nat) (parent : ContainerRef)
    (direction : Direction.t) : outcome (option ContainerRef) :=
  let climb :=
    match parent with
    | [] => Done None
    | index' :: grandparent => handle_select_climb root index' grandparent direction
    end in
  match resolve root parent with
  | None => Undefined
  | Some lane =>
      let step (target : nat) :=
        match get_sub_nodes lane !! target with
        | None => Undefined
        | Some sibling =>
            match get_closest_window_to_select_from_node sibling direction with
            | Done (Some leaf) => Done (Some (leaf ++ target :: parent))
            | Done None => Done None
            | Undefined => Undefined
            end
        end in
      match lane with
      | LeafContainer _ _ _ => Undefined
      | ParentContainer grandparent_direction _ _ _ =>
          if select_axis_matches direction grandparent_direction then
            if is_negative_direction direction then
              if (0 <? index)%nat then step (index - 1)%nat else climb
            else
              if (index <? num_nodes lane - 1)%nat then step (index + 1)%nat else climb
          else climb
      end
  end.

Definition handle_select (root : Container) (from : ContainerRef)
    (direction : Direction.t) : outcome (option ContainerRef) :=
  match from with
  | [] => Done None
  | index :: parent => handle_select_climb root index parent direction
  end.

(** ** Neighbours and the visible area ([container.cpp], [leaf_container.cpp]) *)

(** The implicit conversion of an [int] to [size_t] in a comparison of the
    two. *)
Definition to_size_t (i : Z) : Z := i mod 2 ^ 64.

(** [size_t] subtraction, as in [num_nodes() - 1]. *)
Definition size_t_sub (a b : Z) : Z := (a - b) mod 2 ^ 64.

Fixpoint has_neighbor (root : Container) (container : ContainerRef)
    (direction : LayoutScheme.t) (cannot_be_index : Z) : bool :=
  match container with
  | [] => false
  | index :: parent =>
      match resolve root parent with
      | Some (ParentContainer scheme _ _ sub_nodes) =>
          if negb (LayoutScheme.eqb scheme direction) then
            has_neighbor root parent direction cannot_be_index
          else
            ((1 <? length sub_nodes)%nat
             && negb (to_size_t (Z.of_nat index) =? cannot_be_index))
            || has_neighbor root parent direction cannot_be_index
      | _ => false
      end
  end.

Definition has_right_neighbor (root : Container) (container : ContainerRef) : bool :=
  match container with
  | [] => false
  | _ :: parent =>
      match resolve root parent with
      | Some (ParentContainer _ _ _ sub_nodes) =>
          has_neighbor root container LayoutScheme.horizontal
            (size_t_sub (Z.of_nat (length sub_nodes)) 1)
      | _ => false
      end
  end.

Definition has_bottom_neighbor (root : Container) (container : ContainerRef) : bool :=
  match container with
  | [] => false
  | _ :: parent =>
      match resolve root parent with
      | Some (ParentContainer _ _ _ sub_nodes) =>
          has_neighbor root container LayoutScheme.vertical
            (size_t_sub (Z.of_nat (length sub_nodes)) 1)
      | _ => false
      end
  end.

Definition has_left_neighbor (root : Container) (container : ContainerRef) : bool :=
  match container with
  | [] => false
  | _ :: _ => has_neighbor root container LayoutScheme.horizontal 0
  end.

Definition has_top_neighbor (root : Container) (container : ContainerRef) : bool :=
  match container with
  | [] => false
  | _ :: _ => has_neighbor root container LayoutScheme.vertical 0
  end.

(** The array of [Container::get_neighbors], in the order of its
    initialiser. *)
Definition get_neighbors (root : Container) (container : ContainerRef) : list bool :=
  [ has_top_neighbor root container;
    has_left_neighbor root container;
    has_bottom_neighbor root container;
    has_right_neighbor root container ].

Definition neighbor_at (neighbors : list bool) (d : Direction.t) : bool :=
  default false (neighbors !! Direction.to_index d).

(** The part of the configuration the tree reads. *)
Record Config := {
  get_resize_jump : Z;
  get_inner_gaps_x : Z;
  get_inner_gaps_y : Z;
  border_size : Z
}.

(** [(int)ceil((double)gap / 2.0)]. *)
Definition half_gap (gap : Z) : Z := - ((- gap) / 2).

(** [LeafContainer::get_visible_area], for the leaf [leaf] denotes, whose
    committed logical area is [logical_area]. *)
Definition visible_area_of (config : Config) (neighbors : list bool)
    (logical_area : geom.Rectangle) : geom.Rectangle :=
  let half_gap_x := half_gap (get_inner_gaps_x config) in
  let half_gap_y := half_gap (get_inner_gaps_y config) in
  let x := geom.x (geom.top_left logical_area) in
  let y := geom.y (geom.top_left logical_area) in
  let width := geom.width (geom.size logical_area) in
  let height := geom.height (geom.size logical_area) in
  let '(x, width) :=
    if neighbor_at neighbors Direction.left
    then (x + half_gap_x, width - half_gap_x) else (x, width) in
  let width :=
    if neighbor_at neighbors Direction.right then width - half_gap_x else width in
  let '(y, height) :=
    if neighbor_at neighbors Direction.up
    then (y + half_gap_y, height - half_gap_y) else (y, height) in
  let height :=
    if neighbor_at neighbors Direction.down then height - half_gap_y else height in
  let x := x + border_size config in
  let width := width - 2 * border_size config in
  let y := y + border_size config in
  let height := height - 2 * border_size config in
  {| geom.top_left := {| geom.x := x; geom.y := y |};
     geom.size := {| geom.width := width; geom.height := height |} |}.

Definition get_visible_area (config : Config) (root : Container)
    (leaf : ContainerRef) : option geom.Rectangle :=
  match resolve root leaf with
  | Some (LeafContainer _ logical_area _) =>
      Some (visible_area_of config (get_neighbors root leaf) logical_area)
  | _ => None
  end.

(** *** The neighbour relation in the words of the specification

    A container has a neighbour on a side when some ancestor lane whose
    scheme is the axis of that side has more than one child and the chain
    from the container does not enter it at the extremity of that side. *)
Fixpoint has_same_axis_neighbor (root : Container) (container : ContainerRef)
    (side : Direction.t) : bool :=
  match container with
  | [] => false
  | index :: parent =>
      match resolve root parent with
      | Some (ParentContainer scheme _ _ sub_nodes) =>
          (LayoutScheme.eqb scheme (from_direction side)
           && (1 <? length sub_nodes)%nat
           && (if is_negative_direction side
               then (0 <? index)%nat
               else (index <? length sub_nodes - 1)%nat))
          || has_same_axis_neighbor root parent side
      | _ => false
      end
  end.

(** The logical area shrunk by half the gap on the sides with a neighbour
    and by the border on all four. *)
Definition shrunk_area (config : Config) (root : Container) (leaf : ContainerRef)
    (logical_area : geom.Rectangle) : geom.Rectangle :=
  let gap (side : Direction.t) (amount : Z) : Z :=
    if has_same_axis_neighbor root leaf side then amount else 0 in
  let gx := half_gap (get_inner_gaps_x config) in
  let gy := half_gap (get_inner_gaps_y config) in
  let b := border_size config in
  {| geom.top_left :=
       {| geom.x := geom.x (geom.top_left logical_area) + gap Direction.left gx + b;
          geom.y := geom.y (geom.top_left logical_area) + gap Direction.up gy + b |};
     geom.size :=
       {| geom.width := geom.width (geom.size logical_area)
                        - gap Direction.left gx - gap Direction.right gx - 2 * b;
          geom.height := geom.height (geom.size logical_area)
                         - gap Direction.up gy - gap Direction.down gy - 2 * b |} |}.

(** ** Effects

    What an operation does besides changing the tree: the lines it logs and
    the calls it makes to [commit_changes] and to the window controller, in
    order. *)
Inductive Event : Type :=
| log_warning (message : string)
| log_error (message : string)
| commit_changes (container : ContainerRef)
| select_active_window (container : ContainerRef).

(** ** Resize *)

Section Resize.

(** [ParentContainer::get_min_width] and [get_min_height] are not part of
    the sources at hand; the minimum of a lane is left open. *)
Variable lane_min_width lane_min_height : Container -> Z.

(** [LeafContainer::get_min_width]; the return type is [size_t]. *)
Definition get_min_width (c : Container) : Z :=
  match c with
  | LeafContainer _ _ _ => 50
  | ParentContainer _ _ _ _ => lane_min_width c
  end.

Definition get_min_height (c : Container) : Z :=
  match c with
  | LeafContainer _ _ _ => 50
  | ParentContainer _ _ _ _ => lane_min_height c
  end.

(** The two branches of [handle_resize] differ only in the axis: height
    and [y] when [is_vertical], width and [x] otherwise. *)
Definition extent (is_vertical : bool) (r : geom.Rectangle) : Z :=
  if is_vertical then geom.height (geom.size r) else geom.width (geom.size r).

Definition with_extent (is_vertical : bool) (r : geom.Rectangle) (v : Z) : geom.Rectangle :=
  if is_vertical then geom.with_height r v else geom.with_width r v.

Definition origin (is_vertical : bool) (r : geom.Rectangle) : Z :=
  if is_vertical then geom.y (geom.top_left r) else geom.x (geom.top_left r).

Definition with_origin (is_vertical : bool) (r : geom.Rectangle) (v : Z) : geom.Rectangle :=
  if is_vertical then geom.with_y r v else geom.with_x r v.

Definition get_min (is_vertical : bool) (c : Container) : Z :=
  if is_vertical then get_min_height c else get_min_width c.

(** The candidate rectangle of [nodes[i]], before the minimum is tested. *)
Definition candidate_rect (is_vertical : bool) (target : nat)
    (resize_amount for_others : Z) (i : nat) (other_node : Container)
    (pending_node_resizes : list geom.Rectangle) : geom.Rectangle :=
  let other_rect := get_logical_area other_node in
  let other_rect :=
    if (i =? target)%nat
    then with_extent is_vertical other_rect (extent is_vertical other_rect + resize_amount)
    else with_extent is_vertical other_rect (extent is_vertical other_rect + for_others) in
  match i with
  | O => other_rect
  | S j =>
      match pending_node_resizes !! j with
      | Some prev_rect =>
          with_origin is_vertical other_rect
            (origin is_vertical prev_rect + extent is_vertical prev_rect)
      | None => other_rect
      end
  end.

(** [other_rect.size.width.as_int() <= other_node->get_min_width()]: an
    [int] against a [size_t], so the [int] is converted first. *)
Definition at_or_below_min (is_vertical : bool) (other_rect : geom.Rectangle)
    (other_node : Container) : bool :=
  to_size_t (extent is_vertical other_rect) <=? get_min is_vertical other_node.

(** The staging loop over [nodes], from index [i] on: [None] when it
    returns early, the staged rectangles and their total otherwise. *)
Fixpoint stage_resizes (is_vertical : bool) (target : nat)
    (resize_amount for_others : Z) (nodes : list Container) (i : nat)
    (pending_node_resizes : list geom.Rectangle) (total : Z)
    : option (list geom.Rectangle * Z) :=
  match nodes with
  | [] => Some (pending_node_resizes, total)
  | other_node :: rest =>
      let other_rect :=
        candidate_rect is_vertical target resize_amount for_others i other_node
          pending_node_resizes in
      if at_or_below_min is_vertical other_rect other_node then None
      else
        stage_resizes is_vertical target resize_amount for_others rest (S i)
          (pending_node_resizes ++ [other_rect])
          (total + extent is_vertical other_rect)
  end.

(** [pending_node_resizes.back()] grows by the leftover. *)
Definition extend_back (is_vertical : bool) (pending_node_resizes : list geom.Rectangle)
    (leftover : Z) : list geom.Rectangle :=
  alter (fun r => with_extent is_vertical r (extent is_vertical r + leftover))
        (length pending_node_resizes - 1)%nat pending_node_resizes.

(** Everything [handle_resize] computes before it mutates anything. *)
Definition pending_resizes (is_vertical : bool) (parent : Container) (target : nat)
    (resize_amount : Z) : option (list geom.Rectangle) :=
  let nodes := get_sub_nodes parent in
  let for_others := (- resize_amount) / (Z.of_nat (length nodes) - 1) in
  match stage_resizes is_vertical target resize_amount for_others nodes 0 [] 0 with
  | None => None
  | Some (pending_node_resizes, total) =>
      let leftover := extent is_vertical (get_logical_area parent) - total in
      Some (extend_back is_vertical pending_node_resizes leftover)
  end.

(** The final loop: [set_logical_area] then [commit_changes] on every
    sibling.  For a sibling that is a lane the two calls are taken in the
    sense of the container contract of the specification: the staged
    rectangle becomes its logical area. *)
Definition apply_resizes (pending_node_resizes : list geom.Rectangle)
    (lane : Container) : Container :=
  match lane with
  | LeafContainer _ _ _ => lane
  | ParentContainer s area next nodes =>
      ParentContainer s area next
        (zip_with (fun node r => commit_area (set_logical_area r node))
                  nodes pending_node_resizes)
  end.

Definition is_main_axis_movement (direction : Direction.t) (scheme : LayoutScheme.t) : bool :=
  (is_vertical_direction direction && LayoutScheme.eqb scheme LayoutScheme.vertical)
  || (negb (is_vertical_direction direction)
      && LayoutScheme.eqb scheme LayoutScheme.horizontal).

Definition resize_warning : string :=
  "Unable to resize a rectangle that would cause another to be negative".

Fixpoint handle_resize (root : Container) (node : ContainerRef)
    (direction : Direction.t) (amount : Z) : Container * list Event :=
  match node with
  | [] => (root, [])
  | index :: parent =>
      match resolve root parent with
      | Some (ParentContainer scheme _ _ nodes as lane) =>
          if is_main_axis_movement direction scheme && (length nodes =? 1)%nat then
            (root, [])
          else if negb (is_main_axis_movement direction scheme) then
            handle_resize root parent direction amount
          else
            let resize_amount :=
              if is_negative_direction direction then - amount else amount in
            match pending_resizes (is_vertical_direction direction) lane index
                    resize_amount with
            | None => (root, [log_warning resize_warning])
            | Some pending_node_resizes =>
                (update (apply_resizes pending_node_resizes) root parent,
                 map (fun i => commit_changes (i :: parent)) (seq 0 (length nodes)))
            end
      | _ => (root, [])
      end
  end.

End Resize.

(** ** The list primitives of [ParentContainer]

    [parent_container.cpp] is not part of the sources at hand.  The
    primitives the tree calls are taken from the specification (§3, §4.1,
    §4.2). *)

(** Modelled from the spec: [ParentContainer::get_direction] and
    [set_direction] are absent from the sources.  §3: a lane has a layout
    scheme; they read and write it. *)
Definition get_direction (c : Container) : option LayoutScheme.t :=
  match c with
  | LeafContainer _ _ _ => None
  | ParentContainer scheme _ _ _ => Some scheme
  end.

Definition set_direction (scheme : LayoutScheme.t) (c : Container) : Container :=
  match c with
  | LeafContainer _ _ _ => c
  | ParentContainer _ area next subs => ParentContainer scheme area next subs
  end.

Definition with_sub_nodes (f : list Container -> list Container) (c : Container) : Container :=
  match c with
  | LeafContainer _ _ _ => c
  | ParentContainer s area next subs => ParentContainer s area next (f subs)
  end.

(** Modelled from the spec: [ParentContainer::remove] is absent from the
    sources.  §4.2: "insert/detach a child at a given position ...
    [remove] triggers cascading removal of the lane itself if it becomes
    empty and is not the tree root"; §3: "an internal (non-root) lane that
    reaches 0 children is removed from its own parent, recursively."
    [lane] is the lane the call is made on, [index] the position of the
    child to detach. *)
Fixpoint ParentContainer_remove (root : Container) (lane : ContainerRef)
    (index : nat) : Container :=
  let detached := update (with_sub_nodes (delete index)) root lane in
  match lane with
  | [] => detached
  | lane_index :: parent =>
      match resolve detached lane with
      | Some (ParentContainer _ _ _ []) =>
          ParentContainer_remove detached parent lane_index
      | _ => detached
      end
  end.

(** Where the removal ends up: the lane that loses a child once the cascade
    is over, and the position of that child. *)
Fixpoint removal_site (root : Container) (lane : ContainerRef) (index : nat)
    : ContainerRef * nat :=
  match lane with
  | [] => ([], index)
  | lane_index :: parent =>
      match resolve (update (with_sub_nodes (delete index)) root lane) lane with
      | Some (ParentContainer _ _ _ []) =>
          removal_site (update (with_sub_nodes (delete index)) root lane) parent lane_index
      | _ => (lane, index)
      end
  end.

(** Modelled from the spec: [ParentContainer::graft_existing] is absent
    from the sources.  §4.2: "insert ... a child at a given position,
    updating the child's back-reference".  The back-reference is the
    position itself. *)
Definition graft_existing (node : Container) (index : nat) (lane : Container) : Container :=
  with_sub_nodes (fun subs => take index subs ++ node :: drop index subs) lane.

(** Modelled from the spec: [ParentContainer::swap_nodes] is absent from
    the sources.  §4.2 lists it among the "ordering primitives": the
    children at positions [i] and [j] trade places. *)
Definition swap_nodes (i j : nat) (lane : Container) : Container :=
  with_sub_nodes
    (fun subs =>
       match subs !! i, subs !! j with
       | Some a, Some b => <[j := a]> (<[i := b]> subs)
       | _, _ => subs
       end) lane.

(** Modelled from the spec: [ParentContainer::convert_to_parent] is absent
    from the sources.  §4.2: it "wraps the single target child in a
    brand-new intermediate lane so siblings are unaffected; returns the new
    lane".  The new lane takes the place and the area of the child. *)
Definition convert_to_parent (index : nat) (lane : Container) : Container :=
  with_sub_nodes
    (alter (fun child =>
              ParentContainer LayoutScheme.horizontal (get_logical_area child) None [child])
           index) lane.

(** Modelled from the spec: the constructor of [ParentContainer] is absent
    from the sources.  §3: a lane has a logical area, a layout scheme and an
    ordered sequence of children; a new lane has no child and no staged
    area.  The scheme it starts with is overwritten by [set_direction] at
    every place the tree creates one. *)
Definition make_ParentContainer (area : geom.Rectangle) : Container :=
  ParentContainer LayoutScheme.horizontal area None [].

(** ** The tree *)

(** A [std::shared_ptr<Container>] kept outside the tree, such as
    [CompositorState::active]: it points into this tree or to a container
    that is not part of it (a floating window, a group, a leaf of another
    workspace). *)
Inductive ContainerPtr : Type :=
| in_tree (r : ContainerRef)
| elsewhere (is_leaf_container : bool) (id : nat).

(** The part of [CompositorState] the tree reads; [None] is [nullptr]. *)
Record CompositorState := {
  active : option ContainerPtr
}.

Record TilingWindowTree := {
  root_lane : Container;
  is_active_window_fullscreen : bool;
  is_hidden : bool;
  (** the extents of [tree_interface->get_zones()] *)
  zones : list geom.Rectangle;
  config : Config
}.

Definition with_root (t : TilingWindowTree) (root : Container) : TilingWindowTree :=
  {| root_lane := root;
     is_active_window_fullscreen := is_active_window_fullscreen t;
     is_hidden := is_hidden t;
     zones := zones t;
     config := config t |}.

(** [Container::as_leaf], a [dynamic_pointer_cast<LeafContainer>]. *)
Definition as_leaf (root : Container) (p : option ContainerPtr) : option ContainerPtr :=
  match p with
  | Some (in_tree r) =>
      match resolve root r with
      | Some (LeafContainer _ _ _) => p
      | _ => None
      end
  | Some (elsewhere true _) => p
  | _ => None
  end.

Definition active_container (t : TilingWindowTree) (state : CompositorState)
    : option ContainerPtr :=
  as_leaf (root_lane t) (active state).

(** [recalculate_root_node_area]: the first zone, when there is one,
    becomes the area of the root lane. *)
Definition recalculate_root_node_area (t : TilingWindowTree) : TilingWindowTree * list Event :=
  match zones t with
  | [] => (t, [])
  | extents :: _ =>
      (with_root t (commit_area (set_logical_area extents (root_lane t))),
       [commit_changes []])
  end.

(** [handle_remove]: the new root and the parent to commit. *)
Definition handle_remove (root : Container) (node : ContainerRef)
    : Container * option ContainerRef :=
  match node with
  | [] => (root, None)
  | index :: parent =>
      match resolve root parent with
      | Some (ParentContainer _ _ _ sub_nodes) =>
          match parent with
          | parent_index :: grandparent =>
              if (length sub_nodes =? 1)%nat then
                (* Remove the entire lane if this lane is now empty *)
                (ParentContainer_remove root grandparent parent_index, Some grandparent)
              else
                (ParentContainer_remove root parent index, Some parent)
          | [] => (ParentContainer_remove root parent index, Some parent)
          end
      | _ => (root, None)
      end
  end.

(** *** References across a structural change

    A pointer keeps denoting its container when a sibling is removed or
    inserted; a chain of indices has to be renumbered. *)

(** [through lane r]: when [r] lies strictly below [lane], the part of [r]
    below the child of [lane] it passes through, and that child's
    position. *)
Definition through (lane r : ContainerRef) : option (ContainerRef * nat) :=
  match (length r - length lane)%nat with
  | O => None
  | S m =>
      if bool_decide (drop (S m) r = lane) then
        match r !! m with
        | Some k => Some (take m r, k)
        | None => None
        end
      else None
  end.

(** After the child [snd site] of the lane [fst site] left the tree. *)
Definition after_remove (site : ContainerRef * nat) (r : ContainerRef)
    : option ContainerRef :=
  match through (fst site) r with
  | Some (below, k) =>
      if (k =? snd site)%nat then None
      else if (snd site <? k)%nat then Some (below ++ (k - 1)%nat :: fst site)
      else Some r
  | None => Some r
  end.

(** After a child was inserted at position [index] of [lane]. *)
Definition after_graft (lane : ContainerRef) (index : nat) (r : ContainerRef)
    : ContainerRef :=
  match through lane r with
  | Some (below, k) =>
      if (index <=? k)%nat then below ++ S k :: lane else r
  | None => r
  end.

(** Where [handle_remove] takes a child away, cascade included. *)
Definition handle_remove_site (root : Container) (node : ContainerRef)
    : option (ContainerRef * nat) :=
  match node with
  | [] => None
  | index :: parent =>
      match resolve root parent with
      | Some (ParentContainer _ _ _ sub_nodes) =>
          match parent with
          | parent_index :: grandparent =>
              if (length sub_nodes =? 1)%nat
              then Some (removal_site root grandparent parent_index)
              else Some (removal_site root parent index)
          | [] => Some (removal_site root parent index)
          end
      | _ => None
      end
  end.

(** [lane->commit_changes()] for a lane of the tree: in the sense of the
    container contract of the specification, its staged area is applied. *)
Definition commit_lane (root : Container) (lane : ContainerRef) : Container * list Event :=
  (update commit_area root lane, [commit_changes lane]).

(** ** Move *)

Inductive traversal_type : Type :=
| traversal_type_invalid
| traversal_type_insert
| traversal_type_prepend
| traversal_type_append.

Record MoveResult := {
  traversal : traversal_type;
  (** [node]; [None] is [nullptr] *)
  move_node : option ContainerRef
}.

(** What [handle_move] leaves behind: the result, the tree, and the chain
    that now denotes [from] (wrapping the root pushes every container one
    level down). *)
Record Moved := {
  move_result : MoveResult;
  moved_tree : TilingWindowTree;
  moved_from : ContainerRef;
  moved_events : list Event
}.

Definition handle_select_events (from : ContainerRef) : list Event :=
  match from with
  | [] => [log_warning "Cannot handle_select the root node"]
  | _ :: _ => []
  end.

Definition handle_move (t : TilingWindowTree) (from : ContainerRef)
    (direction : Direction.t) : outcome Moved :=
  match handle_select (root_lane t) from direction with
  | Undefined => Undefined
  | Done (Some insert_node) =>
      Done {| move_result := {| traversal := traversal_type_insert;
                                move_node := Some insert_node |};
              moved_tree := t; moved_from := from;
              moved_events := handle_select_events from |}
  | Done None =>
      let to_root (t' : TilingWindowTree) (from' : ContainerRef) (events : list Event) :=
        {| move_result :=
             {| traversal := if is_negative_direction direction
                             then traversal_type_prepend else traversal_type_append;
                move_node := Some [] |};
           moved_tree := t'; moved_from := from'; moved_events := events |} in
      match from with
      | [] =>
          (* no parent: [root_lane == parent] is false *)
          Done (to_root t from (handle_select_events from))
      | _ :: [] =>
          (* root_lane == parent *)
          let new_layout_direction := from_direction direction in
          match root_lane t with
          | LeafContainer _ _ _ => Undefined
          | ParentContainer root_scheme _ _ _ =>
              if LayoutScheme.eqb new_layout_direction root_scheme then
                Done {| move_result := {| traversal := traversal_type_invalid;
                                          move_node := None |};
                        moved_tree := t; moved_from := from; moved_events := [] |}
              else
                let after_root_lane :=
                  graft_existing (root_lane t) 0
                    (set_direction new_layout_direction
                       (make_ParentContainer (get_logical_area (root_lane t)))) in
                let '(t', events) := recalculate_root_node_area (with_root t after_root_lane) in
                Done (to_root t' (from ++ [0%nat]) events)
          end
      | _ :: _ :: _ => Done (to_root t from [])
      end
  end.

(** [transfer_node]: the new root and the two parents to commit, as they
    are denoted once the node sits in its new place. *)
Definition transfer_node (root : Container) (node to : ContainerRef)
    : outcome (Container * list ContainerRef) :=
  match resolve root node, handle_remove_site root node with
  | Some moving_node, Some site =>
      let '(removed, to_update) := handle_remove root node in
      match after_remove site to with
      | Some (index :: target_parent) =>
          let grafted :=
            update (graft_existing moving_node (index + 1)) removed target_parent in
          let second :=
            match to_update with
            | Some lane =>
                match after_remove site lane with
                | Some lane' => [after_graft target_parent (index + 1) lane']
                | None => []
                end
            | None => []
            end in
          Done (grafted, target_parent :: second)
      | _ => Undefined
      end
  | _, _ => Undefined
  end.

Fixpoint commit_lanes (root : Container) (lanes : list ContainerRef)
    : Container * list Event :=
  match lanes with
  | [] => (root, [])
  | lane :: rest =>
      let '(root', events) := commit_lane root lane in
      let '(root'', events') := commit_lanes root' rest in
      (root'', events ++ events')
  end.

(** The result of a tree operation that returns a [bool]. *)
Record Returned := {
  returned : bool;
  tree_after : TilingWindowTree;
  events : list Event
}.

Definition move_container (t : TilingWindowTree) (direction : Direction.t)
    (container : ContainerRef) : outcome Returned :=
  if is_active_window_fullscreen t then
    Done {| returned := false; tree_after := t;
            events := [log_warning "Unable to move active window: fullscreen"] |}
  else
    match handle_move t container direction with
    | Undefined => Undefined
    | Done moved =>
        let t' := moved_tree moved in
        let container' := moved_from moved in
        let finish (root : Container) (lanes : list ContainerRef) :=
          let '(root', events') := commit_lanes root lanes in
          Done {| returned := true; tree_after := with_root t' root';
                  events := moved_events moved ++ events' |} in
        let fail (line : Event) :=
          Done {| returned := false; tree_after := t';
                  events := moved_events moved ++ [line] |} in
        let graft_at_root (at_end : bool) :=
          match container', resolve (root_lane t') container' with
          | _ :: _, Some moving_node =>
              let '(removed, _) := handle_remove (root_lane t') container' in
              let index := if at_end then num_nodes removed else 0%nat in
              finish (graft_existing moving_node index removed) [[]]
          | _, _ =>
              (* the root lane would be grafted into itself *)
              Undefined
          end in
        match traversal (move_result moved) with
        | traversal_type_insert =>
            match move_node (move_result moved) with
            | None =>
                fail (log_warning "Unable to move active window: target_window not found")
            | Some [] =>
                fail (log_warning
                        "Unable to move active window: second_window has no second_parent")
            | Some (target_index :: target_parent) =>
                match container' with
                | [] => Undefined
                | index :: active_parent =>
                    if bool_decide (active_parent = target_parent) then
                      finish (update (swap_nodes index target_index) (root_lane t')
                                     active_parent)
                             [active_parent]
                    else
                      match transfer_node (root_lane t') container'
                              (target_index :: target_parent) with
                      | Undefined => Undefined
                      | Done (root', lanes) => finish root' lanes
                      end
                end
            end
        | traversal_type_append => graft_at_root true
        | traversal_type_prepend => graft_at_root false
        | traversal_type_invalid => fail (log_error "Unable to move window")
        end
    end.

(** ** The guarded entry points *)

Section EntryPoints.

Variable lane_min_width lane_min_height : Container -> Z.

Definition resize_container (t : TilingWindowTree) (direction : Direction.t)
    (container : ContainerRef) : Returned :=
  if is_active_window_fullscreen t then
    {| returned := false; tree_after := t;
       events := [log_warning "Unable to resize the next window: fullscreened"] |}
  else
    let '(root, events) :=
      handle_resize lane_min_width lane_min_height (root_lane t) container direction
        (get_resize_jump (config t)) in
    {| returned := true; tree_after := with_root t root; events := events |}.

End EntryPoints.

Definition select_next (t : TilingWindowTree) (direction : Direction.t)
    (container : ContainerRef) : outcome Returned :=
  if is_active_window_fullscreen t then
    Done {| returned := false; tree_after := t;
            events := [log_warning "Unable to select the next window: fullscreened"] |}
  else
    match handle_select (root_lane t) container direction with
    | Undefined => Undefined
    | Done None =>
        Done {| returned := false; tree_after := t;
                events := handle_select_events container
                          ++ [log_warning
                                "Unable to select the next window: handle_select failed"] |}
    | Done (Some node) =>
        Done {| returned := true; tree_after := t;
                events := [select_active_window node] |}
    end.

(** [handle_layout_scheme] returns nothing: the tree and what was logged. *)
Definition handle_layout_scheme (t : TilingWindowTree) (scheme : LayoutScheme.t)
    (container : ContainerRef) : TilingWindowTree * list Event :=
  if is_active_window_fullscreen t then
    (t, [log_warning "Unable to handle direction request: fullscreen"])
  else
    match container with
    | [] => (t, [log_warning "handle_layout_scheme: parent is not set"])
    | index :: parent =>
        match resolve (root_lane t) parent with
        | Some (ParentContainer parent_scheme _ _ sub_nodes) =>
            if (1 <? length sub_nodes)%nat
               && negb (LayoutScheme.eqb parent_scheme LayoutScheme.tabbing)
            then
              (* the new lane sits where [container] was *)
              (with_root t
                 (update (set_direction scheme)
                    (update (convert_to_parent index) (root_lane t) parent)
                    (index :: parent)), [])
            else
              (with_root t (update (set_direction scheme) (root_lane t) parent), [])
        | _ => (t, [log_warning "handle_layout_scheme: parent is not set"])
        end
    end.

(** ** Selecting by position *)

Section SelectFromPoint.

(** [ParentContainer::find_where] is not part of the sources at hand: the
    search of a lane for a container that satisfies a predicate. *)
Variable find_where : Container -> (Container -> bool) -> option ContainerRef.

Definition select_window_from_point (t : TilingWindowTree) (state : CompositorState)
    (x y : Z) : option ContainerPtr :=
  if is_active_window_fullscreen t then active_container t state
  else
    let node :=
      find_where (root_lane t)
        (fun node =>
           is_leaf node
           && geom.contains (get_logical_area node) {| geom.x := x; geom.y := y |}) in
    as_leaf (root_lane t) (option_map in_tree node).

End SelectFromPoint.

(** A search in the manner of [foreach_node_internal]: the container itself,
    then its children in order, depth first. *)
Fixpoint find_first (f : Container -> bool) (c : Container) : option (list nat) :=
  if f c then Some []
  else
    match c with
    | LeafContainer _ _ _ => None
    | ParentContainer _ _ _ sub_nodes =>
        (fix children (subs : list Container) (i : nat) : option (list nat) :=
           match subs with
           | [] => None
           | sub :: rest =>
               match find_first f sub with
               | Some path => Some (i :: path)
               | None => children rest (S i)
               end
           end) sub_nodes 0%nat
    end.

Definition find_where_preorder (root : Container) (f : Container -> bool)
    : option ContainerRef :=
  option_map (@rev nat) (find_first f root).

(** ** The statements of the specification *)

(** *** Directional select (§4.5)

    At one ancestor [parent], for the child [index] the climb came through:
    the adjacent sibling to step to, when the scheme of the ancestor matches
    the axis of the direction and the child is not at the extremity the
    direction points to. *)
Definition step_target (root : Container) (index : nat) (parent : ContainerRef)
    (direction : Direction.t) : option nat :=
  match resolve root parent with
  | Some (ParentContainer scheme _ _ sub_nodes) =>
      if select_axis_matches direction scheme then
        if is_negative_direction direction then
          if (0 <? index)%nat then Some (index - 1)%nat else None
        else
          if (index + 1 <? length sub_nodes)%nat then Some (index + 1)%nat else None
      else None
  | _ => None
  end.

(** The descent into the child [target] of [parent]: what
    [get_closest_window_to_select_from_node] finds there, as a reference
    from the root. *)
Definition descend (root : Container) (parent : ContainerRef) (target : nat)
    (direction : Direction.t) : outcome (option ContainerRef) :=
  match resolve root (target :: parent) with
  | None => Undefined
  | Some sibling =>
      match get_closest_window_to_select_from_node sibling direction with
      | Done (Some leaf) => Done (Some (leaf ++ target :: parent))
      | Done None => Done None
      | Undefined => Undefined
      end
  end.

(** *** Lanes without children (§3, §8) *)

(** No lane in [c], [c] included, is empty. *)
Fixpoint no_empty_lanes (c : Container) : bool :=
  match c with
  | LeafContainer _ _ _ => true
  | ParentContainer _ _ _ sub_nodes =>
      negb (bool_decide (length sub_nodes = 0%nat)) && forallb no_empty_lanes sub_nodes
  end.

(** No internal lane is empty: the root may be. *)
Definition internal_lanes_nonempty (root : Container) : bool :=
  forallb no_empty_lanes (get_sub_nodes root).

(** The windows of the leaves, in traversal order. *)
Fixpoint leaves (c : Container) : list nat :=
  match c with
  | LeafContainer window _ _ => [window]
  | ParentContainer _ _ _ sub_nodes => flat_map leaves sub_nodes
  end.

(** A sequence of [handle_remove] calls; each reference is read in the tree
    the calls before it left. *)
Fixpoint handle_remove_all (root : Container) (nodes : list ContainerRef) : Container :=
  match nodes with
  | [] => root
  | node :: rest => handle_remove_all (fst (handle_remove root node)) rest
  end.

(** *** Removal (§3, §4.5): the predicates of the proof that no internal
    lane is left empty *)

(** Every child of [c], but perhaps the one at [index], is free of empty
    lanes. *)
Definition siblings_nonempty (index : nat) (c : Container) : Prop :=
  forall j sub, j <> index -> get_sub_nodes c !! j = Some sub -> no_empty_lanes sub = true.

(** Every child of [c] is free of empty lanes. *)
Definition children_nonempty (c : Container) : Prop :=
  forall j sub, get_sub_nodes c !! j = Some sub -> no_empty_lanes sub = true.

(** [along Q path c]: [path] leads from [c] to a container that satisfies
    [Q], and whatever hangs off the path is free of empty lanes. *)
Fixpoint along (Q : Container -> Prop) (path : list nat) (c : Container) : Prop :=
  match path with
  | [] => Q c
  | i :: rest =>
      exists child,
        get_sub_nodes c !! i = Some child
        /\ along Q rest child
        /\ siblings_nonempty i c
  end.

(** *** Move at the root (§4.5) *)

(** The area of the root once [recalculate_root_node_area] has run. *)
Definition recalculated_area (t : TilingWindowTree) : geom.Rectangle :=
  match zones t with
  | [] => get_logical_area (root_lane t)
  | extents :: _ => extents
  end.

(** What is left under the new root once the moving container is taken
    out of the old one: nothing when it was the only child (the old root
    goes with it), the old root without it otherwise. *)
Definition left_behind (old_root : Container) (index : nat) : list Container :=
  if (num_nodes old_root =? 1)%nat then []
  else [with_sub_nodes (delete index) old_root].

(** *** Resize (§4.5, §8) *)

(** The sum of the extents of a list of rectangles along one axis. *)
Definition sum_extents (is_vertical : bool) (rects : list geom.Rectangle) : Z :=
  foldr (fun r acc => extent is_vertical r + acc) 0 rects.

(** What the staging adds to the extent of [nodes[i]]: the resize amount
    for the target, the share of the others otherwise. *)
Definition staged_change (target : nat) (resize_amount for_others : Z) (i : nat) : Z :=
  if (i =? target)%nat then resize_amount else for_others.

(** The changes staged for the [count] siblings from position [i] on, added
    up. *)
Fixpoint sum_staged_changes (target : nat) (resize_amount for_others : Z)
    (i count : nat) : Z :=
  match count with
  | O => 0
  | S count' =>
      staged_change target resize_amount for_others i
      + sum_staged_changes target resize_amount for_others (S i) count'
  end.

(** ** The rest of the tree code, and what its properties are stated with *)

(** *** Structure without geometry

    The container with every logical area replaced by the empty rectangle
    at the origin and every staged area dropped: what is left is the shape
    of the tree, the schemes of the lanes and the windows of the leaves. *)
Fixpoint erase_geometry (c : Container) : Container :=
  let nowhere :=
    {| geom.top_left := {| geom.x := 0; geom.y := 0 |};
       geom.size := {| geom.width := 0; geom.height := 0 |} |} in
  match c with
  | LeafContainer window _ _ => LeafContainer window nowhere None
  | ParentContainer scheme _ _ sub_nodes =>
      ParentContainer scheme nowhere None (map erase_geometry sub_nodes)
  end.

(** *** Resize: how the siblings lie in their lane *)

(** The rectangles follow one another along the axis, each starting where
    the one before it ends. *)
Definition contiguous (is_vertical : bool) (rects : list geom.Rectangle) : Prop :=
  forall k a b,
    rects !! k = Some a ->
    rects !! S k = Some b ->
    origin is_vertical b = origin is_vertical a + extent is_vertical a.

(** The logical areas of the children of a lane, in order. *)
Definition areas_of (lane : Container) : list geom.Rectangle :=
  map get_logical_area (get_sub_nodes lane).

(** Every lane of the container has a scheme that satisfies [P]. *)
Fixpoint all_lanes (P : LayoutScheme.t -> bool) (c : Container) : bool :=
  match c with
  | LeafContainer _ _ _ => true
  | ParentContainer scheme _ _ sub_nodes => P scheme && forallb (all_lanes P) sub_nodes
  end.

(** *** Walking the tree ([foreach_node_internal], [foreach_node]) *)

(** The [for] loop of [foreach_node_internal] over the children of a lane:
    [results] holds what the recursive call yields for each child, [i] is
    the position of the first of them.  The first child in which something
    is found ends the loop; the calls made in the children before it, and
    in it, are the calls of the loop. *)
Fixpoint foreach_sub_nodes (results : list (list Container * option (list nat)))
    (i : nat) : list Container * option (list nat) :=
  match results with
  | [] => ([], None)
  | (calls, Some path) :: _ => (calls, Some (i :: path))
  | (calls, None) :: rest =>
      let '(calls', result) := foreach_sub_nodes rest (S i) in
      (calls ++ calls', result)
  end.

(** [foreach_node_internal]: the containers [f] is called on, in order, and
    the container that is returned, as the indices that lead to it from
    [parent]; [None] is [nullptr]. *)
Fixpoint foreach_node_internal (f : Container -> bool) (parent : Container)
    : list Container * option (list nat) :=
  if f parent then ([parent], Some [])
  else
    match parent with
    | LeafContainer _ _ _ => ([parent], None)
    | ParentContainer _ _ _ sub_nodes =>
        let '(calls, result) :=
          foreach_sub_nodes (map (foreach_node_internal f) sub_nodes) 0 in
        (parent :: calls, result)
    end.

(** [foreach_node]: the containers the callback is called on, in order.
    The callback is wrapped in a function that always answers [false]. *)
Definition foreach_node (t : TilingWindowTree) : list Container :=
  fst (foreach_node_internal (fun _ => false) (root_lane t)).

(** The containers of a tree in the order of a depth-first walk: a
    container before its children, the children in their order. *)
Fixpoint preorder (c : Container) : list Container :=
  c :: match c with
       | LeafContainer _ _ _ => []
       | ParentContainer _ _ _ sub_nodes => flat_map preorder sub_nodes
       end.

(** The elements of a list up to the first that satisfies [f], that one
    included. *)
Fixpoint up_to_first {A} (f : A -> bool) (l : list A) : list A :=
  match l with
  | [] => []
  | x :: rest => if f x then [x] else x :: up_to_first f rest
  end.

(** What one call of [foreach_node_internal] does, in terms of the walk. *)
Definition walks_to_first (f : Container -> bool) (c : Container) : Prop :=
  fst (foreach_node_internal f c) = up_to_first f (preorder c)
  /\ match snd (foreach_node_internal f c) with
     | Some path =>
         exists found, container_at c path = Some found
                       /\ find f (preorder c) = Some found
     | None => find f (preorder c) = None
     end.

(** *** Committed geometry

    The container with every staged area dropped: what [get_visible_area]
    reads. *)
Fixpoint drop_staged (c : Container) : Container :=
  match c with
  | LeafContainer window area _ => LeafContainer window area None
  | ParentContainer scheme area _ sub_nodes =>
      ParentContainer scheme area None (map drop_staged sub_nodes)
  end.

(** The rectangle [inner] lies within the rectangle [outer]. *)
Definition within (inner outer : geom.Rectangle) : Prop :=
  geom.x (geom.top_left outer) <= geom.x (geom.top_left inner)
  /\ geom.y (geom.top_left outer) <= geom.y (geom.top_left inner)
  /\ geom.x (geom.top_left inner) + geom.width (geom.size inner)
     <= geom.x (geom.top_left outer) + geom.width (geom.size outer)
  /\ geom.y (geom.top_left inner) + geom.height (geom.size inner)
     <= geom.y (geom.top_left outer) + geom.height (geom.size outer).

(** *** The fullscreen flag ([toggle_fullscreen], [advise_fullscreen_container],
    [advise_restored_container], [advise_delete_window]) *)

(** What these operations do besides changing the tree: an [Event], or a
    call of [window_controller.raise] with the window of a leaf. *)
Inductive Effect : Type :=
| event (e : Event)
| raise (container : ContainerRef).

Definition with_fullscreen (t : TilingWindowTree) (fullscreen : bool) : TilingWindowTree :=
  {| root_lane := root_lane t;
     is_active_window_fullscreen := fullscreen;
     is_hidden := is_hidden t;
     zones := zones t;
     config := config t |}.

(** [LeafContainer::window] of the leaf a pointer denotes.  A leaf that is
    not part of the tree is known by its window. *)
Definition window_of (root : Container) (p : ContainerPtr) : option nat :=
  match p with
  | in_tree r =>
      match resolve root r with
      | Some (LeafContainer window _ _) => Some window
      | _ => None
      end
  | elsewhere true id => Some id
  | elsewhere false _ => None
  end.

Record Advised := {
  advised : bool;
  advised_tree : TilingWindowTree;
  advised_effects : list Effect
}.

(** [advise_fullscreen_container].  The parameter is a [LeafContainer&]: a
    reference that does not denote a leaf is not a state of the program. *)
Definition advise_fullscreen_container (t : TilingWindowTree) (container : ContainerRef)
    : outcome Advised :=
  match resolve (root_lane t) container with
  | Some (LeafContainer _ _ _) =>
      Done {| advised := true;
              advised_tree := with_fullscreen t true;
              advised_effects := [event (select_active_window container); raise container] |}
  | _ => Undefined
  end.

(** [advise_restored_container]: only the active leaf leaves fullscreen; its
    logical area is staged anew and committed. *)
Definition advise_restored_container (t : TilingWindowTree) (state : CompositorState)
    (container : ContainerRef) : outcome Advised :=
  match resolve (root_lane t) container with
  | Some (LeafContainer window _ _) =>
      let same_window :=
        match active_container t state with
        | Some active_leaf => bool_decide (window_of (root_lane t) active_leaf = Some window)
        | None => false
        end in
      if same_window && is_active_window_fullscreen t then
        Done {| advised := true;
                advised_tree :=
                  with_fullscreen
                    (with_root t
                       (update (fun c => commit_area (set_logical_area (get_logical_area c) c))
                          (root_lane t) container))
                    false;
                advised_effects := [event (commit_changes container)] |}
      else
        Done {| advised := true; advised_tree := t; advised_effects := [] |}
  | _ => Undefined
  end.

Definition toggle_fullscreen (t : TilingWindowTree) (state : CompositorState)
    (container : ContainerRef) : outcome Advised :=
  if is_active_window_fullscreen t then advise_restored_container t state container
  else advise_fullscreen_container t container.

(** [advise_delete_window].  [active == container] compares two pointers;
    [handle_remove] returns [nullptr] for a container without a parent, and
    [parent->commit_changes()] is then undefined.  The lane that is
    committed is denoted as it is once the container is gone; when the
    cascade took that lane out of the tree as well, the commit does not
    touch the tree. *)
Definition advise_delete_window (t : TilingWindowTree) (state : CompositorState)
    (container : ContainerRef) : outcome (TilingWindowTree * list Event) :=
  let is_active :=
    match active_container t state with
    | Some (in_tree r) => bool_decide (r = container)
    | _ => false
    end in
  let fullscreen := if is_active then false else is_active_window_fullscreen t in
  match handle_remove (root_lane t) container, handle_remove_site (root_lane t) container with
  | (root, Some parent), Some site =>
      match after_remove site parent with
      | Some lane =>
          let '(root', events) := commit_lane root lane in
          Done (with_fullscreen (with_root t root') fullscreen, events)
      | None =>
          Done (with_fullscreen (with_root t root) fullscreen, [commit_changes parent])
      end
  | _, _ => Undefined
  end.

(** [is_empty]. *)
Definition is_empty (t : TilingWindowTree) : bool := (num_nodes (root_lane t) =? 0)%nat.

(** *** Layout requests ([request_vertical_layout], [request_horizontal_layout],
    [requested_tabbing_layout], [toggle_layout]) *)

Definition request_vertical_layout (t : TilingWindowTree) (container : ContainerRef)
    : TilingWindowTree * list Event :=
  handle_layout_scheme t LayoutScheme.vertical container.

Definition request_horizontal_layout (t : TilingWindowTree) (container : ContainerRef)
    : TilingWindowTree * list Event :=
  handle_layout_scheme t LayoutScheme.horizontal container.

Definition requested_tabbing_layout (t : TilingWindowTree) (container : ContainerRef)
    : TilingWindowTree * list Event :=
  handle_layout_scheme t LayoutScheme.tabbing container.

Definition toggle_layout (t : TilingWindowTree) (container : ContainerRef)
    : TilingWindowTree * list Event :=
  match container with
  | [] => (t, [])
  | _ :: parent =>
      match resolve (root_lane t) parent with
      | Some (ParentContainer LayoutScheme.horizontal _ _ _) =>
          handle_layout_scheme t LayoutScheme.vertical container
      | Some (ParentContainer LayoutScheme.vertical _ _ _) =>
          handle_layout_scheme t LayoutScheme.horizontal container
      | Some (ParentContainer _ _ _ _) =>
          (t, [log_error "Parent with stack layout scheme cannot be toggled"])
      | _ => (t, [])
      end
  end.

(** [LeafContainer::toggle_tabbing] ([leaf_container.cpp]): a leaf in a
    tabbing lane asks for a horizontal layout, any other leaf for a tabbing
    one; the answer is always [true]. *)
Definition toggle_tabbing (t : TilingWindowTree) (container : ContainerRef) : Returned :=
  match container with
  | [] => {| returned := true; tree_after := t; events := [] |}
  | _ :: parent =>
      match resolve (root_lane t) parent with
      | Some (ParentContainer scheme _ _ _) =>
          let '(t', logged) :=
            if LayoutScheme.eqb scheme LayoutScheme.tabbing
            then request_horizontal_layout t container
            else requested_tabbing_layout t container in
          {| returned := true; tree_after := t'; events := logged |}
      | _ => {| returned := true; tree_after := t; events := [] |}
      end
  end.

(** ** Sample trees *)

Definition rect (x y w h : Z) : geom.Rectangle :=
  {| geom.top_left := {| geom.x := x; geom.y := y |};
     geom.size := {| geom.width := w; geom.height := h |} |}.

Definition sample_config : Config :=
  {| get_resize_jump := 50; get_inner_gaps_x := 10; get_inner_gaps_y := 10;
     border_size := 2 |}.

(** A horizontal root: a leaf on the left, a vertical lane of three leaves
    on the right. *)
Definition column_tree : Container :=
  ParentContainer LayoutScheme.horizontal (rect 0 0 1000 600) None
    [ LeafContainer 1 (rect 0 0 500 600) None;
      ParentContainer LayoutScheme.vertical (rect 500 0 500 600) None
        [ LeafContainer 2 (rect 500 0 500 200) None;
          LeafContainer 3 (rect 500 200 500 200) None;
          LeafContainer 4 (rect 500 400 500 200) None ] ].

(** A horizontal root with a narrow leaf and a wide one. *)
Definition narrow_tree : Container :=
  ParentContainer LayoutScheme.horizontal (rect 0 0 1000 600) None
    [ LeafContainer 1 (rect 0 0 40 600) None;
      LeafContainer 2 (rect 40 0 960 600) None ].

(** A root with one leaf that fills it. *)
Definition single_leaf_root (scheme : LayoutScheme.t) : Container :=
  ParentContainer scheme (rect 0 0 1000 600) None
    [ LeafContainer 1 (rect 0 0 1000 600) None ].

Definition sample_tree (root : Container) (fullscreen : bool) : TilingWindowTree :=
  {| root_lane := root;
     is_active_window_fullscreen := fullscreen;
     is_hidden := false;
     zones := [rect 0 0 1000 600];
     config := sample_config |}.

(** A chain of lanes with one child each, next to a leaf. *)
Definition chain_tree : Container :=
  ParentContainer LayoutScheme.horizontal (rect 0 0 1000 600) None
    [ ParentContainer LayoutScheme.vertical (rect 0 0 500 600) None
        [ ParentContainer LayoutScheme.horizontal (rect 0 0 500 600) None
            [ LeafContainer 1 (rect 0 0 500 600) None ] ];
      LeafContainer 2 (rect 500 0 500 600) None ].

(** A tabbing root with two leaves. *)
Definition tabbed_tree : Container :=
  ParentContainer LayoutScheme.tabbing (rect 0 0 1000 600) None
    [ LeafContainer 1 (rect 0 0 1000 600) None;
      LeafContainer 2 (rect 0 0 1000 600) None ].

(** * Properties *)

(** ** References *)

Lemma container_at_app (c : Container) (p q : list nat) :
  container_at c (p ++ q) =
  match container_at c p with
  | Some c' => container_at c' q
  | None => None
  end.
Proof.
  revert c. induction p as [| i p IH]; intros c; simpl; [reflexivity |].
  destruct (get_sub_nodes c !! i); [apply IH | reflexivity].
Qed.

Lemma resolve_cons (root : Container) (index : nat) (parent : ContainerRef) :
  resolve root (index :: parent) =
  match resolve root parent with
  | Some lane => get_sub_nodes lane !! index
  | None => None
  end.
Proof.
  unfold resolve. simpl. rewrite container_at_app.
  destruct (container_at root (rev parent)) as [lane |]; [| reflexivity].
  simpl. destruct (get_sub_nodes lane !! index); reflexivity.
Qed.

Lemma resolve_nil (root : Container) : resolve root [] = Some root.
Proof. reflexivity. Qed.

(** A reference that denotes a container has a lane for a parent. *)
Lemma resolve_parent_lane (root : Container) (index : nat) (parent : ContainerRef)
    (node : Container) :
  resolve root (index :: parent) = Some node ->
  exists scheme area next sub_nodes,
    resolve root parent = Some (ParentContainer scheme area next sub_nodes)
    /\ sub_nodes !! index = Some node.
Proof.
  rewrite resolve_cons. destruct (resolve root parent) as [[w a n | s a n subs] |];
    simpl; intros H; try discriminate.
  exists s, a, n, subs. split; [reflexivity | exact H].
Qed.

Lemma resolve_app_valid (root : Container) (below above : ContainerRef) :
  is_Some (resolve root (below ++ above)) -> is_Some (resolve root above).
Proof.
  unfold resolve. rewrite rev_app_distr, container_at_app.
  destruct (container_at root (rev above)); [eauto | intros [? ?]; discriminate].
Qed.

(** ** Directional select *)

Lemma handle_select_climb_unfold (root : Container) (index : nat) (parent : ContainerRef)
    (direction : Direction.t) :
  handle_select_climb root index parent direction =
  match resolve root parent with
  | Some (ParentContainer scheme _ _ sub_nodes) =>
      match step_target root index parent direction with
      | Some target =>
          match sub_nodes !! target with
          | None => Undefined
          | Some sibling =>
              match get_closest_window_to_select_from_node sibling direction with
              | Done (Some leaf) => Done (Some (leaf ++ target :: parent))
              | Done None => Done None
              | Undefined => Undefined
              end
          end
      | None => handle_select root parent direction
      end
  | _ => Undefined
  end.
Proof.
  unfold step_target.
  destruct parent as [| pi gp]; cbn [handle_select_climb handle_select];
    (destruct (resolve root _) as [[w a n | s a n subs] |]; [reflexivity | | reflexivity]);
    destruct (select_axis_matches direction s); [| reflexivity | | reflexivity];
    destruct (is_negative_direction direction);
    unfold num_nodes; cbn [get_sub_nodes].
  all: try (destruct (0 <? index)%nat; reflexivity).
  all: destruct (Nat.ltb_spec index (length subs - 1)), (Nat.ltb_spec (index + 1) (length subs));
    try reflexivity; lia.
Qed.

Lemma handle_select_climb_step (root : Container) (index : nat) (parent : ContainerRef)
    (direction : Direction.t) (target : nat) :
  is_Some (resolve root (index :: parent)) ->
  step_target root index parent direction = Some target ->
  handle_select_climb root index parent direction = descend root parent target direction.
Proof.
  intros [node Hnode] Hstep.
  destruct (resolve_parent_lane _ _ _ _ Hnode) as (s & a & n & subs & Hlane & Hsub).
  rewrite handle_select_climb_unfold, Hlane, Hstep.
  unfold descend. rewrite resolve_cons, Hlane. cbn [get_sub_nodes].
  destruct (subs !! target); reflexivity.
Qed.

Lemma handle_select_climb_pass (root : Container) (index : nat) (parent : ContainerRef)
    (direction : Direction.t) :
  is_Some (resolve root (index :: parent)) ->
  step_target root index parent direction = None ->
  handle_select_climb root index parent direction = handle_select root parent direction.
Proof.
  intros [node Hnode] Hstep.
  destruct (resolve_parent_lane _ _ _ _ Hnode) as (s & a & n & subs & Hlane & Hsub).
  rewrite handle_select_climb_unfold, Hlane, Hstep. reflexivity.
Qed.

(** C3.  From a container with a parent, [handle_select] climbs the chain
    of ancestors.  It steps to the adjacent sibling ([index - 1] for left
    and up, [index + 1] for right and down) at the first ancestor whose
    scheme matches the axis of the direction (vertical for up/down,
    horizontal or tabbing for left/right) and in which the chain is not at
    the extremity the direction points to, and descends there; when no
    ancestor up to the root is such, it returns nothing. *)
Theorem handle_select_climbs_to_first_match (root : Container) (from : ContainerRef)
    (direction : Direction.t) :
  is_Some (resolve root from) ->
  (forall below index parent target,
      from = below ++ index :: parent ->
      step_target root index parent direction = Some target ->
      (forall lower index' parent' upper,
          below = lower ++ index' :: upper ->
          parent' = upper ++ index :: parent ->
          step_target root index' parent' direction = None) ->
      handle_select root from direction = descend root parent target direction)
  /\ ((forall below index parent,
          from = below ++ index :: parent ->
          step_target root index parent direction = None) ->
      handle_select root from direction = Done None).
Proof.
  intros Hvalid. split.
  - intros below. revert from Hvalid.
    induction below as [| j below IH]; intros from Hvalid index parent target -> Hstep Hlower.
    + apply handle_select_climb_step; assumption.
    + cbn [app handle_select]. rewrite handle_select_climb_pass.
      * apply (IH _ (resolve_app_valid root [j] _ Hvalid) index parent target eq_refl Hstep).
        intros lower index' parent' upper -> ->.
        apply (Hlower (j :: lower) index' _ upper); reflexivity.
      * exact Hvalid.
      * apply (Hlower [] j _ below); reflexivity.
  - induction from as [| j from IH]; intros Hnone; [reflexivity |].
    cbn [handle_select]. rewrite handle_select_climb_pass.
    + apply IH.
      * apply (resolve_app_valid root [j] _ Hvalid).
      * intros below index parent ->. apply (Hnone (j :: below)). reflexivity.
    + exact Hvalid.
    + apply (Hnone [] j from). reflexivity.
Qed.

(** ** The descent into a lane *)

Lemma Container_ind_sub (P : Container -> Prop) :
  (forall window area next, P (LeafContainer window area next)) ->
  (forall scheme area next sub_nodes,
      Forall P sub_nodes -> P (ParentContainer scheme area next sub_nodes)) ->
  forall c, P c.
Proof.
  intros Hleaf Hlane. fix IH 1. intros [w a n | s a n subs].
  - apply Hleaf.
  - apply Hlane. induction subs as [| sub subs IHsubs]; constructor.
    + apply IH.
    + apply IHsubs.
Qed.

Lemma scan_sub_nodes_app (results : list (outcome (option ContainerRef)))
    (first second : list nat) :
  scan_sub_nodes results (first ++ second) =
  match scan_sub_nodes results first with
  | Done None => scan_sub_nodes results second
  | found => found
  end.
Proof.
  induction first as [| i first IH]; cbn [app scan_sub_nodes]; [reflexivity |].
  destruct (results !! i) as [[[leaf |] |] |]; try reflexivity. exact IH.
Qed.

Lemma scan_sub_nodes_none (results : list (outcome (option ContainerRef)))
    (indices : list nat) :
  scan_sub_nodes results indices = Done None <->
  Forall (fun i => results !! i = Some (Done None)) indices.
Proof.
  induction indices as [| i indices IH]; cbn [scan_sub_nodes].
  - split; [constructor | reflexivity].
  - destruct (results !! i) as [[[leaf |] |] |] eqn:Hi.
    + split; [discriminate | intros H; inversion H; congruence].
    + rewrite IH. split; [intros H; constructor; [exact Hi | exact H]
                         | intros H; inversion H; assumption].
    + split; [discriminate | intros H; inversion H; congruence].
    + split; [discriminate | intros H; inversion H; congruence].
Qed.

(** The reverse loop followed by the forward loop finds what one pass from
    the last child to the first finds. *)
Lemma reverse_then_forward (results : list (outcome (option ContainerRef))) (n : nat) :
  (0 < n)%nat ->
  match scan_sub_nodes results (reverse_indices n) with
  | Done None => scan_sub_nodes results (seq 0 n)
  | found => found
  end = scan_sub_nodes results (rev (seq 0 n)).
Proof.
  intros Hn. destruct n as [| m]; [lia |].
  unfold reverse_indices. replace (S m - 1)%nat with m by lia.
  cbn [seq rev]. rewrite scan_sub_nodes_app.
  destruct (scan_sub_nodes results (rev (seq 1 m))) as [[leaf |] |] eqn:Hrev;
    try reflexivity.
  apply scan_sub_nodes_none in Hrev.
  change (0%nat :: seq 1 m) with ([0%nat] ++ seq 1 m).
  rewrite scan_sub_nodes_app.
  destruct (scan_sub_nodes results [0%nat]) as [[leaf |] |]; try reflexivity.
  apply scan_sub_nodes_none. rewrite Forall_forall in *.
  intros i Hi. apply Hrev.
  apply list_elem_of_In, in_rev. rewrite rev_involutive. apply list_elem_of_In, Hi.
Qed.

Lemma get_closest_lane_reverse (scheme : LayoutScheme.t) (area : geom.Rectangle)
    (next : option geom.Rectangle) (sub_nodes : list Container)
    (direction : Direction.t) :
  is_negative_direction direction = true ->
  descent_axis_matches direction scheme = true ->
  sub_nodes <> [] ->
  get_closest_window_to_select_from_node
    (ParentContainer scheme area next sub_nodes) direction =
  scan_sub_nodes
    (map (fun sub_node => get_closest_window_to_select_from_node sub_node direction)
         sub_nodes)
    (rev (seq 0 (length sub_nodes))).
Proof.
  intros Hneg Hmatch Hne. cbn [get_closest_window_to_select_from_node].
  rewrite Hneg, Hmatch. cbn [andb].
  destruct sub_nodes as [| sub rest]; [congruence |].
  apply reverse_then_forward. simpl. lia.
Qed.

(** A container without empty lanes always yields a leaf, whatever the
    direction. *)
Lemma get_closest_finds_leaf (c : Container) (direction : Direction.t) :
  no_empty_lanes c = true ->
  exists leaf, get_closest_window_to_select_from_node c direction = Done (Some leaf).
Proof.
  induction c as [w a n | s a n subs IH] using Container_ind_sub; intros Hne.
  - exists []. reflexivity.
  - cbn [no_empty_lanes] in Hne. apply andb_true_iff in Hne as [Hlen Hall].
    destruct subs as [| sub rest]; [discriminate |].
    set (results := map (fun sub_node =>
                           get_closest_window_to_select_from_node sub_node direction)
                        (sub :: rest)).
    assert (Hres : forall i, (i < length (sub :: rest))%nat ->
                   exists leaf, results !! i = Some (Done (Some leaf))).
    { intros i Hi. destruct (lookup_lt_is_Some_2 (sub :: rest) i Hi) as [c Hc].
      rewrite Forall_forall in IH.
      destruct (IH c) as [leaf Hleaf].
      - eapply list_elem_of_lookup_2. exact Hc.
      - rewrite forallb_forall in Hall. apply Hall.
        apply list_elem_of_In. eapply list_elem_of_lookup_2. exact Hc.
      - exists leaf. unfold results. rewrite list_lookup_fmap, Hc. simpl.
        rewrite Hleaf. reflexivity. }
    assert (Hfwd : exists leaf, scan_sub_nodes results (seq 0 (length (sub :: rest)))
                                = Done (Some leaf)).
    { destruct (Hres 0%nat) as [leaf Hleaf]; [simpl; lia |].
      exists (leaf ++ [0%nat]). cbn [length seq scan_sub_nodes]. rewrite Hleaf. reflexivity. }
    destruct (descent_axis_matches direction s && is_negative_direction direction) eqn:Hcase.
    + apply andb_true_iff in Hcase as [Hm Hn].
      rewrite get_closest_lane_reverse by (assumption || discriminate).
      fold results.
      destruct (Hres (length rest)) as [leaf Hleaf]; [simpl; lia |].
      exists (leaf ++ [length rest]).
      cbn [length]. rewrite seq_S, rev_app_distr. cbn [rev app scan_sub_nodes plus].
      rewrite Hleaf. reflexivity.
    + cbn [get_closest_window_to_select_from_node]. rewrite Hcase. exact Hfwd.
Qed.

(** C7, as the code has it.  [get_closest_window_to_select_from_node]
    returns a leaf itself.  The test it makes on a lane is narrower than
    the one [handle_select] makes on an ancestor: the scheme has to be
    vertical for up and down, horizontal for left and right, and a tabbing
    lane passes for neither.  In a lane with children that passes the test,
    for left and up, the reverse scan followed by the forward scan finds
    what a single pass over the children from the last to the first finds;
    and when no lane below is empty, the leaf it returns is the one found
    in the last child.  In every other lane, a tabbing lane among them, and
    for right and down, the children are scanned forwards only, and when no
    lane below is empty the leaf returned is the one found in the first
    child.  In a lane without children that passes the test, left and up
    start the reverse loop at [SIZE_MAX]: the behaviour is undefined. *)
Theorem get_closest_prefers_last_child :
  (forall window area next direction,
      get_closest_window_to_select_from_node (LeafContainer window area next) direction
      = Done (Some []))
  /\ (forall scheme area next sub_nodes direction,
         is_negative_direction direction = true ->
         descent_axis_matches direction scheme = true ->
         sub_nodes <> [] ->
         get_closest_window_to_select_from_node
           (ParentContainer scheme area next sub_nodes) direction
         = scan_sub_nodes
             (map (fun sub_node =>
                     get_closest_window_to_select_from_node sub_node direction)
                  sub_nodes)
             (rev (seq 0 (length sub_nodes)))
         /\ (forallb no_empty_lanes sub_nodes = true ->
             exists last_child leaf,
               sub_nodes !! (length sub_nodes - 1)%nat = Some last_child
               /\ get_closest_window_to_select_from_node last_child direction
                  = Done (Some leaf)
               /\ get_closest_window_to_select_from_node
                    (ParentContainer scheme area next sub_nodes) direction
                  = Done (Some (leaf ++ [(length sub_nodes - 1)%nat]))))
  /\ (forall direction, descent_axis_matches direction LayoutScheme.tabbing = false)
  /\ (forall scheme area next sub_nodes direction,
         is_negative_direction direction = false
         \/ descent_axis_matches direction scheme = false ->
         get_closest_window_to_select_from_node
           (ParentContainer scheme area next sub_nodes) direction
         = scan_sub_nodes
             (map (fun sub_node =>
                     get_closest_window_to_select_from_node sub_node direction)
                  sub_nodes)
             (seq 0 (length sub_nodes))
         /\ (sub_nodes <> [] ->
             forallb no_empty_lanes sub_nodes = true ->
             exists first_child leaf,
               sub_nodes !! 0%nat = Some first_child
               /\ get_closest_window_to_select_from_node first_child direction
                  = Done (Some leaf)
               /\ get_closest_window_to_select_from_node
                    (ParentContainer scheme area next sub_nodes) direction
                  = Done (Some (leaf ++ [0%nat]))))
  /\ (forall scheme area next direction,
         is_negative_direction direction = true ->
         descent_axis_matches direction scheme = true ->
         get_closest_window_to_select_from_node
           (ParentContainer scheme area next []) direction
         = Undefined).
Proof.
  split; [reflexivity |]. split; [| split; [| split]].
  - intros scheme area next sub_nodes direction Hneg Hmatch Hne.
    split; [apply get_closest_lane_reverse; assumption |].
    intros Hall.
    rewrite get_closest_lane_reverse by assumption.
    destruct sub_nodes as [| sub rest] using rev_ind; [congruence |]. clear IHrest.
    rewrite length_app. cbn [length].
    replace (length rest + 1 - 1)%nat with (length rest) by lia.
    rewrite lookup_app_r by lia. rewrite Nat.sub_diag. cbn [lookup list_lookup].
    rewrite forallb_app in Hall. apply andb_true_iff in Hall as [_ Hsub].
    cbn [forallb] in Hsub. rewrite andb_true_r in Hsub.
    destruct (get_closest_finds_leaf sub direction Hsub) as [leaf Hleaf].
    exists sub, leaf. split; [reflexivity |]. split; [exact Hleaf |].
    rewrite Nat.add_1_r, seq_S, rev_app_distr. cbn [rev app scan_sub_nodes plus].
    rewrite list_lookup_fmap, lookup_app_r by lia. rewrite Nat.sub_diag. cbn.
    rewrite Hleaf. reflexivity.
  - intros direction. destruct direction; reflexivity.
  - intros scheme area next sub_nodes direction Hother.
    assert (Hforward :
              get_closest_window_to_select_from_node
                (ParentContainer scheme area next sub_nodes) direction
              = scan_sub_nodes
                  (map (fun sub_node =>
                          get_closest_window_to_select_from_node sub_node direction)
                       sub_nodes)
                  (seq 0 (length sub_nodes))).
    { cbn [get_closest_window_to_select_from_node].
      destruct Hother as [-> | ->]; rewrite ?andb_false_r; reflexivity. }
    split; [exact Hforward |]. intros Hne Hall. rewrite Hforward.
    destruct sub_nodes as [| sub rest]; [congruence |].
    cbn [forallb] in Hall. apply andb_true_iff in Hall as [Hsub _].
    destruct (get_closest_finds_leaf sub direction Hsub) as [leaf Hleaf].
    exists sub, leaf. split; [reflexivity |]. split; [exact Hleaf |].
    cbn [length seq map scan_sub_nodes lookup list_lookup]. rewrite Hleaf. reflexivity.
  - intros scheme area next direction Hneg Hmatch.
    cbn [get_closest_window_to_select_from_node]. rewrite Hneg, Hmatch. reflexivity.
Qed.

Lemma get_closest_tabbing_lane_forward (area : geom.Rectangle)
    (next : option geom.Rectangle) (sub_nodes : list Container)
    (direction : Direction.t) :
  get_closest_window_to_select_from_node
    (ParentContainer LayoutScheme.tabbing area next sub_nodes) direction
  = scan_sub_nodes
      (map (fun sub_node => get_closest_window_to_select_from_node sub_node direction)
           sub_nodes)
      (seq 0 (length sub_nodes)).
Proof. destruct direction; reflexivity. Qed.

(** C7 does not hold as stated: a tabbing lane matches the axis of left in
    the sense of the specification, which is the sense of [handle_select];
    yet the descent scans it forwards only, and selecting to the left from
    the leaf next to a tabbing lane lands on the first tab, not on the
    last.  The same lane with the horizontal scheme gives the last child. *)
Lemma get_closest_tabbing_lane_returns_first_tab :
  let tabs :=
    [ LeafContainer 1 (rect 0 0 500 600) None;
      LeafContainer 2 (rect 0 0 500 600) None;
      LeafContainer 3 (rect 0 0 500 600) None ] in
  let lane (scheme : LayoutScheme.t) :=
    ParentContainer scheme (rect 0 0 500 600) None tabs in
  let root :=
    ParentContainer LayoutScheme.horizontal (rect 0 0 1000 600) None
      [ lane LayoutScheme.tabbing; LeafContainer 4 (rect 500 0 500 600) None ] in
  is_negative_direction Direction.left = true
  /\ select_axis_matches Direction.left LayoutScheme.tabbing = true
  /\ get_closest_window_to_select_from_node (lane LayoutScheme.tabbing) Direction.left
     = Done (Some [0%nat])
  /\ get_closest_window_to_select_from_node (lane LayoutScheme.tabbing) Direction.left
     <> Done (Some [2%nat])
  /\ get_closest_window_to_select_from_node (lane LayoutScheme.horizontal) Direction.left
     = Done (Some [2%nat])
  /\ handle_select root [1%nat] Direction.left = Done (Some [0%nat; 0%nat]).
Proof. cbv zeta. repeat split; try reflexivity. discriminate. Qed.

(** ** The way back *)

(** What the climb returns never lies below the container it started from. *)
Lemma handle_select_climb_elsewhere (root : Container) (parent : ContainerRef) :
  forall (index : nat) (direction : Direction.t) (found : ContainerRef),
    handle_select_climb root index parent direction = Done (Some found) ->
    ~ (index :: parent) `suffix_of` found.
Proof.
  induction parent as [| pi gp IH]; intros index direction found;
    rewrite handle_select_climb_unfold;
    (destruct (resolve root _) as [[w a n | s a n subs] |]; try discriminate);
    destruct (step_target root index _ direction) as [target |] eqn:Hstep.
  - destruct (subs !! target) as [sibling |]; [| discriminate].
    destruct (get_closest_window_to_select_from_node sibling direction) as [[leaf |] |];
      try discriminate.
    intros [= <-] [k Hk].
    assert (target <> index).
    { unfold step_target in Hstep. destruct (resolve root []) as [[| ? ? ? ?] |]; try discriminate.
      repeat match type of Hstep with
             | context [if ?b then _ else _] => destruct b eqn:?
             end; try discriminate; injection Hstep as <-;
        repeat match goal with
               | H : (_ <? _)%nat = true |- _ => apply Nat.ltb_lt in H
               end; lia. }
    apply (f_equal (@rev nat)) in Hk. rewrite !rev_app_distr in Hk. simpl in Hk.
    injection Hk as Hk _. contradiction.
  - discriminate.
  - destruct (subs !! target) as [sibling |]; [| discriminate].
    destruct (get_closest_window_to_select_from_node sibling direction) as [[leaf |] |];
      try discriminate.
    intros [= <-] [k Hk].
    assert (target <> index).
    { unfold step_target in Hstep.
      destruct (resolve root (pi :: gp)) as [[| ? ? ? ?] |]; try discriminate.
      repeat match type of Hstep with
             | context [if ?b then _ else _] => destruct b eqn:?
             end; try discriminate; injection Hstep as <-;
        repeat match goal with
               | H : (_ <? _)%nat = true |- _ => apply Nat.ltb_lt in H
               end; lia. }
    apply (f_equal (@rev nat)) in Hk. rewrite !rev_app_distr in Hk. simpl in Hk.
    rewrite <- !app_assoc in Hk. apply app_inv_head in Hk. simpl in Hk.
    injection Hk as Hk _. contradiction.
  - cbn [handle_select]. intros Hclimb [k Hk].
    apply (IH _ _ _ Hclimb). exists (k ++ [index]). rewrite <- app_assoc. exact Hk.
Qed.

(** C8.  When [handle_select] from the leaf [L] in direction [d] returns the
    leaf [M], and [L] and [M] are children of one lane whose scheme matches
    the axis of [d], [handle_select] from [M] in the opposite direction
    returns [L]. *)
Theorem handle_select_round_trip (root : Container) (parent : ContainerRef)
    (l m : nat) (direction : Direction.t) (scheme : LayoutScheme.t)
    (area : geom.Rectangle) (next : option geom.Rectangle)
    (sub_nodes : list Container) :
  resolve root parent = Some (ParentContainer scheme area next sub_nodes) ->
  select_axis_matches direction scheme = true ->
  (exists leaf, sub_nodes !! l = Some leaf /\ is_leaf leaf = true) ->
  (exists leaf, sub_nodes !! m = Some leaf /\ is_leaf leaf = true) ->
  handle_select root (l :: parent) direction = Done (Some (m :: parent)) ->
  handle_select root (m :: parent) (Direction.opposite direction)
  = Done (Some (l :: parent)).
Proof.
  intros Hlane Hmatch (leaf_l & Hl & Hleaf_l) (leaf_m & Hm & Hleaf_m) Hselect.
  assert (Hl_lt : (l < length sub_nodes)%nat) by (eapply lookup_lt_Some; exact Hl).
  assert (Hm_lt : (m < length sub_nodes)%nat) by (eapply lookup_lt_Some; exact Hm).
  assert (Hmatch' : select_axis_matches (Direction.opposite direction) scheme = true)
    by (destruct direction; exact Hmatch).
  cbn [handle_select] in *.
  pose proof (handle_select_climb_elsewhere root parent l direction (m :: parent)) as Helse.
  rewrite handle_select_climb_unfold, Hlane in Hselect.
  destruct (step_target root l parent direction) as [target |] eqn:Hstep.
  - (* the step lands on [m] *)
    destruct (sub_nodes !! target) as [sibling |] eqn:Hsibling; [| discriminate].
    destruct (get_closest_window_to_select_from_node sibling direction) as [[leaf |] |];
      try discriminate.
    injection Hselect as Hfound.
    assert (Hlen : length (leaf ++ target :: parent) = length (m :: parent))
      by (rewrite Hfound; reflexivity).
    rewrite length_app in Hlen. cbn [length] in Hlen.
    destruct leaf as [| ? ?]; [| cbn [length] in Hlen; lia].
    injection Hfound as ->.
    rewrite handle_select_climb_unfold, Hlane.
    unfold step_target in Hstep |- *. rewrite Hlane, Hmatch in Hstep.
    rewrite Hlane, Hmatch'.
    destruct direction; cbn [is_negative_direction Direction.opposite] in *.
    all: repeat match type of Hstep with
           | context [if ?b then _ else _] => destruct b eqn:?
           end; try discriminate; injection Hstep as Htarget;
      repeat match goal with
             | H : (_ <? _)%nat = true |- _ => apply Nat.ltb_lt in H
             end.
    all: repeat match goal with
           | |- context [(?a <? ?b)%nat] => destruct (Nat.ltb_spec a b); try lia
           end.
    all: first [replace (m + 1)%nat with l by lia | replace (m - 1)%nat with l by lia].
    all: rewrite Hl; destruct leaf_l; [reflexivity | discriminate].
  - (* the climb went past the common parent: it cannot come back to [m] *)
    destruct parent as [| pi gp]; cbn [handle_select] in Hselect; [discriminate |].
    exfalso. eapply handle_select_climb_elsewhere; [exact Hselect |].
    exists [m]. reflexivity.
Qed.

(** ** Removal *)

Lemma alter_middle {A} (f : A -> A) (l : list A) (i : nat) (x : A) :
  l !! i = Some x -> alter f i l = take i l ++ f x :: drop (S i) l.
Proof.
  revert i. induction l as [| y l IH]; intros [| i] H; try discriminate.
  - injection H as ->. reflexivity.
  - cbn. f_equal. apply IH. exact H.
Qed.

Lemma flat_map_middle {A B} (f : A -> list B) (l : list A) (i : nat) (x : A) :
  l !! i = Some x ->
  flat_map f l = flat_map f (take i l) ++ f x ++ flat_map f (drop (S i) l).
Proof.
  intros H. rewrite <- (take_drop_middle l i x H) at 1.
  rewrite flat_map_app. reflexivity.
Qed.

Lemma container_at_lane (c : Container) (i : nat) (path : list nat) (x : Container) :
  container_at c (i :: path) = Some x ->
  exists scheme area next sub_nodes child,
    c = ParentContainer scheme area next sub_nodes
    /\ sub_nodes !! i = Some child /\ container_at child path = Some x.
Proof.
  destruct c as [w a n | s a n subs]; cbn [container_at get_sub_nodes].
  - rewrite lookup_nil. discriminate.
  - destruct (subs !! i) as [child |] eqn:Hchild; [| discriminate].
    intros H. exists s, a, n, subs, child. auto.
Qed.

(** Taking a child away takes its leaves away, and no others. *)
Lemma leaves_delete_at (path : list nat) :
  forall (root node : Container) (index : nat),
    container_at root (path ++ [index]) = Some node ->
    exists before after,
      leaves root = before ++ leaves node ++ after
      /\ leaves (alter_at (with_sub_nodes (delete index)) root path) = before ++ after.
Proof.
  induction path as [| i path IH]; intros root node index Hnode.
  - apply container_at_lane in Hnode as (s & a & n & subs & child & -> & Hchild & [= ->]).
    exists (flat_map leaves (take index subs)), (flat_map leaves (drop (S index) subs)).
    cbn [alter_at with_sub_nodes leaves]. split.
    + apply flat_map_middle. exact Hchild.
    + rewrite delete_take_drop, flat_map_app. reflexivity.
  - cbn [app] in Hnode.
    apply container_at_lane in Hnode as (s & a & n & subs & child & -> & Hchild & Hrest).
    destruct (IH child node index Hrest) as (before & after & Hleaves & Hdeleted).
    exists (flat_map leaves (take i subs) ++ before),
           (after ++ flat_map leaves (drop (S i) subs)).
    cbn [alter_at leaves]. split.
    + rewrite (flat_map_middle leaves subs i child Hchild), Hleaves.
      cbn [leaves]. rewrite <- !app_assoc. reflexivity.
    + rewrite (alter_middle _ subs i child Hchild), flat_map_app.
      cbn [flat_map]. rewrite Hdeleted, <- !app_assoc. reflexivity.
Qed.

Lemma leaves_ParentContainer_remove (lane : ContainerRef) :
  forall (root node : Container) (index : nat),
    resolve root (index :: lane) = Some node ->
    exists before after,
      leaves root = before ++ leaves node ++ after
      /\ leaves (ParentContainer_remove root lane index) = before ++ after.
Proof.
  induction lane as [| lane_index parent IH]; intros root node index Hnode.
  - destruct (leaves_delete_at (rev []) root node index Hnode) as
      (before & after & Hleaves & Hdetached).
    exists before, after. split; [exact Hleaves | exact Hdetached].
  - destruct (leaves_delete_at (rev (lane_index :: parent)) root node index Hnode) as
      (before & after & Hleaves & Hdetached).
    exists before, after. split; [exact Hleaves |].
    cbn [ParentContainer_remove]. unfold update.
    set (detached := alter_at (with_sub_nodes (delete index)) root
                       (rev (lane_index :: parent))) in *.
    destruct (resolve detached (lane_index :: parent))
      as [[w a n | s a n [| sub rest]] |] eqn:Hlane; try exact Hdetached.
    destruct (IH detached _ lane_index Hlane) as (before' & after' & Hleaves' & Hremoved).
    rewrite Hremoved, <- Hdetached, Hleaves'. reflexivity.
Qed.

Lemma children_nonempty_iff (c : Container) :
  children_nonempty c <-> internal_lanes_nonempty c = true.
Proof.
  unfold children_nonempty, internal_lanes_nonempty. rewrite forallb_forall. split.
  - intros H sub Hin. apply list_elem_of_In, list_elem_of_lookup in Hin as [j Hj]. eauto.
  - intros H j sub Hj. apply H, list_elem_of_In. eapply list_elem_of_lookup_2. exact Hj.
Qed.

Lemma no_empty_lanes_children (c : Container) :
  no_empty_lanes c = true -> children_nonempty c.
Proof.
  destruct c as [w a n | s a n subs]; intros H j sub Hj; cbn [get_sub_nodes] in Hj.
  - rewrite lookup_nil in Hj. discriminate.
  - cbn [no_empty_lanes] in H. apply andb_true_iff in H as [_ H].
    rewrite forallb_forall in H. apply H, list_elem_of_In.
    eapply list_elem_of_lookup_2. exact Hj.
Qed.

Lemma no_empty_lanes_of_children (c : Container) (i : nat) (child : Container) :
  get_sub_nodes c !! i = Some child -> children_nonempty c -> no_empty_lanes c = true.
Proof.
  destruct c as [w a n | s a n subs]; cbn [get_sub_nodes no_empty_lanes]; [reflexivity |].
  intros Hi Hall. apply andb_true_iff. split.
  - destruct subs; [rewrite lookup_nil in Hi; discriminate | reflexivity].
  - apply (proj1 (children_nonempty_iff (ParentContainer s a n subs))). exact Hall.
Qed.

Lemma along_mono (Q Q' : Container -> Prop) (path : list nat) :
  forall c, (forall x, Q x -> Q' x) -> along Q path c -> along Q' path c.
Proof.
  induction path as [| i path IH]; intros c HQ; cbn [along]; [apply HQ |].
  intros (child & Hchild & Hrest & Hside). exists child. eauto.
Qed.

Lemma along_app (Q : Container -> Prop) (p q : list nat) :
  forall c, along Q (p ++ q) c <-> along (along Q q) p c.
Proof.
  induction p as [| i p IH]; intros c; cbn [app along]; [reflexivity |].
  split; intros (child & Hchild & Hrest & Hside); exists child;
    (split; [exact Hchild | split; [apply IH; exact Hrest | exact Hside]]).
Qed.

Lemma along_valid (Q : Container -> Prop) (path : list nat) :
  forall c, along Q path c -> exists x, container_at c path = Some x /\ Q x.
Proof.
  induction path as [| i path IH]; intros c; cbn [along container_at]; [eauto |].
  intros (child & -> & Hrest & _). apply IH. exact Hrest.
Qed.

Lemma along_of_children_nonempty (path : list nat) :
  forall c x, children_nonempty c -> container_at c path = Some x ->
              along children_nonempty path c.
Proof.
  induction path as [| i path IH]; intros c x Hall Hx; cbn [along]; [exact Hall |].
  apply container_at_lane in Hx as (s & a & n & subs & child & -> & Hchild & Hrest).
  exists child. split; [exact Hchild |]. split.
  - apply (IH child x); [| exact Hrest].
    apply no_empty_lanes_children, (Hall i). exact Hchild.
  - intros j sub _ Hj. apply (Hall j). exact Hj.
Qed.

Lemma along_alter (Q Q' : Container -> Prop) (f : Container -> Container)
    (path : list nat) :
  (forall x, Q x -> Q' (f x)) ->
  forall c, along Q path c -> along Q' path (alter_at f c path).
Proof.
  intros Hf. induction path as [| i path IH]; intros c; cbn [along alter_at];
    [intros H; exact (Hf c H) |].
  intros (child & Hchild & Hrest & Hside).
  destruct c as [w a n | s a n subs]; cbn [get_sub_nodes] in *;
    [rewrite lookup_nil in Hchild; discriminate |].
  exists (alter_at f child path). split; [| split].
  - rewrite list_lookup_alter_eq, Hchild. reflexivity.
  - apply IH. exact Hrest.
  - intros j sub Hj Hsub. cbn [get_sub_nodes] in Hsub.
    rewrite list_lookup_alter_ne in Hsub by congruence. apply (Hside j); assumption.
Qed.

Lemma along_no_empty_lanes (path : list nat) :
  forall c, along (fun x => no_empty_lanes x = true) path c -> no_empty_lanes c = true.
Proof.
  induction path as [| i path IH]; intros c; cbn [along]; [trivial |].
  intros (child & Hchild & Hrest & Hside).
  apply (no_empty_lanes_of_children c i child Hchild).
  intros j sub Hj. destruct (decide (j = i)) as [-> | Hne].
  - rewrite Hchild in Hj. injection Hj as <-. apply IH. exact Hrest.
  - apply (Hside j); assumption.
Qed.

Lemma along_close (path : list nat) (c : Container) :
  path <> [] ->
  along (fun x => no_empty_lanes x = true) path c -> children_nonempty c.
Proof.
  intros _ H. apply no_empty_lanes_children, (along_no_empty_lanes path). exact H.
Qed.

Lemma delete_siblings_nonempty (index : nat) (c : Container) :
  siblings_nonempty index c -> children_nonempty (with_sub_nodes (delete index) c).
Proof.
  intros Hside j sub Hj. destruct c as [w a n | s a n subs]; cbn [with_sub_nodes get_sub_nodes] in *.
  - rewrite lookup_nil in Hj. discriminate.
  - destruct (decide (j < index)%nat) as [Hlt | Hge].
    + rewrite list_lookup_delete_lt in Hj by exact Hlt. apply (Hside j); [lia | exact Hj].
    + rewrite list_lookup_delete_ge in Hj by lia. apply (Hside (S j)); [lia | exact Hj].
Qed.

Lemma alter_out_of_range {A} (f : A -> A) (l : list A) (i : nat) :
  l !! i = None -> alter f i l = l.
Proof.
  revert i. induction l as [| y l IH]; intros [| i] H; try discriminate; try reflexivity.
  cbn. f_equal. apply IH. exact H.
Qed.

Lemma alter_at_invalid (f : Container -> Container) (path : list nat) :
  forall c, container_at c path = None -> alter_at f c path = c.
Proof.
  induction path as [| i path IH]; intros c; cbn [container_at alter_at]; [discriminate |].
  destruct c as [w a n | s a n subs]; [reflexivity |]. cbn [get_sub_nodes].
  destruct (subs !! i) as [child |] eqn:Hchild; intros H.
  - f_equal. rewrite (alter_middle _ subs i child Hchild), (IH child H).
    apply take_drop_middle. exact Hchild.
  - f_equal. apply alter_out_of_range. exact Hchild.
Qed.

Lemma along_end (Q Q' : Container -> Prop) (path : list nat) :
  forall c x, along Q path c -> container_at c path = Some x -> Q' x -> along Q' path c.
Proof.
  induction path as [| i path IH]; intros c x; cbn [along container_at].
  - intros _ [= ->] Hx. exact Hx.
  - intros (child & Hchild & Hrest & Hside) Hx HQ'. rewrite Hchild in Hx.
    exists child. split; [exact Hchild |]. split; [| exact Hside].
    apply (IH child x); assumption.
Qed.

(** The cascade leaves no internal lane empty, as long as the branches that
    are not removed had none. *)
Lemma ParentContainer_remove_along (lane : ContainerRef) :
  forall (root : Container) (index : nat),
    along (siblings_nonempty index) (rev lane) root ->
    children_nonempty (ParentContainer_remove root lane index).
Proof.
  induction lane as [| lane_index parent IH]; intros root index Hpre.
  - apply (along_alter _ children_nonempty (with_sub_nodes (delete index))) in Hpre;
      [exact Hpre | apply delete_siblings_nonempty].
  - cbn [ParentContainer_remove]. unfold update.
    apply (along_alter _ children_nonempty (with_sub_nodes (delete index))) in Hpre;
      [| apply delete_siblings_nonempty].
    set (detached := alter_at (with_sub_nodes (delete index)) root
                       (rev (lane_index :: parent))) in *.
    destruct (along_valid _ _ _ Hpre) as (x & Hx & Hxok).
    unfold resolve. rewrite Hx.
    assert (Hclose : no_empty_lanes x = true -> children_nonempty detached).
    { intros Hx_ok. apply (along_close (rev (lane_index :: parent))).
      - cbn [rev]. destruct (rev parent); discriminate.
      - apply (along_end _ _ _ _ x Hpre Hx Hx_ok). }
    destruct x as [w a n | s a n [| sub rest]].
    + apply Hclose. reflexivity.
    + apply IH. cbn [rev] in Hpre. apply along_app in Hpre.
      eapply along_mono; [| exact Hpre].
      intros y (child & _ & _ & Hside). exact Hside.
    + apply Hclose. apply (no_empty_lanes_of_children _ 0%nat sub); [reflexivity | exact Hxok].
Qed.

Lemma ParentContainer_remove_keeps_lanes_nonempty (root : Container)
    (lane : ContainerRef) (index : nat) :
  internal_lanes_nonempty root = true ->
  internal_lanes_nonempty (ParentContainer_remove root lane index) = true.
Proof.
  intros Hinv. apply children_nonempty_iff in Hinv. apply children_nonempty_iff.
  destruct (container_at root (rev lane)) as [x |] eqn:Hx.
  - apply ParentContainer_remove_along.
    eapply along_mono; [| apply (along_of_children_nonempty _ _ x Hinv Hx)].
    intros y Hy j sub _ Hj. apply (Hy j). exact Hj.
  - assert (Hsame : update (with_sub_nodes (delete index)) root lane = root)
      by (apply alter_at_invalid; exact Hx).
    destruct lane as [| lane_index parent]; cbn [ParentContainer_remove];
      rewrite Hsame; [exact Hinv |].
    unfold resolve. rewrite Hx. exact Hinv.
Qed.

Lemma handle_remove_keeps_lanes_nonempty (root : Container) (node : ContainerRef) :
  internal_lanes_nonempty root = true ->
  internal_lanes_nonempty (fst (handle_remove root node)) = true.
Proof.
  intros Hinv. unfold handle_remove.
  destruct node as [| index parent]; [exact Hinv |].
  destruct (resolve root parent) as [[w a n | s a n subs] |]; try exact Hinv.
  destruct parent as [| parent_index grandparent];
    [| destruct (length subs =? 1)%nat];
    cbn [fst]; apply ParentContainer_remove_keeps_lanes_nonempty; exact Hinv.
Qed.

Lemma container_at_alter_at (f : Container -> Container) (path : list nat) :
  forall c, container_at (alter_at f c path) path = f <$> container_at c path.
Proof.
  induction path as [| i path IH]; intros c; cbn [container_at alter_at]; [reflexivity |].
  destruct c as [w a n | s a n subs]; cbn [get_sub_nodes].
  - rewrite lookup_nil. reflexivity.
  - rewrite list_lookup_alter_eq. destruct (subs !! i) as [child |]; [apply IH | reflexivity].
Qed.

Lemma handle_remove_all_keeps_lanes_nonempty (nodes : list ContainerRef) :
  forall root,
    internal_lanes_nonempty root = true ->
    internal_lanes_nonempty (handle_remove_all root nodes) = true.
Proof.
  induction nodes as [| node rest IH]; intros root Hinv; cbn [handle_remove_all];
    [exact Hinv |].
  apply IH, handle_remove_keeps_lanes_nonempty, Hinv.
Qed.

Lemma handle_remove_leaves (root : Container) (index : nat) (parent : ContainerRef)
    (node : Container) :
  resolve root (index :: parent) = Some node ->
  exists before after,
    leaves root = before ++ leaves node ++ after
    /\ leaves (fst (handle_remove root (index :: parent))) = before ++ after.
Proof.
  intros Hnode.
  destruct (resolve_parent_lane _ _ _ _ Hnode) as (s & a & n & subs & Hlane & Hsub).
  unfold handle_remove. rewrite Hlane.
  destruct parent as [| parent_index grandparent];
    [| destruct (length subs =? 1)%nat eqn:Hone]; cbn [fst];
    try (apply leaves_ParentContainer_remove; exact Hnode).
  apply Nat.eqb_eq in Hone.
  destruct subs as [| only [| ? ?]]; try discriminate.
  destruct index as [| index]; [| rewrite lookup_cons, lookup_nil in Hsub; discriminate].
  injection Hsub as ->.
  destruct (leaves_ParentContainer_remove grandparent root _ parent_index Hlane)
    as (before & after & Hleaves & Hremoved).
  exists before, after. cbn [leaves flat_map] in Hleaves.
  rewrite app_nil_r in Hleaves. split; assumption.
Qed.

(** C4.  [handle_remove] takes the node and its leaves out of the tree.  When
    the node was the only child of a lane that has a parent, the lane is
    removed from that parent, which is the parent returned for the commit.
    A tree in which no internal lane is empty stays so across any sequence
    of [handle_remove] calls. *)
Theorem handle_remove_leaves_no_empty_lane :
  (forall root index parent node,
      resolve root (index :: parent) = Some node ->
      exists before after,
        leaves root = before ++ leaves node ++ after
        /\ leaves (fst (handle_remove root (index :: parent))) = before ++ after)
  /\ (forall root parent_index grandparent scheme area next only_child,
         resolve root (parent_index :: grandparent)
         = Some (ParentContainer scheme area next [only_child]) ->
         snd (handle_remove root (0%nat :: parent_index :: grandparent)) = Some grandparent
         /\ forall gs ga gn siblings,
             resolve root grandparent = Some (ParentContainer gs ga gn siblings) ->
             grandparent = [] \/ (1 < length siblings)%nat ->
             resolve (fst (handle_remove root (0%nat :: parent_index :: grandparent)))
                     grandparent
             = Some (ParentContainer gs ga gn (delete parent_index siblings)))
  /\ (forall root nodes,
         internal_lanes_nonempty root = true ->
         internal_lanes_nonempty (handle_remove_all root nodes) = true).
Proof.
  split; [exact handle_remove_leaves |].
  split; [| intros root nodes; apply handle_remove_all_keeps_lanes_nonempty].
  intros root parent_index grandparent scheme area next only_child Hlane.
  unfold handle_remove. rewrite Hlane. cbn [length Nat.eqb fst snd].
  split; [reflexivity |].
  intros gs ga gn siblings Hgrand Hroom.
  assert (Hdetached :
            resolve (update (with_sub_nodes (delete parent_index)) root grandparent)
                    grandparent
            = Some (ParentContainer gs ga gn (delete parent_index siblings))).
  { unfold resolve, update. rewrite container_at_alter_at.
    unfold resolve in Hgrand. rewrite Hgrand. reflexivity. }
  destruct grandparent as [| grand_index above]; cbn [ParentContainer_remove];
    [exact Hdetached |].
  rewrite Hdetached.
  destruct Hroom as [? | Hroom]; [discriminate |].
  destruct (delete parent_index siblings) as [| sub rest] eqn:Hdel; [| exact Hdetached].
  apply (f_equal length) in Hdel.
  rewrite resolve_cons, Hgrand in Hlane. cbn [get_sub_nodes] in Hlane.
  apply lookup_lt_Some in Hlane.
  rewrite length_delete in Hdel by (apply lookup_lt_is_Some_2; exact Hlane).
  cbn [length] in Hdel. lia.
Qed.

(** ** Move at the root *)

Lemma handle_select_sole_child (scheme : LayoutScheme.t) (area : geom.Rectangle)
    (next : option geom.Rectangle) (child : Container) (direction : Direction.t) :
  handle_select (ParentContainer scheme area next [child]) [0%nat] direction = Done None.
Proof.
  cbn. destruct (select_axis_matches direction scheme), (is_negative_direction direction);
    reflexivity.
Qed.

Lemma LayoutScheme_eqb_eq (a b : LayoutScheme.t) :
  LayoutScheme.eqb a b = true <-> a = b.
Proof. destruct a, b; cbn; split; congruence. Qed.


Lemma handle_move_at_root (t : TilingWindowTree) (index : nat)
    (direction : Direction.t) (scheme : LayoutScheme.t) (area : geom.Rectangle)
    (next : option geom.Rectangle) (sub_nodes : list Container) :
  root_lane t = ParentContainer scheme area next sub_nodes ->
  handle_select (root_lane t) [index] direction = Done None ->
  exists events,
  handle_move t [index] direction =
  Done (if LayoutScheme.eqb (from_direction direction) scheme then
          {| move_result := {| traversal := traversal_type_invalid; move_node := None |};
             moved_tree := t; moved_from := [index]; moved_events := [] |}
        else
          {| move_result :=
               {| traversal := if is_negative_direction direction
                               then traversal_type_prepend else traversal_type_append;
                  move_node := Some [] |};
             moved_tree :=
               with_root t
                 (ParentContainer (from_direction direction) (recalculated_area t) None
                    [root_lane t]);
             moved_from := [index; 0%nat];
             moved_events := events |}).
Proof.
  intros Hroot Hselect. unfold handle_move. rewrite Hselect, Hroot.
  destruct (LayoutScheme.eqb (from_direction direction) scheme); [exists []; reflexivity |].
  unfold recalculate_root_node_area, recalculated_area. cbn [zones with_root].
  rewrite <- Hroot.
  destruct (zones t) as [| extents rest]; eexists; reflexivity.
Qed.


Lemma move_container_at_root (t : TilingWindowTree) (index : nat)
    (direction : Direction.t) (scheme : LayoutScheme.t) (area : geom.Rectangle)
    (next : option geom.Rectangle) (sub_nodes : list Container) (moving : Container) :
  is_active_window_fullscreen t = false ->
  root_lane t = ParentContainer scheme area next sub_nodes ->
  sub_nodes !! index = Some moving ->
  handle_select (root_lane t) [index] direction = Done None ->
  from_direction direction <> scheme ->
  exists events,
    move_container t direction [index] =
    Done {| returned := true;
            tree_after :=
              with_root t
                (ParentContainer (from_direction direction) (recalculated_area t) None
                   (if is_negative_direction direction
                    then moving :: left_behind (root_lane t) index
                    else left_behind (root_lane t) index ++ [moving]));
            events := events |}.
Proof.
  intros Hflag Hroot Hmoving Hselect Hdiffer.
  destruct (handle_move_at_root t index direction scheme area next sub_nodes Hroot Hselect)
    as [events Hmove].
  assert (Hneq : LayoutScheme.eqb (from_direction direction) scheme = false).
  { destruct (LayoutScheme.eqb _ _) eqn:H; [| reflexivity].
    apply LayoutScheme_eqb_eq in H. contradiction. }
  rewrite Hneq in Hmove.
  unfold move_container. rewrite Hflag, Hmove. cbn [moved_tree moved_from move_result traversal
    moved_events root_lane with_root].
  assert (Hresolve : resolve (ParentContainer (from_direction direction) (recalculated_area t)
                                None [root_lane t]) [index; 0%nat] = Some moving).
  { rewrite Hroot. cbn. rewrite Hmoving. reflexivity. }
  assert (Hlt : (index < length sub_nodes)%nat) by (eapply lookup_lt_Some; exact Hmoving).
  assert (Hremove :
            fst (handle_remove (ParentContainer (from_direction direction)
                                  (recalculated_area t) None [root_lane t])
                               [index; 0%nat])
            = ParentContainer (from_direction direction) (recalculated_area t) None
                (left_behind (root_lane t) index)).
  { unfold handle_remove, left_behind, num_nodes. rewrite Hroot. cbn.
    destruct (length sub_nodes =? 1)%nat eqn:Hone; cbn; [reflexivity |].
    destruct (delete index sub_nodes) as [| sub rest] eqn:Hdel; [| reflexivity].
    apply (f_equal length) in Hdel. apply Nat.eqb_neq in Hone.
    rewrite length_delete in Hdel by (apply lookup_lt_is_Some_2; exact Hlt).
    cbn [length] in Hdel. lia. }
  destruct (is_negative_direction direction); cbn match; rewrite Hresolve;
    destruct (handle_remove _ _) as [removed to_update]; cbn [fst] in Hremove; subst removed;
    eexists; cbn [num_nodes get_sub_nodes graft_existing with_sub_nodes commit_lanes commit_lane
                  update rev alter_at commit_area take drop app];
    unfold num_nodes; cbn [get_sub_nodes];
    rewrite ?firstn_all, ?skipn_all, ?app_nil_r; reflexivity.
Qed.

Lemma sole_child_has_no_neighbors (scheme : LayoutScheme.t) (area : geom.Rectangle)
    (next : option geom.Rectangle) (child : Container) :
  get_neighbors (ParentContainer scheme area next [child]) [0%nat]
  = [false; false; false; false].
Proof. destruct scheme; reflexivity. Qed.

(** C5, as the code has it.  When [handle_select] finds no target for a
    child of the root: if the scheme of the root is [from_direction] of the
    requested direction, [handle_move] returns an invalid result and
    [move_container] returns false and leaves the tree as it is; otherwise
    the root becomes the only child of a new root lane with that scheme
    whose area is recomputed from the zones, and [move_container] takes the
    moving container out of the old root (which goes away with it when it
    was the only child) and grafts it at the end of the new root for right
    and down, at the start for left and up.  In particular, moving the only
    leaf of a root that is not horizontal to the right leaves a new
    horizontal root with that leaf as its only child, and the visible area
    of the leaf is what it was. *)
Theorem move_at_root_wraps_unless_axis_is_the_roots :
  (forall t index direction scheme area next sub_nodes moving,
      is_active_window_fullscreen t = false ->
      root_lane t = ParentContainer scheme area next sub_nodes ->
      sub_nodes !! index = Some moving ->
      handle_select (root_lane t) [index] direction = Done None ->
      (from_direction direction = scheme ->
       move_container t direction [index]
       = Done {| returned := false; tree_after := t;
                 events := [log_error "Unable to move window"] |})
      /\ (from_direction direction <> scheme ->
          (exists events,
              handle_move t [index] direction
              = Done {| move_result :=
                          {| traversal := if is_negative_direction direction
                                          then traversal_type_prepend
                                          else traversal_type_append;
                             move_node := Some [] |};
                        moved_tree :=
                          with_root t
                            (ParentContainer (from_direction direction)
                               (recalculated_area t) None [root_lane t]);
                        moved_from := [index; 0%nat];
                        moved_events := events |})
          /\ (exists events,
                 move_container t direction [index]
                 = Done {| returned := true;
                           tree_after :=
                             with_root t
                               (ParentContainer (from_direction direction)
                                  (recalculated_area t) None
                                  (if is_negative_direction direction
                                   then moving :: left_behind (root_lane t) index
                                   else left_behind (root_lane t) index ++ [moving]));
                           events := events |})))
  /\ (forall t scheme area next window leaf_area leaf_next,
         is_active_window_fullscreen t = false ->
         root_lane t
         = ParentContainer scheme area next [LeafContainer window leaf_area leaf_next] ->
         scheme <> LayoutScheme.horizontal ->
         exists events new_root,
           new_root = ParentContainer LayoutScheme.horizontal (recalculated_area t) None
                        [LeafContainer window leaf_area leaf_next]
           /\ move_container t Direction.right [0%nat]
              = Done {| returned := true; tree_after := with_root t new_root;
                        events := events |}
           /\ get_visible_area (config t) new_root [0%nat]
              = get_visible_area (config t) (root_lane t) [0%nat]).
Proof.
  split.
  - intros t index direction scheme area next sub_nodes moving Hflag Hroot Hmoving Hselect.
    split.
    + intros Hsame.
      destruct (handle_move_at_root t index direction scheme area next sub_nodes Hroot Hselect)
        as [events Hmove].
      rewrite (proj2 (LayoutScheme_eqb_eq _ _) Hsame) in Hmove.
      unfold move_container. rewrite Hflag, Hmove. reflexivity.
    + intros Hdiffer. split.
      * destruct (handle_move_at_root t index direction scheme area next sub_nodes Hroot
                    Hselect) as [events Hmove].
        destruct (LayoutScheme.eqb (from_direction direction) scheme) eqn:Heq;
          [apply LayoutScheme_eqb_eq in Heq; contradiction |].
        exists events. exact Hmove.
      * apply (move_container_at_root t index direction scheme area next sub_nodes moving);
          assumption.
  - intros t scheme area next window leaf_area leaf_next Hflag Hroot Hscheme.
    destruct (move_container_at_root t 0%nat Direction.right scheme area next
                [LeafContainer window leaf_area leaf_next]
                (LeafContainer window leaf_area leaf_next) Hflag Hroot eq_refl)
      as [events Hmove].
    + rewrite Hroot. apply handle_select_sole_child.
    + cbn. congruence.
    + exists events, (ParentContainer LayoutScheme.horizontal (recalculated_area t) None
                        [LeafContainer window leaf_area leaf_next]).
      split; [reflexivity |]. split.
      * rewrite Hmove. unfold left_behind. rewrite Hroot. reflexivity.
      * rewrite Hroot. unfold get_visible_area.
        rewrite !sole_child_has_no_neighbors. reflexivity.
Qed.

(** C5 does not hold as stated: in a horizontal root, moving the only leaf
    to the right wraps nothing and grafts nothing. *)
Lemma move_right_in_horizontal_root_is_refused :
  let t := sample_tree (single_leaf_root LayoutScheme.horizontal) false in
  handle_select (root_lane t) [0%nat] Direction.right = Done None
  /\ handle_move t [0%nat] Direction.right
     = Done {| move_result := {| traversal := traversal_type_invalid; move_node := None |};
               moved_tree := t; moved_from := [0%nat]; moved_events := [] |}
  /\ move_container t Direction.right [0%nat]
     = Done {| returned := false; tree_after := t;
               events := [log_error "Unable to move window"] |}
  /\ ~ (exists o area next,
           move_container t Direction.right [0%nat] = Done o
           /\ returned o = true
           /\ root_lane (tree_after o)
              = ParentContainer LayoutScheme.horizontal area next
                  [LeafContainer 1 (rect 0 0 1000 600) None]).
Proof.
  cbv zeta. repeat split; try reflexivity.
  intros (o & area & next & Hmove & Hreturned & _).
  vm_compute in Hmove. injection Hmove as <-. discriminate.
Qed.

(** ** The fullscreen guard *)

(** C6.  While the fullscreen flag of the tree is set, [resize_container],
    [select_next] and [move_container] return false and
    [handle_layout_scheme] returns; none of them changes the tree, each logs
    one warning, and each returns normally. *)
Theorem fullscreen_refuses_structural_operations
    (lane_min_width lane_min_height : Container -> Z) (t : TilingWindowTree)
    (direction : Direction.t) (scheme : LayoutScheme.t) (container : ContainerRef) :
  is_active_window_fullscreen t = true ->
  resize_container lane_min_width lane_min_height t direction container
  = {| returned := false; tree_after := t;
       events := [log_warning "Unable to resize the next window: fullscreened"] |}
  /\ select_next t direction container
     = Done {| returned := false; tree_after := t;
               events := [log_warning "Unable to select the next window: fullscreened"] |}
  /\ move_container t direction container
     = Done {| returned := false; tree_after := t;
               events := [log_warning "Unable to move active window: fullscreen"] |}
  /\ handle_layout_scheme t scheme container
     = (t, [log_warning "Unable to handle direction request: fullscreen"]).
Proof.
  intros Hflag.
  unfold resize_container, select_next, move_container, handle_layout_scheme.
  rewrite Hflag. repeat split.
Qed.

(** ** Selecting by position *)

(** C10.  While the fullscreen flag is set, [select_window_from_point]
    returns the active container cast to a leaf, whatever the coordinates;
    when the flag is clear it returns what the search of the root for a leaf
    whose logical area contains the point finds. *)
Theorem select_window_from_point_fullscreen
    (find_where : Container -> (Container -> bool) -> option ContainerRef)
    (t : TilingWindowTree) (state : CompositorState) (x y : Z) :
  (is_active_window_fullscreen t = true ->
   select_window_from_point find_where t state x y = active_container t state
   /\ forall x' y',
       select_window_from_point find_where t state x' y'
       = select_window_from_point find_where t state x y)
  /\ (is_active_window_fullscreen t = false ->
      select_window_from_point find_where t state x y
      = as_leaf (root_lane t)
          (option_map in_tree
             (find_where (root_lane t)
                (fun node =>
                   is_leaf node
                   && geom.contains (get_logical_area node)
                        {| geom.x := x; geom.y := y |})))).
Proof.
  unfold select_window_from_point. split; intros ->; [split |]; reflexivity.
Qed.

(** ** Resize: what holds in general *)

Lemma extent_with_extent (is_vertical : bool) (r : geom.Rectangle) (v : Z) :
  extent is_vertical (with_extent is_vertical r v) = v.
Proof. destruct is_vertical; reflexivity. Qed.

Lemma sum_extents_cons (is_vertical : bool) (r : geom.Rectangle)
    (rects : list geom.Rectangle) :
  sum_extents is_vertical (r :: rects)
  = extent is_vertical r + sum_extents is_vertical rects.
Proof. reflexivity. Qed.

Lemma sum_extents_app (is_vertical : bool) (a b : list geom.Rectangle) :
  sum_extents is_vertical (a ++ b) = sum_extents is_vertical a + sum_extents is_vertical b.
Proof.
  induction a as [| r a IH]; cbn [app]; [reflexivity |].
  rewrite !sum_extents_cons, IH. lia.
Qed.

Lemma stage_resizes_total (lane_min_width lane_min_height : Container -> Z)
    (is_vertical : bool) (target : nat) (resize_amount for_others : Z)
    (nodes : list Container) :
  forall i pending total pending' total',
    stage_resizes lane_min_width lane_min_height is_vertical target resize_amount
      for_others nodes i pending total = Some (pending', total') ->
    total' - sum_extents is_vertical pending' = total - sum_extents is_vertical pending
    /\ length pending' = (length pending + length nodes)%nat.
Proof.
  induction nodes as [| node rest IH]; intros i pending total pending' total';
    cbn [stage_resizes].
  - intros [= <- <-]. cbn [length]. split; lia.
  - destruct (at_or_below_min _ _ _ _ _); [discriminate |].
    intros H. apply IH in H as [Hsum Hlen].
    rewrite sum_extents_app, sum_extents_cons in Hsum.
    change (sum_extents is_vertical []) with 0 in Hsum.
    rewrite length_app in Hlen. cbn [length] in *. split; lia.
Qed.

Lemma extend_back_sum (is_vertical : bool) (pending : list geom.Rectangle)
    (leftover : Z) :
  pending <> [] ->
  sum_extents is_vertical (extend_back is_vertical pending leftover)
  = sum_extents is_vertical pending + leftover
  /\ length (extend_back is_vertical pending leftover) = length pending.
Proof.
  intros Hne. unfold extend_back. split; [| apply length_alter].
  destruct pending as [| r pending] using rev_ind; [congruence |]. clear IHpending.
  rewrite length_app. cbn [length].
  replace (length pending + 1 - 1)%nat with (length pending + 0)%nat by lia.
  rewrite alter_app_r. cbn [alter list_alter].
  rewrite !sum_extents_app, !sum_extents_cons, extent_with_extent.
  change (sum_extents is_vertical []) with 0. lia.
Qed.

(** Whenever the staging goes through, the staged extents add up to the
    extent of the lane: the last sibling takes up the remainder. *)
Lemma pending_resizes_sum (lane_min_width lane_min_height : Container -> Z)
    (is_vertical : bool) (lane : Container) (target : nat) (resize_amount : Z)
    (pending : list geom.Rectangle) :
  get_sub_nodes lane <> [] ->
  pending_resizes lane_min_width lane_min_height is_vertical lane target resize_amount
  = Some pending ->
  sum_extents is_vertical pending = extent is_vertical (get_logical_area lane)
  /\ length pending = length (get_sub_nodes lane).
Proof.
  intros Hne. unfold pending_resizes.
  destruct (stage_resizes _ _ _ _ _ _ _ _ _ _) as [[staged total] |] eqn:Hstage;
    [| discriminate].
  intros [= <-]. apply stage_resizes_total in Hstage as [Hsum Hlen].
  change (sum_extents is_vertical []) with 0 in Hsum. cbn [length] in Hlen.
  destruct (extend_back_sum is_vertical staged
              (extent is_vertical (get_logical_area lane) - total)) as [Hext Hlen'].
  - intros ->. cbn [length] in Hlen. destruct (get_sub_nodes lane); [congruence | discriminate].
  - rewrite Hext, Hlen'. split; lia.
Qed.

(** When the staging returns early, [handle_resize] changes nothing and
    commits nothing. *)
Lemma handle_resize_abort (lane_min_width lane_min_height : Container -> Z)
    (root : Container) (index : nat) (parent : ContainerRef) (direction : Direction.t)
    (amount : Z) (scheme : LayoutScheme.t) (area : geom.Rectangle)
    (next : option geom.Rectangle) (nodes : list Container) :
  resolve root parent = Some (ParentContainer scheme area next nodes) ->
  is_main_axis_movement direction scheme = true ->
  length nodes <> 1%nat ->
  pending_resizes lane_min_width lane_min_height (is_vertical_direction direction)
    (ParentContainer scheme area next nodes) index
    (if is_negative_direction direction then - amount else amount) = None ->
  handle_resize lane_min_width lane_min_height root (index :: parent) direction amount
  = (root, [log_warning resize_warning]).
Proof.
  intros Hlane Hmain Hlen Hpending. cbn [handle_resize].
  rewrite Hlane, Hmain. cbn [andb negb].
  destruct (Nat.eqb_spec (length nodes) 1); [contradiction |].
  rewrite Hpending. reflexivity.
Qed.

(** A candidate that is not negative is tested against the minimum as
    intended. *)
Lemma at_or_below_min_nonnegative (lane_min_width lane_min_height : Container -> Z)
    (is_vertical : bool) (other_rect : geom.Rectangle) (other_node : Container) :
  0 <= extent is_vertical other_rect < 2 ^ 64 ->
  at_or_below_min lane_min_width lane_min_height is_vertical other_rect other_node = true
  <-> extent is_vertical other_rect
      <= get_min lane_min_width lane_min_height is_vertical other_node.
Proof.
  intros Hrange. unfold at_or_below_min, to_size_t.
  rewrite Z.mod_small by exact Hrange. apply Z.leb_le.
Qed.

Lemma pending_resizes_length (lane_min_width lane_min_height : Container -> Z)
    (is_vertical : bool) (lane : Container) (target : nat) (resize_amount : Z)
    (pending : list geom.Rectangle) :
  pending_resizes lane_min_width lane_min_height is_vertical lane target resize_amount
  = Some pending ->
  length pending = length (get_sub_nodes lane).
Proof.
  unfold pending_resizes.
  destruct (stage_resizes _ _ _ _ _ _ _ _ _ _) as [[staged total] |] eqn:Hstage;
    [| discriminate].
  intros [= <-]. apply stage_resizes_total in Hstage as [_ Hlen].
  unfold extend_back. rewrite length_alter. exact Hlen.
Qed.

(** Either nothing happens or everything does: [handle_resize] on a child
    of a lane along its main axis leaves the tree as it is and logs the
    warning, or applies a staged rectangle to every sibling and commits
    every sibling. *)
Lemma handle_resize_all_or_nothing (lane_min_width lane_min_height : Container -> Z)
    (root : Container) (index : nat) (parent : ContainerRef) (direction : Direction.t)
    (amount : Z) (scheme : LayoutScheme.t) (area : geom.Rectangle)
    (next : option geom.Rectangle) (nodes : list Container) :
  resolve root parent = Some (ParentContainer scheme area next nodes) ->
  is_main_axis_movement direction scheme = true ->
  length nodes <> 1%nat ->
  handle_resize lane_min_width lane_min_height root (index :: parent) direction amount
  = (root, [log_warning resize_warning])
  \/ exists pending,
      length pending = length nodes
      /\ handle_resize lane_min_width lane_min_height root (index :: parent) direction amount
         = (update (apply_resizes pending) root parent,
            map (fun i => commit_changes (i :: parent)) (seq 0 (length nodes))).
Proof.
  intros Hlane Hmain Hlen. cbn [handle_resize].
  rewrite Hlane, Hmain. cbn [andb negb].
  destruct (Nat.eqb_spec (length nodes) 1); [contradiction |].
  destruct (pending_resizes _ _ _ _ _ _) as [pending |] eqn:Hpending;
    [right | left; reflexivity].
  exists pending. split; [| reflexivity].
  apply pending_resizes_length in Hpending. exact Hpending.
Qed.

(** The staged rectangles become the logical areas of the siblings. *)
Lemma apply_resizes_areas (scheme : LayoutScheme.t) (area : geom.Rectangle)
    (next : option geom.Rectangle) (nodes : list Container)
    (pending : list geom.Rectangle) :
  length pending = length nodes ->
  map get_logical_area
      (get_sub_nodes (apply_resizes pending (ParentContainer scheme area next nodes)))
  = pending.
Proof.
  cbn [apply_resizes get_sub_nodes]. revert pending.
  induction nodes as [| node nodes IH]; intros [| r pending] Hlen; try discriminate;
    [reflexivity |].
  cbn [zip_with map]. f_equal.
  - destruct node; reflexivity.
  - apply IH. cbn [length] in Hlen. lia.
Qed.

(** *** Where the minimum is respected *)

Lemma extent_with_origin (is_vertical : bool) (r : geom.Rectangle) (v : Z) :
  extent is_vertical (with_origin is_vertical r v) = extent is_vertical r.
Proof. destruct is_vertical; reflexivity. Qed.

Lemma candidate_rect_extent (is_vertical : bool) (target : nat)
    (resize_amount for_others : Z) (i : nat) (other_node : Container)
    (pending : list geom.Rectangle) :
  extent is_vertical
    (candidate_rect is_vertical target resize_amount for_others i other_node pending)
  = extent is_vertical (get_logical_area other_node)
    + staged_change target resize_amount for_others i.
Proof.
  unfold candidate_rect, staged_change.
  destruct (i =? target)%nat, i as [| j]; try destruct (pending !! j);
    rewrite ?extent_with_origin, extent_with_extent; reflexivity.
Qed.

Lemma sum_staged_changes_value (target : nat) (resize_amount for_others : Z)
    (count : nat) :
  forall i,
    sum_staged_changes target resize_amount for_others i count
    = if bool_decide (i <= target < i + count)%nat
      then resize_amount + (Z.of_nat count - 1) * for_others
      else Z.of_nat count * for_others.
Proof.
  induction count as [| count IH]; intros i; cbn [sum_staged_changes].
  - rewrite bool_decide_eq_false_2 by lia. lia.
  - rewrite IH. unfold staged_change.
    destruct (Nat.eqb_spec i target) as [-> | Hne].
    + rewrite bool_decide_eq_false_2 by lia. rewrite bool_decide_eq_true_2 by lia. lia.
    + destruct (decide (S i <= target < S i + count)%nat).
      * rewrite !bool_decide_eq_true_2 by lia. lia.
      * rewrite !bool_decide_eq_false_2 by lia. lia.
Qed.

(** The staging loop, sibling by sibling: each staged rectangle has the old
    extent plus the staged change, and passed the test. *)
Lemma stage_resizes_each (lane_min_width lane_min_height : Container -> Z)
    (is_vertical : bool) (target : nat) (resize_amount for_others : Z)
    (nodes : list Container) :
  forall i pending total pending' total',
    stage_resizes lane_min_width lane_min_height is_vertical target resize_amount
      for_others nodes i pending total = Some (pending', total') ->
    length pending = i ->
    take i pending' = pending
    /\ total' = total + sum_extents is_vertical (map get_logical_area nodes)
                + sum_staged_changes target resize_amount for_others i (length nodes)
    /\ forall k node,
        nodes !! k = Some node ->
        exists staged,
          pending' !! (i + k)%nat = Some staged
          /\ extent is_vertical staged
             = extent is_vertical (get_logical_area node)
               + staged_change target resize_amount for_others (i + k)
          /\ at_or_below_min lane_min_width lane_min_height is_vertical staged node = false.
Proof.
  induction nodes as [| node rest IH]; intros i pending total pending' total';
    cbn [stage_resizes].
  - intros [= <- <-] <-. rewrite firstn_all. cbn. split; [reflexivity |].
    split; [lia |]. intros k node Hk. rewrite lookup_nil in Hk. discriminate.
  - set (other_rect := candidate_rect is_vertical target resize_amount for_others i node
                         pending).
    destruct (at_or_below_min _ _ _ other_rect node) eqn:Htest; [discriminate |].
    intros Hstage Hlen.
    apply IH in Hstage as (Htake & Htotal & Heach);
      [| rewrite length_app; cbn [length]; lia].
    assert (Hprefix : take i pending' = pending).
    { apply (f_equal (take i)) in Htake. rewrite take_take in Htake.
      replace (i `min` S i)%nat with i in Htake by lia.
      rewrite Htake, take_app_length'; [reflexivity | symmetry; exact Hlen]. }
    assert (Hhere : pending' !! i = Some other_rect).
    { apply (f_equal (fun l => l !! i)) in Htake.
      rewrite lookup_take_lt in Htake by lia.
      rewrite Htake, lookup_app_r by lia.
      rewrite Hlen, Nat.sub_diag. reflexivity. }
    split; [exact Hprefix |]. split.
    + rewrite Htotal. cbn [map length sum_staged_changes]. rewrite sum_extents_cons.
      unfold other_rect. rewrite candidate_rect_extent. lia.
    + intros [| k] node' Hk.
      * injection Hk as <-. exists other_rect. rewrite Nat.add_0_r.
        split; [exact Hhere |]. split; [| exact Htest].
        apply candidate_rect_extent.
      * destruct (Heach k node' Hk) as (staged & Hstaged & Hextent & Hpass).
        exists staged. replace (i + S k)%nat with (S i + k)%nat by lia. auto.
Qed.

(** When the extents of the siblings add up to the extent of the lane
    before the resize, and no candidate is negative, every sibling ends up
    strictly above its minimum. *)
Lemma pending_resizes_above_minimum (lane_min_width lane_min_height : Container -> Z)
    (is_vertical : bool) (lane : Container) (target : nat) (resize_amount : Z)
    (pending : list geom.Rectangle) :
  let nodes := get_sub_nodes lane in
  let for_others := (- resize_amount) / (Z.of_nat (length nodes) - 1) in
  (2 <= length nodes)%nat ->
  (target < length nodes)%nat ->
  sum_extents is_vertical (map get_logical_area nodes)
  = extent is_vertical (get_logical_area lane) ->
  (forall k node,
      nodes !! k = Some node ->
      0 <= extent is_vertical (get_logical_area node)
           + staged_change target resize_amount for_others k < 2 ^ 64) ->
  pending_resizes lane_min_width lane_min_height is_vertical lane target resize_amount
  = Some pending ->
  forall k node staged,
    nodes !! k = Some node ->
    pending !! k = Some staged ->
    get_min lane_min_width lane_min_height is_vertical node < extent is_vertical staged.
Proof.
  intros nodes for_others Hmany Htarget Hsum Hrange. unfold pending_resizes.
  fold nodes. fold for_others.
  destruct (stage_resizes _ _ _ _ _ _ _ _ _ _) as [[staged_all total] |] eqn:Hstage;
    [| discriminate].
  intros [= <-] k node staged Hnode Hstaged.
  apply stage_resizes_each in Hstage as (_ & Htotal & Heach); [| reflexivity].
  destruct (Heach k node Hnode) as (candidate & Hcandidate & Hextent & Hpass).
  cbn [plus] in Hcandidate, Hextent.
  assert (Habove : get_min lane_min_width lane_min_height is_vertical node
                   < extent is_vertical candidate).
  { unfold at_or_below_min, to_size_t in Hpass. apply Z.leb_gt in Hpass.
    rewrite Z.mod_small in Hpass; [exact Hpass |].
    rewrite Hextent. apply (Hrange k node Hnode). }
  assert (Hleftover : 0 <= extent is_vertical (get_logical_area lane) - total).
  { rewrite Htotal, Hsum, sum_staged_changes_value.
    rewrite bool_decide_eq_true_2 by lia.
    assert (Hdiv : (Z.of_nat (length nodes) - 1) * for_others <= - resize_amount)
      by (apply Z.mul_div_le; lia).
    lia. }
  unfold extend_back in Hstaged.
  destruct (decide (k = length staged_all - 1)%nat) as [-> | Hother].
  - rewrite list_lookup_alter_eq, Hcandidate in Hstaged. injection Hstaged as <-.
    rewrite extent_with_extent. lia.
  - rewrite list_lookup_alter_ne in Hstaged by congruence.
    rewrite Hcandidate in Hstaged. injection Hstaged as <-. exact Habove.
Qed.

(** ** Resize below the minimum *)

(** C1, at a failing input.  In a horizontal lane 1000 wide with leaves 40
    and 960 wide, widening the second leaf by 50 stages the width -10 for
    the first.  -10 is below the minimum of 50, yet the test that compares
    it with the [size_t] minimum lets it pass, the staged rectangles are
    applied and both siblings are committed. *)
Theorem handle_resize_applies_width_below_minimum
    (lane_min_width lane_min_height : Container -> Z) :
  let first := LeafContainer 1 (rect 0 0 40 600) None in
  let staged := geom.with_width (get_logical_area first) (40 + - 50) in
  geom.width (geom.size staged) <= get_min_width lane_min_width first
  /\ at_or_below_min lane_min_width lane_min_height false staged first = false
  /\ handle_resize lane_min_width lane_min_height narrow_tree [1%nat] Direction.right 50
     = (ParentContainer LayoutScheme.horizontal (rect 0 0 1000 600) None
          [ LeafContainer 1 (rect 0 0 (-10) 600) None;
            LeafContainer 2 (rect (-10) 0 1010 600) None ],
        [commit_changes [0%nat]; commit_changes [1%nat]]).
Proof.
  cbv zeta. split; [cbn; lia |]. split; reflexivity.
Qed.

(** C2, at a failing input.  After the resize of [narrow_tree] that widens
    its second leaf by 50 the widths of the siblings add up to the width of
    the lane, but the first sibling is -10 wide, below its minimum. *)
Theorem handle_resize_leaves_sibling_below_minimum
    (lane_min_width lane_min_height : Container -> Z) :
  let after :=
    fst (handle_resize lane_min_width lane_min_height narrow_tree [1%nat]
           Direction.right 50) in
  map (fun c => geom.width (geom.size (get_logical_area c))) (get_sub_nodes after)
  = [-10; 1010]
  /\ -10 + 1010 = geom.width (geom.size (get_logical_area after))
  /\ exists sibling,
      get_sub_nodes after !! 0%nat = Some sibling
      /\ geom.width (geom.size (get_logical_area sibling))
         <= get_min_width lane_min_width sibling.
Proof.
  cbv zeta. split; [reflexivity |]. split; [reflexivity |].
  exists (LeafContainer 1 (rect 0 0 (-10) 600) None).
  split; [reflexivity |]. cbn. lia.
Qed.

(** ** A gap against the edge of the screen *)

(** For the left and the top side, [get_neighbors] agrees with the
    specification at every level of the tree. *)
Lemma has_neighbor_negative_side (root : Container) (side : Direction.t)
    (container : ContainerRef) :
  is_negative_direction side = true ->
  Forall (fun index => Z.of_nat index < 2 ^ 64) container ->
  has_neighbor root container (from_direction side) 0
  = has_same_axis_neighbor root container side.
Proof.
  intros Hside Hbound.
  induction container as [| index parent IH]; [reflexivity |].
  inversion Hbound as [| ? ? Hindex Hparent]; subst.
  cbn [has_neighbor has_same_axis_neighbor]. rewrite Hside, (IH Hparent).
  destruct (resolve root parent) as [[w a n | scheme a n subs] |]; try reflexivity.
  destruct (LayoutScheme.eqb scheme (from_direction side)); cbn [negb andb]; [| reflexivity].
  unfold to_size_t. rewrite Z.mod_small by lia.
  destruct index as [| index]; [reflexivity |].
  replace (Z.of_nat (S index) =? 0) with false by (symmetry; apply Z.eqb_neq; lia).
  reflexivity.
Qed.

(** C9, at a failing input.  The first leaf of the vertical lane of
    [column_tree] has nothing to its right: the lane is the last child of
    the horizontal root.  [get_neighbors] reports a right neighbour all the
    same, because it compares the position of the lane in the root with the
    number of children of the lane, and the visible area loses half a gap
    on the right edge. *)
Theorem get_visible_area_gap_without_neighbor :
  has_same_axis_neighbor column_tree [0%nat; 1%nat] Direction.right = false
  /\ neighbor_at (get_neighbors column_tree [0%nat; 1%nat]) Direction.right = true
  /\ get_visible_area sample_config column_tree [0%nat; 1%nat]
     = Some (rect 507 2 486 191)
  /\ shrunk_area sample_config column_tree [0%nat; 1%nat] (rect 500 0 500 200)
     = rect 507 2 491 191.
Proof. repeat split. Qed.

(** ** The theorems at work on the sample trees *)

Lemma handle_select_climbs_to_first_match_witness :
  is_Some (resolve column_tree [2%nat; 1%nat])
  /\ handle_select column_tree [2%nat; 1%nat] Direction.left
     = descend column_tree [] 0%nat Direction.left.
Proof.
  assert (Hvalid : is_Some (resolve column_tree [2%nat; 1%nat]))
    by (eexists; reflexivity).
  split; [exact Hvalid |].
  apply (proj1 (handle_select_climbs_to_first_match column_tree [2%nat; 1%nat]
                  Direction.left Hvalid) [2%nat] 1%nat [] 0%nat).
  - reflexivity.
  - reflexivity.
  - intros lower index' parent' upper Hbelow ->.
    destruct lower as [| a [| b lower]]; try discriminate.
    injection Hbelow as <- <-. reflexivity.
Defined.

Lemma get_closest_prefers_last_child_witness :
  let lane :=
    [ LeafContainer 2 (rect 500 0 500 200) None;
      LeafContainer 3 (rect 500 200 500 200) None;
      LeafContainer 4 (rect 500 400 500 200) None ] in
  is_negative_direction Direction.up = true
  /\ descent_axis_matches Direction.up LayoutScheme.vertical = true
  /\ lane <> []
  /\ forallb no_empty_lanes lane = true
  /\ get_closest_window_to_select_from_node
       (ParentContainer LayoutScheme.vertical (rect 500 0 500 600) None lane) Direction.up
     = Done (Some [2%nat]).
Proof.
  cbv zeta.
  set (lane := [ LeafContainer 2 (rect 500 0 500 200) None;
                 LeafContainer 3 (rect 500 200 500 200) None;
                 LeafContainer 4 (rect 500 400 500 200) None ]).
  assert (Hne : lane <> []) by discriminate.
  repeat (split; [first [reflexivity | exact Hne] |]).
  destruct (proj1 (proj2 get_closest_prefers_last_child) LayoutScheme.vertical
              (rect 500 0 500 600) None lane Direction.up eq_refl eq_refl Hne)
    as [_ Hlast].
  destruct (Hlast eq_refl) as (last_child & leaf & Hchild & Hleaf & ->).
  injection Hchild as <-. injection Hleaf as <-. reflexivity.
Defined.

Lemma handle_select_round_trip_witness :
  handle_select column_tree [0%nat; 1%nat] Direction.down = Done (Some [1%nat; 1%nat])
  /\ handle_select column_tree [1%nat; 1%nat] Direction.up = Done (Some [0%nat; 1%nat]).
Proof.
  split; [reflexivity |].
  apply (handle_select_round_trip column_tree [1%nat] 0%nat 1%nat Direction.down
           LayoutScheme.vertical (rect 500 0 500 600) None
           [ LeafContainer 2 (rect 500 0 500 200) None;
             LeafContainer 3 (rect 500 200 500 200) None;
             LeafContainer 4 (rect 500 400 500 200) None ]).
  - reflexivity.
  - reflexivity.
  - eexists. split; reflexivity.
  - eexists. split; reflexivity.
  - reflexivity.
Defined.

Lemma handle_remove_leaves_no_empty_lane_witness :
  internal_lanes_nonempty chain_tree = true
  /\ internal_lanes_nonempty
       (handle_remove_all chain_tree [[0%nat; 0%nat; 0%nat]; [0%nat]]) = true
  /\ leaves (fst (handle_remove chain_tree [0%nat; 0%nat; 0%nat])) = [2%nat].
Proof.
  split; [reflexivity |]. split.
  - apply (proj2 (proj2 handle_remove_leaves_no_empty_lane) chain_tree). reflexivity.
  - destruct (proj1 handle_remove_leaves_no_empty_lane chain_tree 0%nat [0%nat; 0%nat]
                (LeafContainer 1 (rect 0 0 500 600) None) eq_refl)
      as (before & after & Hleaves & Hafter).
    rewrite Hafter. cbn in Hleaves.
    destruct before as [| w before].
    + injection Hleaves as <-. reflexivity.
    + injection Hleaves as _ Hrest.
      destruct before as [| w' before]; [discriminate |].
      destruct before; discriminate.
Defined.

Lemma move_at_root_wraps_witness :
  let t := sample_tree (single_leaf_root LayoutScheme.vertical) false in
  is_active_window_fullscreen t = false
  /\ LayoutScheme.vertical <> LayoutScheme.horizontal
  /\ exists events,
      move_container t Direction.right [0%nat]
      = Done {| returned := true;
                tree_after := sample_tree (single_leaf_root LayoutScheme.horizontal) false;
                events := events |}
      /\ get_visible_area sample_config (single_leaf_root LayoutScheme.horizontal) [0%nat]
         = get_visible_area sample_config (single_leaf_root LayoutScheme.vertical) [0%nat].
Proof.
  cbv zeta.
  assert (Hscheme : LayoutScheme.vertical <> LayoutScheme.horizontal) by discriminate.
  split; [reflexivity |]. split; [exact Hscheme |].
  destruct (proj2 move_at_root_wraps_unless_axis_is_the_roots
              (sample_tree (single_leaf_root LayoutScheme.vertical) false)
              LayoutScheme.vertical (rect 0 0 1000 600) None 1%nat (rect 0 0 1000 600) None
              eq_refl eq_refl Hscheme)
    as (events & new_root & -> & Hmove & Hvisible).
  exists events. split; [exact Hmove | exact Hvisible].
Defined.

Lemma fullscreen_refuses_structural_operations_witness :
  let t := sample_tree column_tree true in
  is_active_window_fullscreen t = true
  /\ returned (resize_container (fun _ => 0) (fun _ => 0) t Direction.left [0%nat]) = false
  /\ move_container t Direction.left [0%nat; 1%nat]
     = Done {| returned := false; tree_after := t;
               events := [log_warning "Unable to move active window: fullscreen"] |}.
Proof.
  cbv zeta. split; [reflexivity |].
  destruct (fullscreen_refuses_structural_operations (fun _ => 0) (fun _ => 0)
              (sample_tree column_tree true) Direction.left LayoutScheme.vertical
              [0%nat] eq_refl) as (Hresize & _ & _ & _).
  destruct (fullscreen_refuses_structural_operations (fun _ => 0) (fun _ => 0)
              (sample_tree column_tree true) Direction.left LayoutScheme.vertical
              [0%nat; 1%nat] eq_refl) as (_ & _ & Hmove & _).
  split; [rewrite Hresize; reflexivity | exact Hmove].
Defined.

(** The active leaf is the wide one; the point lies in the narrow one. *)
Lemma select_window_from_point_fullscreen_witness :
  let t := sample_tree narrow_tree true in
  let state := {| active := Some (in_tree [1%nat]) |} in
  is_active_window_fullscreen t = true
  /\ find_where_preorder narrow_tree
       (fun node => is_leaf node
                    && geom.contains (get_logical_area node) {| geom.x := 10; geom.y := 10 |})
     = Some [0%nat]
  /\ select_window_from_point find_where_preorder t state 10 10 = Some (in_tree [1%nat])
  /\ select_window_from_point find_where_preorder t state 5000 5000 = Some (in_tree [1%nat]).
Proof.
  cbv zeta. split; [reflexivity |]. split; [reflexivity |].
  destruct (proj1 (select_window_from_point_fullscreen find_where_preorder
                     (sample_tree narrow_tree true)
                     {| active := Some (in_tree [1%nat]) |} 10 10) eq_refl)
    as [Hactive Hany].
  split; [rewrite Hactive; reflexivity | rewrite Hany, Hactive; reflexivity].
Defined.

(** * Further properties of the tree code *)

(** ** Structure *)

Lemma erase_geometry_sub_nodes (c : Container) :
  get_sub_nodes (erase_geometry c) = map erase_geometry (get_sub_nodes c).
Proof. destruct c; reflexivity. Qed.

Lemma container_at_erase_geometry (path : list nat) :
  forall c,
    container_at (erase_geometry c) path = erase_geometry <$> container_at c path.
Proof.
  induction path as [| i path IH]; intros c; cbn [container_at]; [reflexivity |].
  rewrite erase_geometry_sub_nodes, list_lookup_fmap.
  destruct (get_sub_nodes c !! i) as [child |]; cbn; [apply IH | reflexivity].
Qed.

Lemma map_alter_same {A B} (g : A -> B) (f : A -> A) (l : list A) (i : nat) :
  (forall x, l !! i = Some x -> g (f x) = g x) ->
  map g (alter f i l) = map g l.
Proof.
  revert i. induction l as [| y l IH]; intros [| i] H; cbn; try reflexivity.
  - f_equal. apply H. reflexivity.
  - f_equal. apply IH. exact H.
Qed.

(** A change of the container at the end of a path that keeps its
    structure keeps the structure of the whole tree. *)
Lemma erase_geometry_alter_at (f : Container -> Container) (path : list nat) :
  forall c,
    (forall x, container_at c path = Some x -> erase_geometry (f x) = erase_geometry x) ->
    erase_geometry (alter_at f c path) = erase_geometry c.
Proof.
  induction path as [| i path IH]; intros c Hf; cbn [alter_at]; [apply Hf; reflexivity |].
  destruct c as [w a n | s a n subs]; [reflexivity |].
  cbn [erase_geometry]. f_equal. apply map_alter_same.
  intros child Hchild. apply IH. intros x Hx. apply Hf.
  cbn [container_at get_sub_nodes]. rewrite Hchild. exact Hx.
Qed.

Lemma erase_geometry_set_logical_area (r : geom.Rectangle) (c : Container) :
  erase_geometry (set_logical_area r c) = erase_geometry c.
Proof. destruct c; reflexivity. Qed.

Lemma erase_geometry_commit_area (c : Container) :
  erase_geometry (commit_area c) = erase_geometry c.
Proof. destruct c as [w a [r |] | s a [r |] subs]; reflexivity. Qed.

Lemma erase_geometry_apply_resizes (pending : list geom.Rectangle) (lane : Container) :
  length pending = length (get_sub_nodes lane) ->
  erase_geometry (apply_resizes pending lane) = erase_geometry lane.
Proof.
  destruct lane as [w a n | s a n nodes]; [reflexivity |].
  cbn [apply_resizes get_sub_nodes erase_geometry]. intros Hlen. f_equal.
  revert pending Hlen. induction nodes as [| node nodes IH]; intros [| r pending] Hlen;
    try discriminate; [reflexivity |].
  cbn [zip_with map]. f_equal.
  - rewrite erase_geometry_commit_area. apply erase_geometry_set_logical_area.
  - apply IH. cbn [length] in Hlen. lia.
Qed.

Lemma handle_resize_same_structure
    (lane_min_width lane_min_height : Container -> Z) (root : Container)
    (node : ContainerRef) (direction : Direction.t) (amount : Z) :
  erase_geometry (fst (handle_resize lane_min_width lane_min_height root node
                         direction amount))
  = erase_geometry root.
Proof.
  induction node as [| index parent IH]; [reflexivity |].
  cbn [handle_resize].
  destruct (resolve root parent) as [[w a n | scheme a n nodes] |] eqn:Hlane;
    try reflexivity.
  destruct (is_main_axis_movement direction scheme && (length nodes =? 1)%nat);
    [reflexivity |].
  destruct (negb (is_main_axis_movement direction scheme)); [exact IH |].
  destruct (pending_resizes _ _ _ _ _ _) as [pending |] eqn:Hpending; [| reflexivity].
  cbn [fst]. unfold update. apply erase_geometry_alter_at.
  intros x Hx. unfold resolve in Hlane. rewrite Hlane in Hx. injection Hx as <-.
  apply erase_geometry_apply_resizes.
  apply pending_resizes_length in Hpending. exact Hpending.
Qed.

(** X1.  [handle_resize] changes geometry only: whatever the container, the
    direction and the amount, the tree it leaves has the same shape, the
    same schemes and the same windows in the same order. *)
Theorem handle_resize_keeps_structure
    (lane_min_width lane_min_height : Container -> Z) (root : Container)
    (node : ContainerRef) (direction : Direction.t) (amount : Z) :
  erase_geometry (fst (handle_resize lane_min_width lane_min_height root node
                         direction amount))
  = erase_geometry root.
Proof. apply handle_resize_same_structure. Qed.

(** ** Resize: the tree after a resize *)

Lemma origin_with_extent (is_vertical : bool) (r : geom.Rectangle) (v : Z) :
  origin is_vertical (with_extent is_vertical r v) = origin is_vertical r.
Proof. destruct is_vertical; reflexivity. Qed.

Lemma origin_with_origin (is_vertical : bool) (r : geom.Rectangle) (v : Z) :
  origin is_vertical (with_origin is_vertical r v) = v.
Proof. destruct is_vertical; reflexivity. Qed.

Lemma cross_extent_with_extent (is_vertical : bool) (r : geom.Rectangle) (v : Z) :
  extent (negb is_vertical) (with_extent is_vertical r v) = extent (negb is_vertical) r.
Proof. destruct is_vertical; reflexivity. Qed.

Lemma cross_origin_with_extent (is_vertical : bool) (r : geom.Rectangle) (v : Z) :
  origin (negb is_vertical) (with_extent is_vertical r v) = origin (negb is_vertical) r.
Proof. destruct is_vertical; reflexivity. Qed.

Lemma cross_extent_with_origin (is_vertical : bool) (r : geom.Rectangle) (v : Z) :
  extent (negb is_vertical) (with_origin is_vertical r v) = extent (negb is_vertical) r.
Proof. destruct is_vertical; reflexivity. Qed.

Lemma cross_origin_with_origin (is_vertical : bool) (r : geom.Rectangle) (v : Z) :
  origin (negb is_vertical) (with_origin is_vertical r v) = origin (negb is_vertical) r.
Proof. destruct is_vertical; reflexivity. Qed.

(** The candidate of a sibling depends on the staged list only through the
    rectangle staged just before it. *)
Lemma candidate_rect_prefix (is_vertical : bool) (target : nat)
    (resize_amount for_others : Z) (i : nat) (other_node : Container)
    (pending pending' : list geom.Rectangle) :
  take i pending' = pending ->
  candidate_rect is_vertical target resize_amount for_others i other_node pending
  = candidate_rect is_vertical target resize_amount for_others i other_node pending'.
Proof.
  intros <-. unfold candidate_rect. destruct i as [| j]; [reflexivity |].
  rewrite lookup_take_lt by lia. reflexivity.
Qed.

(** Every staged rectangle is the candidate of its sibling. *)
Lemma stage_resizes_candidates (lane_min_width lane_min_height : Container -> Z)
    (is_vertical : bool) (target : nat) (resize_amount for_others : Z)
    (nodes : list Container) :
  forall i pending total pending' total',
    stage_resizes lane_min_width lane_min_height is_vertical target resize_amount
      for_others nodes i pending total = Some (pending', total') ->
    length pending = i ->
    take i pending' = pending
    /\ forall k node,
        nodes !! k = Some node ->
        pending' !! (i + k)%nat
        = Some (candidate_rect is_vertical target resize_amount for_others (i + k) node
                  pending').
Proof.
  induction nodes as [| node rest IH]; intros i pending total pending' total';
    cbn [stage_resizes].
  - intros [= <- <-] <-. rewrite firstn_all. split; [reflexivity |].
    intros k node Hk. rewrite lookup_nil in Hk. discriminate.
  - set (other_rect := candidate_rect is_vertical target resize_amount for_others i node
                         pending).
    destruct (at_or_below_min _ _ _ other_rect node); [discriminate |].
    intros Hstage Hlen.
    apply IH in Hstage as (Htake & Heach); [| rewrite length_app; cbn [length]; lia].
    assert (Hprefix : take i pending' = pending).
    { apply (f_equal (take i)) in Htake. rewrite take_take in Htake.
      replace (i `min` S i)%nat with i in Htake by lia.
      rewrite Htake, take_app_length'; [reflexivity | symmetry; exact Hlen]. }
    split; [exact Hprefix |]. intros [| k] node' Hk.
    + injection Hk as <-. rewrite Nat.add_0_r.
      apply (f_equal (fun l => l !! i)) in Htake.
      rewrite lookup_take_lt in Htake by lia.
      rewrite Htake, lookup_app_r by lia.
      rewrite Hlen, Nat.sub_diag. cbn. f_equal.
      apply candidate_rect_prefix. exact Hprefix.
    + replace (i + S k)%nat with (S i + k)%nat by lia. apply Heach. exact Hk.
Qed.

(** What [pending_resizes] hands over, sibling by sibling: the candidate of
    the sibling, the last one stretched by the leftover. *)
Lemma pending_resizes_each (lane_min_width lane_min_height : Container -> Z)
    (is_vertical : bool) (lane : Container) (target : nat) (resize_amount : Z)
    (pending : list geom.Rectangle) :
  pending_resizes lane_min_width lane_min_height is_vertical lane target resize_amount
  = Some pending ->
  exists staged for_others leftover,
    length staged = length (get_sub_nodes lane)
    /\ forall k node,
        get_sub_nodes lane !! k = Some node ->
        exists candidate,
          staged !! k = Some candidate
          /\ candidate
             = candidate_rect is_vertical target resize_amount for_others k node staged
          /\ pending !! k
             = Some (if bool_decide (k = length (get_sub_nodes lane) - 1)%nat
                     then with_extent is_vertical candidate
                            (extent is_vertical candidate + leftover)
                     else candidate).
Proof.
  unfold pending_resizes.
  destruct (stage_resizes _ _ _ _ _ _ _ _ _ _) as [[staged total] |] eqn:Hstage;
    [| discriminate].
  intros [= <-]. exists staged. do 2 eexists.
  pose proof Hstage as Hlen. apply stage_resizes_total in Hlen as [_ Hlen].
  cbn [length plus] in Hlen.
  apply stage_resizes_candidates in Hstage as [_ Heach]; [| reflexivity].
  split; [exact Hlen |].
  intros k node Hnode. specialize (Heach k node Hnode). cbn [plus] in Heach.
  eexists. split; [exact Heach |]. split; [reflexivity |].
  unfold extend_back.
  destruct (decide (k = length staged - 1)%nat) as [-> | Hother].
  - rewrite bool_decide_eq_true_2 by lia.
    rewrite list_lookup_alter_eq, Heach. reflexivity.
  - rewrite bool_decide_eq_false_2 by lia.
    rewrite list_lookup_alter_ne by congruence. exact Heach.
Qed.

Lemma pending_resizes_contiguous (lane_min_width lane_min_height : Container -> Z)
    (is_vertical : bool) (lane : Container) (target : nat) (resize_amount : Z)
    (pending : list geom.Rectangle) :
  pending_resizes lane_min_width lane_min_height is_vertical lane target resize_amount
  = Some pending ->
  contiguous is_vertical pending.
Proof.
  intros Hpending. pose proof (pending_resizes_length _ _ _ _ _ _ _ Hpending) as Hlength.
  apply pending_resizes_each in Hpending as (staged & for_others & leftover & Hlen & Heach).
  intros k a b Ha Hb.
  assert (Hk : (S k < length (get_sub_nodes lane))%nat).
  { apply lookup_lt_Some in Hb. lia. }
  destruct (lookup_lt_is_Some_2 (get_sub_nodes lane) k) as [node Hnode]; [lia |].
  destruct (lookup_lt_is_Some_2 (get_sub_nodes lane) (S k)) as [node' Hnode']; [lia |].
  destruct (Heach k node Hnode) as (ca & Hca & _ & Hpa).
  destruct (Heach (S k) node' Hnode') as (cb & Hcb & Hcb_eq & Hpb).
  rewrite bool_decide_eq_false_2 in Hpa by lia.
  assert (a = ca) as -> by congruence.
  assert (Hob : origin is_vertical cb = origin is_vertical ca + extent is_vertical ca).
  { rewrite Hcb_eq. unfold candidate_rect. rewrite Hca. apply origin_with_origin. }
  rewrite Hb in Hpb. injection Hpb as ->.
  destruct (bool_decide _); [rewrite origin_with_extent |]; exact Hob.
Qed.

(** Across the axis nothing moves, and the first sibling stays where it
    is. *)
Lemma pending_resizes_cross_axis (lane_min_width lane_min_height : Container -> Z)
    (is_vertical : bool) (lane : Container) (target : nat) (resize_amount : Z)
    (pending : list geom.Rectangle) (k : nat) (node : Container) (r : geom.Rectangle) :
  pending_resizes lane_min_width lane_min_height is_vertical lane target resize_amount
  = Some pending ->
  get_sub_nodes lane !! k = Some node ->
  pending !! k = Some r ->
  extent (negb is_vertical) r = extent (negb is_vertical) (get_logical_area node)
  /\ origin (negb is_vertical) r = origin (negb is_vertical) (get_logical_area node)
  /\ (k = 0%nat -> origin is_vertical r = origin is_vertical (get_logical_area node)).
Proof.
  intros Hpending Hnode Hr.
  apply pending_resizes_each in Hpending as (staged & for_others & leftover & Hlen & Heach).
  destruct (Heach k node Hnode) as (c & Hc & Hc_eq & Hp).
  rewrite Hr in Hp. injection Hp as ->.
  assert (Hcand : extent (negb is_vertical) c
                  = extent (negb is_vertical) (get_logical_area node)
                  /\ origin (negb is_vertical) c
                     = origin (negb is_vertical) (get_logical_area node)
                  /\ (k = 0%nat -> origin is_vertical c
                                   = origin is_vertical (get_logical_area node))).
  { rewrite Hc_eq. unfold candidate_rect.
    destruct k as [| j]; [| destruct (staged !! j)];
      destruct (_ =? target)%nat;
      rewrite ?cross_extent_with_origin, ?cross_origin_with_origin,
        ?cross_extent_with_extent, ?cross_origin_with_extent, ?origin_with_extent;
      repeat split; try reflexivity; intros; discriminate. }
  destruct (bool_decide _);
    rewrite ?cross_extent_with_extent, ?cross_origin_with_extent, ?origin_with_extent;
    exact Hcand.
Qed.

(** [handle_resize] on a child of a lane along the main axis of the lane:
    refused, or the staged rectangles are applied to the lane. *)
Lemma handle_resize_on_axis (lane_min_width lane_min_height : Container -> Z)
    (root : Container) (index : nat) (parent : ContainerRef) (direction : Direction.t)
    (amount : Z) (scheme : LayoutScheme.t) (area : geom.Rectangle)
    (next : option geom.Rectangle) (nodes : list Container) :
  let lane := ParentContainer scheme area next nodes in
  let result :=
    handle_resize lane_min_width lane_min_height root (index :: parent) direction amount in
  resolve root parent = Some lane ->
  is_main_axis_movement direction scheme = true ->
  length nodes <> 1%nat ->
  result = (root, [log_warning resize_warning])
  \/ exists pending,
      pending_resizes lane_min_width lane_min_height (is_vertical_direction direction)
        lane index (if is_negative_direction direction then - amount else amount)
      = Some pending
      /\ resolve (fst result) parent = Some (apply_resizes pending lane).
Proof.
  intros lane result Hlane Hmain Hlen. subst lane result. cbn [handle_resize].
  rewrite Hlane, Hmain. cbn [andb negb].
  destruct (Nat.eqb_spec (length nodes) 1); [contradiction |].
  destruct (pending_resizes _ _ _ _ _ _) as [pending |] eqn:Hpending;
    [right | left; reflexivity].
  exists pending. split; [reflexivity |]. cbn [fst].
  unfold resolve, update in *. rewrite container_at_alter_at, Hlane. reflexivity.
Qed.

Lemma areas_of_apply_resizes (pending : list geom.Rectangle) (lane : Container) :
  is_lane lane = true ->
  length pending = length (get_sub_nodes lane) ->
  areas_of (apply_resizes pending lane) = pending.
Proof.
  destruct lane as [w a n | s a n nodes]; [discriminate |]. intros _.
  apply apply_resizes_areas.
Qed.

(** X2.  After a resize that is not refused the siblings tile their lane
    along the axis of the resize: their extents add up to the extent of the
    lane, whose own area is as before, and each sibling starts where the
    one before it ends. *)
Theorem handle_resize_siblings_tile_lane
    (lane_min_width lane_min_height : Container -> Z)
    (root : Container) (index : nat) (parent : ContainerRef) (direction : Direction.t)
    (amount : Z) (scheme : LayoutScheme.t) (area : geom.Rectangle)
    (next : option geom.Rectangle) (nodes : list Container) :
  let lane := ParentContainer scheme area next nodes in
  let result :=
    handle_resize lane_min_width lane_min_height root (index :: parent) direction amount in
  let is_vertical := is_vertical_direction direction in
  resolve root parent = Some lane ->
  is_main_axis_movement direction scheme = true ->
  (2 <= length nodes)%nat ->
  result = (root, [log_warning resize_warning])
  \/ exists lane',
      resolve (fst result) parent = Some lane'
      /\ get_logical_area lane' = get_logical_area lane
      /\ length (get_sub_nodes lane') = length nodes
      /\ sum_extents is_vertical (areas_of lane') = extent is_vertical (get_logical_area lane)
      /\ contiguous is_vertical (areas_of lane').
Proof.
  intros lane result is_vertical Hlane Hmain Hmany.
  destruct (handle_resize_on_axis lane_min_width lane_min_height root index parent
              direction amount scheme area next nodes Hlane Hmain)
    as [Hrefused | (pending & Hpending & Hresolve)]; [lia | left; exact Hrefused |].
  right. exists (apply_resizes pending lane).
  assert (Hne : get_sub_nodes lane <> []).
  { cbn [lane get_sub_nodes]. destruct nodes; [cbn in Hmany; lia | discriminate]. }
  destruct (pending_resizes_sum _ _ _ _ _ _ _ Hne Hpending) as [Hsum Hlen].
  split; [exact Hresolve |]. split; [reflexivity |].
  rewrite areas_of_apply_resizes by (reflexivity || exact Hlen).
  split; [| split; [exact Hsum |]].
  - cbn [lane apply_resizes get_sub_nodes] in *. rewrite length_zip_with. lia.
  - exact (pending_resizes_contiguous _ _ _ _ _ _ _ Hpending).
Qed.

(** X3.  A resize changes the siblings along its axis only: across the axis
    every sibling keeps its position and its size, and the first sibling
    keeps its position along the axis as well. *)
Theorem handle_resize_keeps_cross_axis
    (lane_min_width lane_min_height : Container -> Z)
    (root : Container) (index : nat) (parent : ContainerRef) (direction : Direction.t)
    (amount : Z) (scheme : LayoutScheme.t) (area : geom.Rectangle)
    (next : option geom.Rectangle) (nodes : list Container)
    (k : nat) (node node' : Container) :
  let root' :=
    fst (handle_resize lane_min_width lane_min_height root (index :: parent) direction
           amount) in
  let is_vertical := is_vertical_direction direction in
  resolve root parent = Some (ParentContainer scheme area next nodes) ->
  is_main_axis_movement direction scheme = true ->
  resolve root (k :: parent) = Some node ->
  resolve root' (k :: parent) = Some node' ->
  extent (negb is_vertical) (get_logical_area node')
  = extent (negb is_vertical) (get_logical_area node)
  /\ origin (negb is_vertical) (get_logical_area node')
     = origin (negb is_vertical) (get_logical_area node)
  /\ (k = 0%nat ->
      origin is_vertical (get_logical_area node')
      = origin is_vertical (get_logical_area node)).
Proof.
  intros root' is_vertical Hlane Hmain Hnode Hnode'.
  rewrite resolve_cons, Hlane in Hnode. cbn [get_sub_nodes] in Hnode.
  destruct (decide (length nodes = 1%nat)) as [Hone | Hmany].
  { (* the only child: nothing is done *)
    subst root'. cbn [handle_resize] in Hnode'. rewrite Hlane, Hmain in Hnode'.
    apply Nat.eqb_eq in Hone. rewrite Hone in Hnode'. cbn [andb fst] in Hnode'.
    rewrite resolve_cons, Hlane in Hnode'. cbn [get_sub_nodes] in Hnode'.
    assert (node' = node) as -> by congruence. auto. }
  destruct (handle_resize_on_axis lane_min_width lane_min_height root index parent
              direction amount scheme area next nodes Hlane Hmain Hmany)
    as [Hrefused | (pending & Hpending & Hresolve)].
  { subst root'. rewrite Hrefused in Hnode'. cbn [fst] in Hnode'.
    rewrite resolve_cons, Hlane in Hnode'. cbn [get_sub_nodes] in Hnode'.
    assert (node' = node) as -> by congruence. auto. }
  subst root'. rewrite resolve_cons, Hresolve in Hnode'.
  pose proof (pending_resizes_length _ _ _ _ _ _ _ Hpending) as Hlen.
  assert (Harea : pending !! k = Some (get_logical_area node')).
  { rewrite <- (apply_resizes_areas scheme area next nodes pending Hlen).
    rewrite list_lookup_fmap, Hnode'. reflexivity. }
  exact (pending_resizes_cross_axis _ _ _ _ _ _ _ _ _ _ Hpending Hnode Harea).
Qed.

(** X4.  Where the arithmetic stays clear of negative candidates the
    minimum is respected: in a lane that its children tile, a resize that is
    not refused leaves every sibling strictly larger than its minimum. *)
Theorem handle_resize_respects_minimum
    (lane_min_width lane_min_height : Container -> Z)
    (root : Container) (index : nat) (parent : ContainerRef) (direction : Direction.t)
    (amount : Z) (scheme : LayoutScheme.t) (area : geom.Rectangle)
    (next : option geom.Rectangle) (nodes : list Container) :
  let lane := ParentContainer scheme area next nodes in
  let result :=
    handle_resize lane_min_width lane_min_height root (index :: parent) direction amount in
  let is_vertical := is_vertical_direction direction in
  let resize_amount := if is_negative_direction direction then - amount else amount in
  let for_others := (- resize_amount) / (Z.of_nat (length nodes) - 1) in
  resolve root parent = Some lane ->
  is_main_axis_movement direction scheme = true ->
  (2 <= length nodes)%nat ->
  (index < length nodes)%nat ->
  sum_extents is_vertical (areas_of lane) = extent is_vertical (get_logical_area lane) ->
  (forall k node,
      nodes !! k = Some node ->
      0 <= extent is_vertical (get_logical_area node)
           + staged_change index resize_amount for_others k < 2 ^ 64) ->
  result = (root, [log_warning resize_warning])
  \/ forall k node node',
      resolve root (k :: parent) = Some node ->
      resolve (fst result) (k :: parent) = Some node' ->
      get_min lane_min_width lane_min_height is_vertical node
      < extent is_vertical (get_logical_area node').
Proof.
  intros lane result is_vertical resize_amount for_others Hlane Hmain Hmany Hindex
    Hsum Hrange.
  destruct (handle_resize_on_axis lane_min_width lane_min_height root index parent
              direction amount scheme area next nodes Hlane Hmain)
    as [Hrefused | (pending & Hpending & Hresolve)]; [lia | left; exact Hrefused |].
  right. intros k node node' Hnode Hnode'.
  rewrite resolve_cons, Hlane in Hnode. cbn [get_sub_nodes] in Hnode.
  fold result in Hresolve. rewrite resolve_cons, Hresolve in Hnode'.
  pose proof (pending_resizes_length _ _ _ _ _ _ _ Hpending) as Hlen.
  assert (Harea : pending !! k = Some (get_logical_area node')).
  { rewrite <- (apply_resizes_areas scheme area next nodes pending Hlen).
    rewrite list_lookup_fmap, Hnode'. reflexivity. }
  exact (pending_resizes_above_minimum lane_min_width lane_min_height is_vertical lane
           index resize_amount pending Hmany Hindex Hsum Hrange Hpending k node
           (get_logical_area node') Hnode Harea).
Qed.

Lemma all_lanes_container_at (P : LayoutScheme.t -> bool) (path : list nat) :
  forall c scheme area next nodes,
    all_lanes P c = true ->
    container_at c path = Some (ParentContainer scheme area next nodes) ->
    P scheme = true.
Proof.
  induction path as [| i path IH]; intros c scheme area next nodes Hall;
    cbn [container_at].
  - intros [= ->]. cbn [all_lanes] in Hall. apply andb_true_iff in Hall. tauto.
  - destruct (get_sub_nodes c !! i) as [child |] eqn:Hchild; [| discriminate].
    apply IH. destruct c as [w a n | s a n subs]; cbn [get_sub_nodes] in Hchild.
    + rewrite lookup_nil in Hchild. discriminate.
    + cbn [all_lanes] in Hall. apply andb_true_iff in Hall as [_ Hall].
      rewrite forallb_forall in Hall. apply Hall.
      apply list_elem_of_In. eapply list_elem_of_lookup_2. exact Hchild.
Qed.

(** X5.  In a tree none of whose lanes runs along the axis of the
    direction -- all of them tabbing or stacking, say, or all of them
    vertical for a resize to the left or right -- [handle_resize] climbs to
    the root and does nothing: the tree is as before, nothing is committed
    and nothing is logged. *)
Theorem handle_resize_off_axis_does_nothing
    (lane_min_width lane_min_height : Container -> Z) (root : Container)
    (node : ContainerRef) (direction : Direction.t) (amount : Z) :
  all_lanes (fun scheme => negb (is_main_axis_movement direction scheme)) root = true ->
  handle_resize lane_min_width lane_min_height root node direction amount = (root, []).
Proof.
  intros Hall. induction node as [| index parent IH]; [reflexivity |].
  cbn [handle_resize].
  destruct (resolve root parent) as [[w a n | scheme a n nodes] |] eqn:Hlane;
    try reflexivity.
  apply (all_lanes_container_at _ _ _ _ _ _ _ Hall) in Hlane.
  apply negb_true_iff in Hlane. rewrite Hlane. cbn [andb negb]. exact IH.
Qed.

(** *** There and back *)

Lemma rectangle_ext (is_vertical : bool) (r r' : geom.Rectangle) :
  extent is_vertical r = extent is_vertical r' ->
  extent (negb is_vertical) r = extent (negb is_vertical) r' ->
  origin is_vertical r = origin is_vertical r' ->
  origin (negb is_vertical) r = origin (negb is_vertical) r' ->
  r = r'.
Proof.
  destruct r as [[x y] [w h]], r' as [[x' y'] [w' h']], is_vertical;
    cbn; intros; congruence.
Qed.

(** When the share of the others comes out even and the children tile the
    lane, nothing is left over: every staged rectangle has the old extent
    plus the staged change. *)
Lemma pending_resizes_extents (lane_min_width lane_min_height : Container -> Z)
    (is_vertical : bool) (lane : Container) (target : nat) (resize_amount : Z)
    (pending : list geom.Rectangle) :
  let nodes := get_sub_nodes lane in
  let for_others := (- resize_amount) / (Z.of_nat (length nodes) - 1) in
  (2 <= length nodes)%nat ->
  (target < length nodes)%nat ->
  (Z.of_nat (length nodes) - 1 | resize_amount) ->
  sum_extents is_vertical (areas_of lane) = extent is_vertical (get_logical_area lane) ->
  pending_resizes lane_min_width lane_min_height is_vertical lane target resize_amount
  = Some pending ->
  forall k node staged,
    nodes !! k = Some node ->
    pending !! k = Some staged ->
    extent is_vertical staged
    = extent is_vertical (get_logical_area node)
      + staged_change target resize_amount for_others k.
Proof.
  intros nodes for_others Hmany Htarget Hdiv Hsum. unfold pending_resizes.
  fold nodes. fold for_others.
  destruct (stage_resizes _ _ _ _ _ _ _ _ _ _) as [[staged_all total] |] eqn:Hstage;
    [| discriminate].
  intros [= <-] k node staged Hnode Hstaged.
  apply stage_resizes_each in Hstage as (_ & Htotal & Heach); [| reflexivity].
  destruct (Heach k node Hnode) as (candidate & Hcandidate & Hextent & _).
  cbn [plus] in Hcandidate, Hextent.
  assert (Hleftover : extent is_vertical (get_logical_area lane) - total = 0).
  { rewrite Htotal. unfold areas_of in Hsum. fold nodes in Hsum.
    rewrite Hsum, sum_staged_changes_value.
    rewrite bool_decide_eq_true_2 by lia.
    assert (Hexact : (Z.of_nat (length nodes) - 1) * for_others = - resize_amount).
    { subst for_others. symmetry. apply Z.div_exact; [lia |].
      apply Z.mod_divide; [lia |]. apply Z.divide_opp_r. exact Hdiv. }
    lia. }
  rewrite Hleftover in Hstaged. unfold extend_back in Hstaged.
  destruct (decide (k = length staged_all - 1)%nat) as [-> | Hother].
  - rewrite list_lookup_alter_eq, Hcandidate in Hstaged. injection Hstaged as <-.
    rewrite extent_with_extent. lia.
  - rewrite list_lookup_alter_ne in Hstaged by congruence.
    rewrite Hcandidate in Hstaged. injection Hstaged as <-. exact Hextent.
Qed.

Lemma opposite_axis (direction : Direction.t) :
  is_vertical_direction (Direction.opposite direction) = is_vertical_direction direction
  /\ is_negative_direction (Direction.opposite direction)
     = negb (is_negative_direction direction).
Proof. destruct direction; split; reflexivity. Qed.

Lemma length_apply_resizes (pending : list geom.Rectangle) (lane : Container) :
  length pending = length (get_sub_nodes lane) ->
  length (get_sub_nodes (apply_resizes pending lane)) = length (get_sub_nodes lane).
Proof.
  destruct lane as [w a n | s a n nodes]; [reflexivity |].
  cbn [apply_resizes get_sub_nodes]. intros H. rewrite length_zip_with. lia.
Qed.

Lemma staged_change_back (target : nat) (resize_amount divisor : Z) (k : nat) :
  0 < divisor ->
  (divisor | resize_amount) ->
  staged_change target (- resize_amount) ((- - resize_amount) / divisor) k
  = - staged_change target resize_amount ((- resize_amount) / divisor) k.
Proof.
  intros Hpos Hdiv. unfold staged_change. destruct (k =? target)%nat; [reflexivity |].
  rewrite Z.opp_involutive. rewrite Z.div_opp_l_z; [lia | lia |].
  apply Z.mod_divide; [lia | exact Hdiv].
Qed.

(** X6.  A resize can be taken back.  In a lane that its children tile,
    when the amount divides evenly among the other siblings, a resize of a
    child followed by the resize in the opposite direction by the same
    amount -- neither of them refused -- gives every sibling the area it
    had. *)
Theorem handle_resize_there_and_back
    (lane_min_width lane_min_height : Container -> Z)
    (root : Container) (index : nat) (parent : ContainerRef) (direction : Direction.t)
    (amount : Z) (scheme : LayoutScheme.t) (area : geom.Rectangle)
    (next : option geom.Rectangle) (nodes : list Container) :
  let lane := ParentContainer scheme area next nodes in
  let is_vertical := is_vertical_direction direction in
  let there :=
    handle_resize lane_min_width lane_min_height root (index :: parent) direction amount in
  let back :=
    handle_resize lane_min_width lane_min_height (fst there) (index :: parent)
      (Direction.opposite direction) amount in
  resolve root parent = Some lane ->
  is_main_axis_movement direction scheme = true ->
  (2 <= length nodes)%nat ->
  (index < length nodes)%nat ->
  (Z.of_nat (length nodes) - 1 | amount) ->
  sum_extents is_vertical (areas_of lane) = extent is_vertical (get_logical_area lane) ->
  contiguous is_vertical (areas_of lane) ->
  snd there <> [log_warning resize_warning] ->
  snd back <> [log_warning resize_warning] ->
  exists lane', resolve (fst back) parent = Some lane' /\ areas_of lane' = areas_of lane.
Proof.
  intros lane is_vertical there back Hlane Hmain Hmany Hindex Hdiv Hsum Hcontiguous
    Hthere Hback.
  set (resize_amount := if is_negative_direction direction then - amount else amount).
  assert (Hdiv' : (Z.of_nat (length nodes) - 1 | resize_amount)).
  { subst resize_amount. destruct (is_negative_direction direction);
      [apply Z.divide_opp_r |]; exact Hdiv. }
  destruct (opposite_axis direction) as [Haxis Hnegative].
  (* there *)
  destruct (handle_resize_on_axis lane_min_width lane_min_height root index parent
              direction amount scheme area next nodes Hlane Hmain)
    as [Hrefused | (pending & Hpending & Hresolve)];
    [lia | fold there in Hrefused; rewrite Hrefused in Hthere; contradiction |].
  fold there in Hresolve. fold lane is_vertical resize_amount in Hpending.
  pose proof (pending_resizes_length _ _ _ _ _ _ _ Hpending) as Hlength.
  cbn [lane get_sub_nodes] in Hlength.
  set (nodes' := zip_with (fun node r => commit_area (set_logical_area r node))
                   nodes pending).
  set (lane' := ParentContainer scheme area next nodes').
  change (apply_resizes pending lane) with lane' in Hresolve.
  assert (Hlength' : length nodes' = length nodes).
  { subst nodes'. rewrite length_zip_with. lia. }
  assert (Hareas : areas_of lane' = pending).
  { apply (areas_of_apply_resizes pending lane); [reflexivity | exact Hlength]. }
  assert (Hsum' : sum_extents is_vertical (areas_of lane')
                  = extent is_vertical (get_logical_area lane')).
  { rewrite Hareas.
    apply (pending_resizes_sum lane_min_width lane_min_height is_vertical lane index
             resize_amount pending); [| exact Hpending].
    cbn [lane get_sub_nodes]. destruct nodes; [cbn in Hmany; lia | discriminate]. }
  (* and back *)
  assert (Hmain' : is_main_axis_movement (Direction.opposite direction) scheme = true).
  { unfold is_main_axis_movement in *. rewrite Haxis. exact Hmain. }
  destruct (handle_resize_on_axis lane_min_width lane_min_height (fst there) index parent
              (Direction.opposite direction) amount scheme area next nodes' Hresolve
              Hmain')
    as [Hrefused | (pending' & Hpending' & Hresolve')];
    [lia | fold back in Hrefused; rewrite Hrefused in Hback; contradiction |].
  fold back in Hresolve'. fold lane' in Hpending', Hresolve'.
  rewrite Haxis, Hnegative in Hpending'. fold is_vertical in Hpending'.
  replace (if negb (is_negative_direction direction) then - amount else amount)
    with (- resize_amount) in Hpending'
    by (subst resize_amount; destruct (is_negative_direction direction); cbn; lia).
  pose proof (pending_resizes_length _ _ _ _ _ _ _ Hpending') as Hlength''.
  cbn [lane' get_sub_nodes] in Hlength''.
  exists (apply_resizes pending' lane'). split; [exact Hresolve' |].
  rewrite (areas_of_apply_resizes pending' lane') by (reflexivity || exact Hlength'').
  (* sibling by sibling, from the first on *)
  assert (Heach : forall k r, areas_of lane !! k = Some r -> pending' !! k = Some r).
  { intros k. induction k as [k IH] using lt_wf_ind. intros r Hr.
    unfold areas_of in Hr. cbn [lane get_sub_nodes] in Hr.
    rewrite list_lookup_fmap in Hr.
    destruct (nodes !! k) as [node |] eqn:Hnode; [| discriminate].
    injection Hr as <-.
    assert (Hk : (k < length nodes)%nat) by (eapply lookup_lt_Some; exact Hnode).
    destruct (lookup_lt_is_Some_2 pending k) as [staged Hstaged]; [lia |].
    destruct (lookup_lt_is_Some_2 pending' k) as [staged' Hstaged']; [lia |].
    destruct (lookup_lt_is_Some_2 nodes' k) as [node' Hnode']; [lia |].
    assert (Hnode_area : get_logical_area node' = staged).
    { apply (f_equal (fun l => l !! k)) in Hareas. unfold areas_of in Hareas.
      cbn [lane' get_sub_nodes] in Hareas.
      rewrite list_lookup_fmap, Hnode', Hstaged in Hareas. injection Hareas as ->.
      reflexivity. }
    rewrite Hstaged'. f_equal.
    destruct (pending_resizes_cross_axis _ _ _ _ _ _ _ _ _ _ Hpending Hnode Hstaged)
      as (Hcross_extent & Hcross_origin & Hfirst).
    destruct (pending_resizes_cross_axis _ _ _ _ _ _ _ _ _ _ Hpending' Hnode' Hstaged')
      as (Hcross_extent' & Hcross_origin' & Hfirst').
    rewrite Hnode_area in Hcross_extent', Hcross_origin', Hfirst'.
    assert (Hextent : extent is_vertical staged'
                      = extent is_vertical (get_logical_area node)).
    { pose proof (pending_resizes_extents lane_min_width lane_min_height is_vertical
                    lane index resize_amount pending Hmany Hindex Hdiv' Hsum Hpending
                    k node staged Hnode Hstaged) as Hthere_extent.
      pose proof (pending_resizes_extents lane_min_width lane_min_height is_vertical
                    lane' index (- resize_amount) pending') as Hback_extent.
      cbn [lane' lane get_sub_nodes] in Hback_extent, Hthere_extent.
      rewrite Hlength' in Hback_extent.
      specialize (Hback_extent Hmany Hindex).
      rewrite (Hback_extent (proj2 (Z.divide_opp_r _ _) Hdiv') Hsum' Hpending'
                 k node' staged' Hnode' Hstaged').
      rewrite Hnode_area, Hthere_extent, staged_change_back by (lia || exact Hdiv').
      lia. }
    apply (rectangle_ext is_vertical); [exact Hextent | congruence | | congruence].
    destruct k as [| j]; [rewrite Hfirst', Hfirst; reflexivity |].
    destruct (lookup_lt_is_Some_2 nodes j) as [before Hbefore]; [lia |].
    assert (Hbefore_area : areas_of lane !! j = Some (get_logical_area before)).
    { unfold areas_of. cbn [lane get_sub_nodes]. rewrite list_lookup_fmap, Hbefore.
      reflexivity. }
    assert (Hnode_area' : areas_of lane !! S j = Some (get_logical_area node)).
    { unfold areas_of. cbn [lane get_sub_nodes]. rewrite list_lookup_fmap, Hnode.
      reflexivity. }
    rewrite (pending_resizes_contiguous _ _ _ _ _ _ _ Hpending' j _ _
               (IH j ltac:(lia) _ Hbefore_area) Hstaged').
    rewrite (Hcontiguous j _ _ Hbefore_area Hnode_area'). reflexivity. }
  apply list_eq. intros k.
  destruct (areas_of lane !! k) as [r |] eqn:Hr; [apply Heach; exact Hr |].
  apply lookup_ge_None in Hr. apply lookup_ge_None.
  unfold areas_of in Hr. cbn [lane get_sub_nodes] in Hr. rewrite length_map in Hr. lia.
Qed.

(** ** Directional select: what comes back *)

Lemma scan_sub_nodes_found (results : list (outcome (option ContainerRef)))
    (indices : list nat) (found : ContainerRef) :
  scan_sub_nodes results indices = Done (Some found) ->
  exists i leaf, results !! i = Some (Done (Some leaf)) /\ found = leaf ++ [i].
Proof.
  induction indices as [| i rest IH]; cbn [scan_sub_nodes]; [discriminate |].
  destruct (results !! i) as [[[leaf |] |] |] eqn:Hi; try discriminate.
  - intros [= <-]. exists i, leaf. split; [exact Hi | reflexivity].
  - exact IH.
Qed.

(** What the descent returns denotes a leaf below the container it was
    called on. *)
Lemma get_closest_leaf_below (node : Container) (direction : Direction.t) :
  forall found,
    get_closest_window_to_select_from_node node direction = Done (Some found) ->
    exists window area next,
      container_at node (rev found) = Some (LeafContainer window area next).
Proof.
  induction node as [w a n | s a n subs IH] using Container_ind_sub; intros found.
  - intros [= <-]. exists w, a, n. reflexivity.
  - cbn [get_closest_window_to_select_from_node].
    set (results := map (fun sub_node =>
                           get_closest_window_to_select_from_node sub_node direction)
                        subs).
    intros Hfound.
    assert (Hscan : exists indices, scan_sub_nodes results indices = Done (Some found)).
    { destruct (descent_axis_matches direction s && is_negative_direction direction);
        [| eexists; exact Hfound].
      destruct subs as [| sub rest]; [discriminate |].
      destruct (scan_sub_nodes results (reverse_indices _)) as [[leaf |] |] eqn:Hreverse;
        try discriminate.
      - eexists. rewrite Hreverse. exact Hfound.
      - eexists. exact Hfound. }
    destruct Hscan as [indices Hscan].
    apply scan_sub_nodes_found in Hscan as (i & leaf & Hi & ->).
    unfold results in Hi. rewrite list_lookup_fmap in Hi.
    destruct (subs !! i) as [sub |] eqn:Hsub; [| discriminate].
    injection Hi as Hi.
    rewrite Forall_lookup in IH. destruct (IH i sub Hsub leaf Hi) as (w & a' & n' & Hleaf).
    exists w, a', n'. rewrite rev_app_distr. cbn [rev app container_at get_sub_nodes].
    rewrite Hsub. exact Hleaf.
Qed.

(** X7.  Whatever [get_closest_window_to_select_from_node] returns is a
    leaf, and it lies in the container the descent started from. *)
Theorem get_closest_window_returns_leaf_below (node : Container)
    (direction : Direction.t) (found : ContainerRef) :
  get_closest_window_to_select_from_node node direction = Done (Some found) ->
  exists window area next,
    container_at node (rev found) = Some (LeafContainer window area next).
Proof. apply get_closest_leaf_below. Qed.

(** What the climb returns denotes a leaf of the tree. *)
Lemma handle_select_climb_leaf (root : Container) (parent : ContainerRef) :
  forall (index : nat) (direction : Direction.t) (found : ContainerRef),
    handle_select_climb root index parent direction = Done (Some found) ->
    exists window area next, resolve root found = Some (LeafContainer window area next).
Proof.
  induction parent as [| pi gp IH]; intros index direction found;
    rewrite handle_select_climb_unfold;
    (destruct (resolve root _) as [[w a n | s a n subs] |] eqn:Hlane; try discriminate);
    (destruct (step_target root index _ direction) as [target |];
     [| cbn [handle_select]; first [discriminate | apply IH]]).
  all: destruct (subs !! target) as [sibling |] eqn:Hsibling; [| discriminate].
  all: destruct (get_closest_window_to_select_from_node sibling direction)
         as [[leaf |] |] eqn:Hleaf; try discriminate.
  all: intros [= <-].
  all: apply get_closest_leaf_below in Hleaf as (w' & a' & n' & Hleaf).
  all: exists w', a', n'.
  all: unfold resolve in *; rewrite rev_app_distr, container_at_app.
  all: change (rev (target :: ?p)) with (rev p ++ [target]).
  all: rewrite container_at_app, Hlane; cbn [container_at get_sub_nodes].
  all: rewrite Hsibling; exact Hleaf.
Qed.

(** X8.  What [handle_select] returns is a leaf of the tree, and it is
    neither the container the selection started from nor anything below
    it. *)
Theorem handle_select_returns_another_leaf (root : Container) (from : ContainerRef)
    (direction : Direction.t) (found : ContainerRef) :
  handle_select root from direction = Done (Some found) ->
  (exists window area next, resolve root found = Some (LeafContainer window area next))
  /\ ~ from `suffix_of` found.
Proof.
  destruct from as [| index parent]; [discriminate |]. cbn [handle_select].
  intros Hfound. split.
  - eapply handle_select_climb_leaf. exact Hfound.
  - eapply handle_select_climb_elsewhere. exact Hfound.
Qed.

Lemma no_empty_lanes_container_at (path : list nat) :
  forall c node,
    no_empty_lanes c = true ->
    container_at c path = Some node ->
    no_empty_lanes node = true.
Proof.
  induction path as [| i path IH]; intros c node Hc; cbn [container_at].
  - intros [= <-]. exact Hc.
  - destruct (get_sub_nodes c !! i) as [child |] eqn:Hchild; [| discriminate].
    apply IH. exact (no_empty_lanes_children c Hc i child Hchild).
Qed.

(** In a tree without empty internal lanes, whatever lies below the root is
    free of empty lanes. *)
Lemma internal_lanes_nonempty_resolve (root : Container) (index : nat)
    (parent : ContainerRef) (node : Container) :
  internal_lanes_nonempty root = true ->
  resolve root (index :: parent) = Some node ->
  no_empty_lanes node = true.
Proof.
  intros Hroot. unfold resolve.
  destruct (rev (index :: parent)) as [| i path] eqn:Hpath.
  { apply (f_equal (@length nat)) in Hpath. rewrite length_rev in Hpath. discriminate. }
  cbn [container_at].
  destruct (get_sub_nodes root !! i) as [child |] eqn:Hchild; [| discriminate].
  apply no_empty_lanes_container_at.
  apply (proj2 (children_nonempty_iff root) Hroot i child Hchild).
Qed.

Lemma handle_select_defined_without_empty_lanes (root : Container) (from : ContainerRef)
    (direction : Direction.t) :
  internal_lanes_nonempty root = true ->
  is_Some (resolve root from) ->
  exists result, handle_select root from direction = Done result.
Proof.
  intros Hroot. induction from as [| index parent IH]; intros Hvalid;
    [exists None; reflexivity |].
  cbn [handle_select]. destruct Hvalid as [node Hnode].
  destruct (resolve_parent_lane _ _ _ _ Hnode) as (s & a & n & subs & Hlane & Hsub).
  rewrite handle_select_climb_unfold, Hlane.
  destruct (step_target root index parent direction) as [target |] eqn:Hstep.
  - assert (Htarget : (target < length subs)%nat).
    { apply lookup_lt_Some in Hsub. unfold step_target in Hstep. rewrite Hlane in Hstep.
      destruct (select_axis_matches direction s); [| discriminate].
      destruct (is_negative_direction direction).
      - destruct (Nat.ltb_spec 0 index); [| discriminate]. injection Hstep as <-. lia.
      - destruct (Nat.ltb_spec (index + 1) (length subs)); [| discriminate].
        injection Hstep as <-. lia. }
    destruct (lookup_lt_is_Some_2 subs target Htarget) as [sibling Hsibling].
    rewrite Hsibling.
    assert (Hsibling' : resolve root (target :: parent) = Some sibling).
    { rewrite resolve_cons, Hlane. exact Hsibling. }
    destruct (get_closest_finds_leaf sibling direction
                (internal_lanes_nonempty_resolve _ _ _ _ Hroot Hsibling'))
      as [leaf ->].
    eexists. reflexivity.
  - apply IH. rewrite Hlane. eexists. reflexivity.
Qed.

(** X9.  In a tree none of whose internal lanes is empty, [handle_select]
    from a container of the tree never runs into undefined behaviour: it
    returns, with a container or with nothing. *)
Theorem handle_select_is_defined (root : Container) (from : ContainerRef)
    (direction : Direction.t) :
  internal_lanes_nonempty root = true ->
  is_Some (resolve root from) ->
  exists result, handle_select root from direction = Done result.
Proof. apply handle_select_defined_without_empty_lanes. Qed.

(** ** Walking the tree *)

Lemma find_app_first {A} (f : A -> bool) (l1 l2 : list A) :
  find f (l1 ++ l2) = match find f l1 with Some x => Some x | None => find f l2 end.
Proof.
  induction l1 as [| x l1 IH]; cbn [app find]; [reflexivity |].
  destruct (f x); [reflexivity | exact IH].
Qed.

Lemma up_to_first_app {A} (f : A -> bool) (l1 l2 : list A) :
  up_to_first f (l1 ++ l2)
  = match find f l1 with
    | Some _ => up_to_first f l1
    | None => l1 ++ up_to_first f l2
    end.
Proof.
  induction l1 as [| x l1 IH]; cbn [app find up_to_first]; [reflexivity |].
  destruct (f x); [reflexivity |]. rewrite IH. destruct (find f l1); reflexivity.
Qed.

Lemma up_to_first_none {A} (f : A -> bool) (l : list A) :
  find f l = None -> up_to_first f l = l.
Proof.
  induction l as [| x l IH]; cbn [find up_to_first]; [reflexivity |].
  destruct (f x); [discriminate |]. intros H. rewrite (IH H). reflexivity.
Qed.

Lemma foreach_sub_nodes_walk (f : Container -> bool) (sub_nodes : list Container) :
  Forall (walks_to_first f) sub_nodes ->
  forall i,
    let result := foreach_sub_nodes (map (foreach_node_internal f) sub_nodes) i in
    fst result = up_to_first f (flat_map preorder sub_nodes)
    /\ match snd result with
       | Some [] => False
       | Some (j :: path) =>
           exists k child found,
             j = (i + k)%nat
             /\ sub_nodes !! k = Some child
             /\ container_at child path = Some found
             /\ find f (flat_map preorder sub_nodes) = Some found
       | None => find f (flat_map preorder sub_nodes) = None
       end.
Proof.
  induction 1 as [| sub rest [Hcalls Hresult] _ IH]; intros i; cbn zeta.
  - split; reflexivity.
  - cbn [map foreach_sub_nodes flat_map].
    rewrite up_to_first_app, find_app_first.
    destruct (foreach_node_internal f sub) as [calls [path |]]; cbn [fst snd] in *.
    + destruct Hresult as (found & Hfound & Hfind). rewrite Hfind. split; [exact Hcalls |].
      exists 0%nat, sub, found. rewrite Nat.add_0_r. auto.
    + rewrite Hresult. specialize (IH (S i)). cbn zeta in IH.
      destruct (foreach_sub_nodes _ (S i)) as [calls' result]; cbn [fst snd] in *.
      destruct IH as [Hcalls' Hresult'].
      split; [rewrite Hcalls, Hcalls', (up_to_first_none f _ Hresult); reflexivity |].
      destruct result as [[| j path] |]; [contradiction | | exact Hresult'].
      destruct Hresult' as (k & child & found & -> & Hchild & Hfound & Hfind).
      exists (S k), child, found. repeat split; [lia | exact Hchild | exact Hfound | exact Hfind].
Qed.

Lemma foreach_node_internal_walk (f : Container -> bool) (c : Container) :
  walks_to_first f c.
Proof.
  induction c as [w a n | s a n subs IH] using Container_ind_sub; unfold walks_to_first.
  - cbn [foreach_node_internal preorder up_to_first find].
    destruct (f _); cbn [fst snd]; [| split; reflexivity].
    split; [reflexivity |]. eexists. split; reflexivity.
  - cbn [foreach_node_internal preorder up_to_first find].
    destruct (f _); cbn [fst snd].
    { split; [reflexivity |]. eexists. split; reflexivity. }
    destruct (foreach_sub_nodes_walk f subs IH 0%nat) as [Hcalls Hresult].
    destruct (foreach_sub_nodes _ 0%nat) as [calls result]; cbn [fst snd] in *.
    split; [congruence |].
    destruct result as [[| j path] |]; [contradiction | | exact Hresult].
    destruct Hresult as (k & child & found & -> & Hchild & Hfound & Hfind).
    exists found. cbn [container_at get_sub_nodes plus]. rewrite Hchild. auto.
Qed.

(** X10.  [foreach_node_internal] returns the first container, in the order
    of a depth-first walk that takes a container before its children, for
    which [f] answers true, and [nullptr] when there is none. *)
Theorem foreach_node_internal_returns_first (f : Container -> bool) (c : Container) :
  match snd (foreach_node_internal f c) with
  | Some path =>
      exists found, container_at c path = Some found /\ find f (preorder c) = Some found
  | None => forall node, In node (preorder c) -> f node = false
  end.
Proof.
  destruct (foreach_node_internal_walk f c) as [_ Hresult].
  destruct (snd (foreach_node_internal f c)); [exact Hresult |].
  intros node Hnode. exact (find_none f _ Hresult node Hnode).
Qed.

(** X11.  [foreach_node_internal] calls [f] on the containers in the order
    of the walk and stops at the first for which it answers true: no
    container is skipped before it and none is visited after it. *)
Theorem foreach_node_internal_calls_in_order (f : Container -> bool) (c : Container) :
  fst (foreach_node_internal f c) = up_to_first f (preorder c).
Proof. exact (proj1 (foreach_node_internal_walk f c)). Qed.

Lemma up_to_first_never {A} (l : list A) : up_to_first (fun _ => false) l = l.
Proof. induction l as [| x l IH]; cbn [up_to_first]; congruence. Qed.

Lemma preorder_leaves (c : Container) :
  flat_map (fun node => match node with
                        | LeafContainer window _ _ => [window]
                        | ParentContainer _ _ _ _ => []
                        end) (preorder c)
  = leaves c.
Proof.
  induction c as [w a n | s a n subs IH] using Container_ind_sub;
    cbn [preorder leaves flat_map app]; [reflexivity |].
  induction IH as [| sub rest Hsub _ IHrest]; cbn [flat_map]; [reflexivity |].
  rewrite flat_map_app, Hsub, IHrest. reflexivity.
Qed.

(** X12.  [foreach_node] calls its callback on every container of the tree
    exactly as the walk lists them: the root first, every lane before its
    children, the children in their order; the windows it meets are the
    windows of the leaves, each once and in order. *)
Theorem foreach_node_visits_every_container (t : TilingWindowTree) :
  foreach_node t = preorder (root_lane t)
  /\ flat_map (fun node => match node with
                           | LeafContainer window _ _ => [window]
                           | ParentContainer _ _ _ _ => []
                           end) (foreach_node t)
     = leaves (root_lane t).
Proof.
  assert (Hwalk : foreach_node t = preorder (root_lane t)).
  { unfold foreach_node.
    rewrite (proj1 (foreach_node_internal_walk _ (root_lane t))).
    apply up_to_first_never. }
  split; [exact Hwalk |]. rewrite Hwalk. apply preorder_leaves.
Qed.

(** ** Selecting by position *)

Lemma find_first_walk (f : Container -> bool) (c : Container) :
  find_first f c = snd (foreach_node_internal f c).
Proof.
  induction c as [w a n | s a n subs IH] using Container_ind_sub;
    cbn [find_first foreach_node_internal]; destruct (f _); try reflexivity.
  assert (Hloop : forall i,
             (fix children (subs : list Container) (i : nat) : option (list nat) :=
                match subs with
                | [] => None
                | sub :: rest =>
                    match find_first f sub with
                    | Some path => Some (i :: path)
                    | None => children rest (S i)
                    end
                end) subs i
             = snd (foreach_sub_nodes (map (foreach_node_internal f) subs) i)).
  { induction IH as [| sub rest Hsub _ IHrest]; intros i; [reflexivity |].
    cbn [map foreach_sub_nodes]. rewrite Hsub.
    destruct (foreach_node_internal f sub) as [calls [path |]]; cbn [snd];
      [reflexivity |].
    rewrite IHrest. destruct (foreach_sub_nodes _ (S i)). reflexivity. }
  rewrite Hloop. destruct (foreach_sub_nodes _ 0%nat). reflexivity.
Qed.

Lemma container_at_preorder (path : list nat) :
  forall c node, container_at c path = Some node -> In node (preorder c).
Proof.
  induction path as [| i path IH]; intros c node; cbn [container_at].
  - intros [= <-]. destruct c; left; reflexivity.
  - destruct (get_sub_nodes c !! i) as [child |] eqn:Hchild; [| discriminate].
    intros Hnode. destruct c as [w a n | s a n subs]; cbn [get_sub_nodes] in Hchild.
    + rewrite lookup_nil in Hchild. discriminate.
    + right. apply in_flat_map. exists child. split; [| exact (IH _ _ Hnode)].
      apply list_elem_of_In. eapply list_elem_of_lookup_2. exact Hchild.
Qed.

(** The search in the manner of [foreach_node_internal] finds a container
    that satisfies the predicate, and finds nothing only when there is
    none. *)
Lemma find_where_preorder_sound (root : Container) (f : Container -> bool)
    (r : ContainerRef) :
  find_where_preorder root f = Some r ->
  exists c, resolve root r = Some c /\ f c = true.
Proof.
  unfold find_where_preorder. rewrite find_first_walk.
  destruct (foreach_node_internal_walk f root) as [_ Hresult].
  destruct (snd (foreach_node_internal f root)) as [path |]; [| discriminate].
  intros [= <-]. destruct Hresult as (found & Hfound & Hfind).
  exists found. unfold resolve. rewrite rev_involutive. split; [exact Hfound |].
  apply find_some in Hfind. tauto.
Qed.

Lemma find_where_preorder_complete (root : Container) (f : Container -> bool) :
  find_where_preorder root f = None ->
  forall r c, resolve root r = Some c -> f c = false.
Proof.
  unfold find_where_preorder. rewrite find_first_walk.
  destruct (foreach_node_internal_walk f root) as [_ Hresult].
  destruct (snd (foreach_node_internal f root)) as [path |]; [discriminate |].
  intros _ r c Hc. apply (find_none f _ Hresult).
  eapply container_at_preorder. exact Hc.
Qed.

Section SelectFromPointHits.

(** [ParentContainer::find_where] is not part of the sources at hand.  It is
    taken to be a search: what it returns satisfies the predicate, and it
    returns nothing only when no container of the lane does. *)
Variable find_where : Container -> (Container -> bool) -> option ContainerRef.

Hypothesis find_where_sound :
  forall root f r,
    find_where root f = Some r -> exists c, resolve root r = Some c /\ f c = true.

Hypothesis find_where_complete :
  forall root f,
    find_where root f = None -> forall r c, resolve root r = Some c -> f c = false.

(** X13.  Outside fullscreen, [select_window_from_point] answers a leaf of
    the tree whose logical area -- the staged one when there is one, gaps
    and border included -- contains the point, and answers nothing only
    when the point lies in the logical area of no leaf. *)
Theorem select_window_from_point_hits (t : TilingWindowTree) (state : CompositorState)
    (x y : Z) :
  is_active_window_fullscreen t = false ->
  match select_window_from_point find_where t state x y with
  | Some found =>
      exists r window area next,
        found = in_tree r
        /\ resolve (root_lane t) r = Some (LeafContainer window area next)
        /\ geom.contains (LeafContainer_get_logical_area area next)
             {| geom.x := x; geom.y := y |} = true
  | None =>
      forall r window area next,
        resolve (root_lane t) r = Some (LeafContainer window area next) ->
        geom.contains (LeafContainer_get_logical_area area next)
          {| geom.x := x; geom.y := y |} = false
  end.
Proof.
  intros Hflag. unfold select_window_from_point. rewrite Hflag.
  set (f := fun node : Container =>
              is_leaf node
              && geom.contains (get_logical_area node) {| geom.x := x; geom.y := y |}).
  destruct (find_where (root_lane t) f) as [r |] eqn:Hfind; cbn [option_map as_leaf].
  - destruct (find_where_sound _ _ _ Hfind) as (c & Hc & Hf). rewrite Hc.
    subst f. cbn beta in Hf. apply andb_true_iff in Hf as [Hleaf Hcontains].
    destruct c as [w a n | s a n subs]; [| discriminate].
    exists r, w, a, n. auto.
  - intros r w a n Hr.
    pose proof (find_where_complete _ _ Hfind r _ Hr) as Hf. exact Hf.
Qed.

End SelectFromPointHits.

(** ** Neighbours and the visible area *)

Lemma get_sub_nodes_length_erase (c c' : Container) :
  erase_geometry c = erase_geometry c' ->
  length (get_sub_nodes c) = length (get_sub_nodes c')
  /\ get_direction c = get_direction c'.
Proof.
  destruct c, c'; cbn [erase_geometry get_sub_nodes get_direction]; try discriminate.
  - intros _. split; reflexivity.
  - intros [= -> H]. apply (f_equal (@length Container)) in H.
    rewrite !length_map in H. split; [exact H | reflexivity].
Qed.

Lemma resolve_erase_geometry (root : Container) (r : ContainerRef) :
  resolve (erase_geometry root) r = erase_geometry <$> resolve root r.
Proof. apply container_at_erase_geometry. Qed.

(** Two trees of one structure have the same lanes, with the same schemes
    and the same numbers of children, at the same places. *)
Lemma resolve_same_structure (root root' : Container) (r : ContainerRef) :
  erase_geometry root = erase_geometry root' ->
  match resolve root r, resolve root' r with
  | Some c, Some c' => erase_geometry c = erase_geometry c'
  | None, None => True
  | _, _ => False
  end.
Proof.
  intros H. pose proof (resolve_erase_geometry root r) as H1.
  pose proof (resolve_erase_geometry root' r) as H2. rewrite H in H1.
  rewrite H1 in H2.
  destruct (resolve root r), (resolve root' r); simpl in *; first [exact I | congruence].
Qed.

Lemma has_neighbor_same_structure (root root' : Container) (container : ContainerRef)
    (direction : LayoutScheme.t) (cannot_be_index : Z) :
  erase_geometry root = erase_geometry root' ->
  has_neighbor root container direction cannot_be_index
  = has_neighbor root' container direction cannot_be_index.
Proof.
  intros H. induction container as [| index parent IH]; [reflexivity |].
  cbn [has_neighbor]. rewrite IH.
  pose proof (resolve_same_structure root root' parent H) as Hlane.
  destruct (resolve root parent) as [[w a n | s a n subs] |],
           (resolve root' parent) as [[w' a' n' | s' a' n' subs'] |];
    try contradiction; try discriminate; try reflexivity.
  destruct (get_sub_nodes_length_erase _ _ Hlane) as [Hlen Hscheme].
  cbn [get_sub_nodes get_direction] in Hlen, Hscheme. injection Hscheme as ->.
  rewrite Hlen. reflexivity.
Qed.

Lemma get_neighbors_same_structure (root root' : Container) (container : ContainerRef) :
  erase_geometry root = erase_geometry root' ->
  get_neighbors root container = get_neighbors root' container.
Proof.
  intros H. unfold get_neighbors, has_top_neighbor, has_left_neighbor,
    has_bottom_neighbor, has_right_neighbor.
  destruct container as [| index parent]; [reflexivity |].
  rewrite !(has_neighbor_same_structure root root' _ _ _ H).
  pose proof (resolve_same_structure root root' parent H) as Hlane.
  destruct (resolve root parent) as [[w a n | s a n subs] |],
           (resolve root' parent) as [[w' a' n' | s' a' n' subs'] |];
    try contradiction; try discriminate; try reflexivity.
  destruct (get_sub_nodes_length_erase _ _ Hlane) as [Hlen _].
  cbn [get_sub_nodes] in Hlen. rewrite Hlen.
  rewrite !(has_neighbor_same_structure root root' _ LayoutScheme.vertical _ H).
  rewrite !(has_neighbor_same_structure root root' _ LayoutScheme.horizontal _ H).
  reflexivity.
Qed.

(** X14.  A resize changes no neighbour relation: after [handle_resize],
    whatever it did, every container has neighbours on the same sides as
    before, so that every leaf keeps its gaps on the same sides. *)
Theorem handle_resize_keeps_neighbors
    (lane_min_width lane_min_height : Container -> Z) (root : Container)
    (node : ContainerRef) (direction : Direction.t) (amount : Z)
    (container : ContainerRef) :
  get_neighbors
    (fst (handle_resize lane_min_width lane_min_height root node direction amount))
    container
  = get_neighbors root container.
Proof.
  apply get_neighbors_same_structure. apply handle_resize_same_structure.
Qed.

Lemma container_at_drop_staged (path : list nat) :
  forall c, container_at (drop_staged c) path = drop_staged <$> container_at c path.
Proof.
  induction path as [| i path IH]; intros c; cbn [container_at]; [reflexivity |].
  replace (get_sub_nodes (drop_staged c)) with (map drop_staged (get_sub_nodes c))
    by (destruct c; reflexivity).
  rewrite list_lookup_fmap.
  destruct (get_sub_nodes c !! i) as [child |]; cbn; [apply IH | reflexivity].
Qed.

Lemma erase_geometry_drop_staged (c : Container) :
  erase_geometry (drop_staged c) = erase_geometry c.
Proof.
  induction c as [w a n | s a n subs IH] using Container_ind_sub;
    cbn [drop_staged erase_geometry]; [reflexivity |].
  f_equal. rewrite map_map. induction IH as [| sub rest Hsub _ IHrest]; cbn [map];
    congruence.
Qed.

(** The visible area is read off the committed geometry. *)
Lemma get_visible_area_drop_staged (config : Config) (root : Container)
    (leaf : ContainerRef) :
  get_visible_area config (drop_staged root) leaf = get_visible_area config root leaf.
Proof.
  unfold get_visible_area, resolve. rewrite container_at_drop_staged.
  rewrite (get_neighbors_same_structure _ root leaf (erase_geometry_drop_staged root)).
  destruct (container_at root (rev leaf)) as [[w a n | s a n subs] |]; reflexivity.
Qed.

Lemma drop_staged_alter_at (f : Container -> Container) (path : list nat) :
  forall c,
    (forall x, container_at c path = Some x -> drop_staged (f x) = drop_staged x) ->
    drop_staged (alter_at f c path) = drop_staged c.
Proof.
  induction path as [| i path IH]; intros c Hf; cbn [alter_at]; [apply Hf; reflexivity |].
  destruct c as [w a n | s a n subs]; [reflexivity |].
  cbn [drop_staged]. f_equal. apply map_alter_same.
  intros child Hchild. apply IH. intros x Hx. apply Hf.
  cbn [container_at get_sub_nodes]. rewrite Hchild. exact Hx.
Qed.

(** X15.  Geometry has two phases.  Once an area is staged for a container
    with [set_logical_area], [get_logical_area] of that container answers
    the staged area; the visible area of every leaf of the tree, that of
    the container included, is still what it was. *)
Theorem staged_area_is_read_back_but_not_visible (config : Config) (root : Container)
    (container : ContainerRef) (target_rect : geom.Rectangle) :
  let root' := update (set_logical_area target_rect) root container in
  get_logical_area <$> resolve root' container
  = (fun _ => target_rect) <$> resolve root container
  /\ forall leaf, get_visible_area config root' leaf = get_visible_area config root leaf.
Proof.
  cbv zeta. split.
  - unfold resolve, update. rewrite container_at_alter_at.
    destruct (container_at root (rev container)) as [[w a n | s a n subs] |]; reflexivity.
  - intros leaf. rewrite <- get_visible_area_drop_staged.
    rewrite <- (get_visible_area_drop_staged config root). f_equal.
    unfold update. apply drop_staged_alter_at. intros [w a n | s a n subs] _; reflexivity.
Qed.

(** X16.  [commit_changes] is what moves a leaf: once the staged area is
    committed, the visible area of the leaf is computed from it, with the
    gaps on the sides where the leaf had neighbours before. *)
Theorem committed_area_becomes_visible (config : Config) (root : Container)
    (leaf : ContainerRef) (window : nat) (area : geom.Rectangle)
    (next : option geom.Rectangle) (target_rect : geom.Rectangle) :
  resolve root leaf = Some (LeafContainer window area next) ->
  get_visible_area config
    (update commit_area (update (set_logical_area target_rect) root leaf) leaf) leaf
  = Some (visible_area_of config (get_neighbors root leaf) target_rect).
Proof.
  intros Hleaf. unfold get_visible_area.
  rewrite (get_neighbors_same_structure _ root leaf).
  - unfold resolve, update in *. rewrite !container_at_alter_at, Hleaf. reflexivity.
  - unfold update. rewrite erase_geometry_alter_at.
    + apply erase_geometry_alter_at. intros x _. apply erase_geometry_set_logical_area.
    + intros x _. apply erase_geometry_commit_area.
Qed.

Lemma half_gap_nonnegative (gap : Z) : 0 <= gap -> 0 <= half_gap gap.
Proof.
  intros Hgap. unfold half_gap.
  assert ((- gap) / 2 <= 0) by (apply Z.div_le_upper_bound; lia). lia.
Qed.

(** X17.  With gaps and a border that are not negative, the visible area of
    a leaf lies within its logical area: the gaps and the border are taken
    from the inside. *)
Theorem visible_area_within_logical_area (config : Config) (root : Container)
    (leaf : ContainerRef) (window : nat) (area : geom.Rectangle)
    (next : option geom.Rectangle) :
  0 <= get_inner_gaps_x config ->
  0 <= get_inner_gaps_y config ->
  0 <= border_size config ->
  resolve root leaf = Some (LeafContainer window area next) ->
  exists visible,
    get_visible_area config root leaf = Some visible /\ within visible area.
Proof.
  intros Hx Hy Hborder Hleaf. unfold get_visible_area. rewrite Hleaf.
  eexists. split; [reflexivity |].
  apply half_gap_nonnegative in Hx, Hy.
  unfold within, visible_area_of.
  destruct (neighbor_at _ Direction.left), (neighbor_at _ Direction.right),
    (neighbor_at _ Direction.up), (neighbor_at _ Direction.down);
    cbn [geom.x geom.y geom.top_left geom.size geom.width geom.height]; lia.
Qed.

Lemma has_same_axis_neighbor_negative (root : Container) (side : Direction.t) :
  is_negative_direction side = true ->
  forall container,
    is_Some (resolve root container) ->
    has_same_axis_neighbor root container side = true
    <-> exists below index parent area next sub_nodes,
          container = below ++ index :: parent
          /\ resolve root parent
             = Some (ParentContainer (from_direction side) area next sub_nodes)
          /\ (1 < length sub_nodes)%nat
          /\ (0 < index)%nat.
Proof.
  intros Hside. induction container as [| index parent IH]; intros Hvalid.
  - cbn [has_same_axis_neighbor]. split; [discriminate |].
    intros (below & index & parent & _ & _ & _ & H & _).
    destruct below; discriminate.
  - destruct Hvalid as [node Hnode].
    destruct (resolve_parent_lane _ _ _ _ Hnode) as (s & a & n & subs & Hlane & Hsub).
    specialize (IH ltac:(rewrite Hlane; eexists; reflexivity)).
    cbn [has_same_axis_neighbor]. rewrite Hlane, Hside.
    rewrite orb_true_iff, !andb_true_iff, IH, LayoutScheme_eqb_eq.
    rewrite !Nat.ltb_lt. split.
    + intros [[[-> Hlen] Hindex] | (below & i & p & a' & n' & subs' & -> & H)].
      * exists [], index, parent, a, n, subs. auto.
      * exists (index :: below), i, p, a', n', subs'. auto.
    + intros ([| j below] & i & p & a' & n' & subs' & Hpath & Hp & Hlen & Hi).
      * injection Hpath as -> ->. rewrite Hlane in Hp. injection Hp as -> _ _ ->.
        left. auto.
      * injection Hpath as -> ->. right. exists below, i, p, a', n', subs'. auto.
Qed.

(** X18.  On the left and on the top [get_neighbors] is exact at every
    depth: it reports a neighbour on that side exactly when, somewhere on
    the way from the container to the root, a lane along that axis with
    more than one child is entered at a position other than its first. *)
Theorem get_neighbors_left_and_top_exact (root : Container) (container : ContainerRef)
    (side : Direction.t) :
  is_negative_direction side = true ->
  is_Some (resolve root container) ->
  Forall (fun index => Z.of_nat index < 2 ^ 64) container ->
  neighbor_at (get_neighbors root container) side = true
  <-> exists below index parent area next sub_nodes,
        container = below ++ index :: parent
        /\ resolve root parent
           = Some (ParentContainer (from_direction side) area next sub_nodes)
        /\ (1 < length sub_nodes)%nat
        /\ (0 < index)%nat.
Proof.
  intros Hside Hvalid Hbound.
  rewrite <- (has_same_axis_neighbor_negative root side Hside container Hvalid).
  rewrite <- (has_neighbor_negative_side root side container Hside Hbound).
  destruct side; try discriminate;
    unfold neighbor_at, get_neighbors, has_left_neighbor, has_top_neighbor;
    cbn [Direction.to_index lookup list_lookup default from_direction];
    destruct container; reflexivity.
Qed.

(** ** The fullscreen flag *)

Lemma alter_same {A} (f : A -> A) (l : list A) (i : nat) :
  (forall x, l !! i = Some x -> f x = x) -> alter f i l = l.
Proof.
  revert i. induction l as [| y l IH]; intros [| i] H; cbn; try reflexivity.
  - f_equal. apply H. reflexivity.
  - f_equal. apply IH. exact H.
Qed.

Lemma alter_at_same (f : Container -> Container) (path : list nat) :
  forall c,
    (forall x, container_at c path = Some x -> f x = x) ->
    alter_at f c path = c.
Proof.
  induction path as [| i path IH]; intros c Hf; cbn [alter_at]; [apply Hf; reflexivity |].
  destruct c as [w a n | s a n subs]; [reflexivity |].
  f_equal. apply alter_same. intros child Hchild. apply IH. intros x Hx. apply Hf.
  cbn [container_at get_sub_nodes]. rewrite Hchild. exact Hx.
Qed.

Lemma alter_at_ext (f g : Container -> Container) (path : list nat) :
  forall c,
    (forall x, container_at c path = Some x -> f x = g x) ->
    alter_at f c path = alter_at g c path.
Proof.
  induction path as [| i path IH]; intros c Hf; cbn [alter_at]; [apply Hf; reflexivity |].
  destruct c as [w a n | s a n subs]; [reflexivity |].
  f_equal. apply list_alter_ext; [| reflexivity].
  intros child Hchild. apply IH. intros x Hx. apply Hf.
  cbn [container_at get_sub_nodes]. rewrite Hchild. exact Hx.
Qed.

Lemma alter_at_compose (f g : Container -> Container) (path : list nat) :
  forall c, alter_at g (alter_at f c path) path = alter_at (fun x => g (f x)) c path.
Proof.
  induction path as [| i path IH]; intros c; cbn [alter_at]; [reflexivity |].
  destruct c as [w a n | s a n subs]; [reflexivity |].
  cbn [alter_at]. f_equal. rewrite list_alter_alter_eq.
  apply list_alter_ext; [| reflexivity]. intros child _. apply IH.
Qed.

Lemma leaves_erase_geometry (c : Container) : leaves (erase_geometry c) = leaves c.
Proof.
  induction c as [w a n | s a n subs IH] using Container_ind_sub;
    cbn [erase_geometry leaves]; [reflexivity |].
  induction IH as [| sub rest Hsub _ IHrest]; cbn [map flat_map]; congruence.
Qed.

(** Windows are part of the structure. *)
Lemma leaves_same_structure (c c' : Container) :
  erase_geometry c = erase_geometry c' -> leaves c = leaves c'.
Proof.
  intros H. rewrite <- (leaves_erase_geometry c), <- (leaves_erase_geometry c'), H.
  reflexivity.
Qed.

Lemma tree_eta (t : TilingWindowTree) :
  {| root_lane := root_lane t;
     is_active_window_fullscreen := is_active_window_fullscreen t;
     is_hidden := is_hidden t;
     zones := zones t;
     config := config t |} = t.
Proof. destruct t; reflexivity. Qed.

(** X19.  Entering fullscreen and leaving it again through
    [toggle_fullscreen] on the active leaf sets the flag, clears it, and
    amounts to a commit of that leaf: when nothing was staged for the leaf,
    the tree is back as it was. *)
Theorem toggle_fullscreen_twice_restores (t : TilingWindowTree) (state : CompositorState)
    (container : ContainerRef) (window : nat) (area : geom.Rectangle)
    (next : option geom.Rectangle) :
  is_active_window_fullscreen t = false ->
  resolve (root_lane t) container = Some (LeafContainer window area next) ->
  active state = Some (in_tree container) ->
  exists first second,
    toggle_fullscreen t state container = Done first
    /\ is_active_window_fullscreen (advised_tree first) = true
    /\ toggle_fullscreen (advised_tree first) state container = Done second
    /\ advised_tree second = with_root t (update commit_area (root_lane t) container)
    /\ (next = None -> advised_tree second = t).
Proof.
  intros Hflag Hleaf Hactive.
  unfold toggle_fullscreen at 1. rewrite Hflag. unfold advise_fullscreen_container.
  rewrite Hleaf. eexists. eexists. split; [reflexivity |]. split; [reflexivity |].
  cbn [advised_tree]. unfold toggle_fullscreen, advise_restored_container.
  cbn [with_fullscreen is_active_window_fullscreen root_lane].
  rewrite Hleaf. unfold active_container. rewrite Hactive.
  cbn [as_leaf with_fullscreen root_lane]. rewrite Hleaf. cbn [window_of]. rewrite Hleaf.
  rewrite bool_decide_eq_true_2 by reflexivity. cbn [andb].
  split; [reflexivity |]. cbn [advised_tree].
  assert (Hcommit :
            update (fun c => commit_area (set_logical_area (get_logical_area c) c))
              (root_lane t) container
            = update commit_area (root_lane t) container).
  { unfold update. apply alter_at_ext. intros x Hx. unfold resolve in Hleaf.
    rewrite Hleaf in Hx. injection Hx as <-. destruct next; reflexivity. }
  split.
  - unfold with_fullscreen, with_root. cbn. rewrite Hcommit, Hflag. reflexivity.
  - intros ->. unfold with_fullscreen, with_root. cbn. rewrite Hcommit.
    unfold update. rewrite alter_at_same.
    + rewrite <- Hflag. apply tree_eta.
    + intros x Hx. unfold resolve in Hleaf. rewrite Hleaf in Hx. injection Hx as <-.
      reflexivity.
Qed.

(** X20.  While the tree is fullscreen, [toggle_fullscreen] on a leaf whose
    window is not the window of the active leaf -- or when no leaf is
    active -- answers true and changes nothing: the tree stays fullscreen,
    and resizing, selecting and moving stay refused. *)
Theorem toggle_fullscreen_needs_active_leaf
    (lane_min_width lane_min_height : Container -> Z)
    (t : TilingWindowTree) (state : CompositorState)
    (container : ContainerRef) (window : nat) (area : geom.Rectangle)
    (next : option geom.Rectangle) :
  is_active_window_fullscreen t = true ->
  resolve (root_lane t) container = Some (LeafContainer window area next) ->
  (forall active_leaf,
      active_container t state = Some active_leaf ->
      window_of (root_lane t) active_leaf <> Some window) ->
  exists result,
    toggle_fullscreen t state container = Done result
    /\ advised result = true
    /\ advised_tree result = t
    /\ advised_effects result = []
    /\ forall direction other,
        returned (resize_container lane_min_width lane_min_height (advised_tree result)
                    direction other) = false
        /\ (exists refused, select_next (advised_tree result) direction other = Done refused
                            /\ returned refused = false)
        /\ (exists refused, move_container (advised_tree result) direction other
                            = Done refused
                            /\ returned refused = false).
Proof.
  intros Hflag Hleaf Hother.
  unfold toggle_fullscreen, advise_restored_container. rewrite Hflag, Hleaf.
  destruct (active_container t state) as [active_leaf |] eqn:Hactive.
  - rewrite bool_decide_eq_false_2 by (apply Hother; reflexivity). cbn [andb].
    eexists. split; [reflexivity |]. cbn [advised advised_tree advised_effects].
    repeat split; try reflexivity.
    + unfold resize_container. rewrite Hflag. reflexivity.
    + unfold select_next. rewrite Hflag. eexists. split; reflexivity.
    + unfold move_container. rewrite Hflag. eexists. split; reflexivity.
  - cbn [andb]. eexists. split; [reflexivity |].
    cbn [advised advised_tree advised_effects].
    repeat split; try reflexivity.
    + unfold resize_container. rewrite Hflag. reflexivity.
    + unfold select_next. rewrite Hflag. eexists. split; reflexivity.
    + unfold move_container. rewrite Hflag. eexists. split; reflexivity.
Qed.

Lemma leaves_update_same_structure (f : Container -> Container) (root : Container)
    (r : ContainerRef) :
  (forall x, erase_geometry (f x) = erase_geometry x) ->
  leaves (update f root r) = leaves root.
Proof.
  intros Hf. apply leaves_same_structure. unfold update.
  apply erase_geometry_alter_at. intros x _. apply Hf.
Qed.

(** X21.  [advise_delete_window] takes the container and its windows out of
    the tree and no others.  When the container is the active leaf the tree
    is no longer fullscreen afterwards; when it is not, the flag is as
    before.  On a container without a parent [handle_remove] returns
    [nullptr] and the commit that follows is undefined. *)
Theorem advise_delete_window_clears_fullscreen (t : TilingWindowTree)
    (state : CompositorState) :
  (forall index parent node,
      resolve (root_lane t) (index :: parent) = Some node ->
      exists t' events before after,
        advise_delete_window t state (index :: parent) = Done (t', events)
        /\ leaves (root_lane t) = before ++ leaves node ++ after
        /\ leaves (root_lane t') = before ++ after
        /\ (active_container t state = Some (in_tree (index :: parent)) ->
            is_active_window_fullscreen t' = false)
        /\ (active_container t state <> Some (in_tree (index :: parent)) ->
            is_active_window_fullscreen t' = is_active_window_fullscreen t))
  /\ advise_delete_window t state [] = Undefined.
Proof.
  split; [| reflexivity].
  intros index parent node Hnode.
  destruct (handle_remove_leaves _ _ _ _ Hnode) as (before & after & Hleaves & Hremoved).
  destruct (resolve_parent_lane _ _ _ _ Hnode) as (s & a & n & subs & Hlane & Hsub).
  unfold advise_delete_window.
  set (fullscreen := if match active_container t state with
                        | Some (in_tree r) => bool_decide (r = index :: parent)
                        | _ => false
                        end
                     then false else is_active_window_fullscreen t).
  assert (Hflag :
            (active_container t state = Some (in_tree (index :: parent)) ->
             fullscreen = false)
            /\ (active_container t state <> Some (in_tree (index :: parent)) ->
                fullscreen = is_active_window_fullscreen t)).
  { subst fullscreen. destruct (active_container t state) as [[r | l i] |].
    - destruct (decide (r = index :: parent)) as [-> | Hne].
      + rewrite bool_decide_eq_true_2 by reflexivity. split; [reflexivity |].
        intros H. contradiction H. reflexivity.
      + rewrite bool_decide_eq_false_2 by exact Hne. split; [| reflexivity].
        intros [= H]. contradiction.
    - split; [discriminate | reflexivity].
    - split; [discriminate | reflexivity]. }
  clearbody fullscreen.
  destruct (handle_remove (root_lane t) (index :: parent)) as [root to_commit] eqn:Hremove.
  cbn [fst] in Hremoved.
  assert (Hsome : exists lane site,
             to_commit = Some lane
             /\ handle_remove_site (root_lane t) (index :: parent) = Some site).
  { unfold handle_remove in Hremove. unfold handle_remove_site. rewrite Hlane in *.
    destruct parent as [| parent_index grandparent];
      [| destruct (length subs =? 1)%nat];
      injection Hremove as _ <-; eexists; eexists; split; reflexivity. }
  destruct Hsome as (lane & site & -> & ->).
  destruct (after_remove site lane) as [lane' |].
  - unfold commit_lane. eexists. eexists. exists before, after.
    split; [reflexivity |]. split; [exact Hleaves |].
    cbn [root_lane with_fullscreen with_root is_active_window_fullscreen].
    split; [| exact Hflag].
    rewrite leaves_update_same_structure by apply erase_geometry_commit_area.
    exact Hremoved.
  - eexists. eexists. exists before, after.
    split; [reflexivity |]. split; [exact Hleaves |].
    cbn [root_lane with_fullscreen with_root is_active_window_fullscreen].
    split; [exact Hremoved | exact Hflag].
Qed.

(** ** Layout requests *)

Lemma flat_map_alter_same {A B} (g : A -> list B) (f : A -> A) (l : list A) (i : nat) :
  (forall x, l !! i = Some x -> g (f x) = g x) ->
  flat_map g (alter f i l) = flat_map g l.
Proof.
  revert i. induction l as [| y l IH]; intros [| i] H; cbn; try reflexivity.
  - f_equal. apply H. reflexivity.
  - f_equal. apply IH. exact H.
Qed.

Lemma leaves_alter_at (f : Container -> Container) (path : list nat) :
  forall c,
    (forall x, container_at c path = Some x -> leaves (f x) = leaves x) ->
    leaves (alter_at f c path) = leaves c.
Proof.
  induction path as [| i path IH]; intros c Hf; cbn [alter_at]; [apply Hf; reflexivity |].
  destruct c as [w a n | s a n subs]; [reflexivity |].
  cbn [leaves]. apply flat_map_alter_same.
  intros child Hchild. apply IH. intros x Hx. apply Hf.
  cbn [container_at get_sub_nodes]. rewrite Hchild. exact Hx.
Qed.

Lemma leaves_set_direction (scheme : LayoutScheme.t) (c : Container) :
  leaves (set_direction scheme c) = leaves c.
Proof. destruct c; reflexivity. Qed.

Lemma leaves_convert_to_parent (index : nat) (c : Container) :
  leaves (convert_to_parent index c) = leaves c.
Proof.
  destruct c as [w a n | s a n subs]; [reflexivity |].
  cbn [convert_to_parent with_sub_nodes leaves]. apply flat_map_alter_same.
  intros child _. cbn [leaves flat_map]. apply app_nil_r.
Qed.

Lemma handle_layout_scheme_leaves (t : TilingWindowTree) (scheme : LayoutScheme.t)
    (container : ContainerRef) :
  leaves (root_lane (fst (handle_layout_scheme t scheme container))) = leaves (root_lane t).
Proof.
  unfold handle_layout_scheme.
  destruct (is_active_window_fullscreen t); [reflexivity |].
  destruct container as [| index parent]; [reflexivity |].
  destruct (resolve (root_lane t) parent) as [[w a n | s a n subs] |]; try reflexivity.
  destruct ((1 <? length subs)%nat && negb (LayoutScheme.eqb s LayoutScheme.tabbing));
    cbn [fst with_root root_lane]; unfold update.
  - rewrite leaves_alter_at by (intros; apply leaves_set_direction).
    apply leaves_alter_at. intros; apply leaves_convert_to_parent.
  - apply leaves_alter_at. intros; apply leaves_set_direction.
Qed.

(** X22.  No layout request loses, adds or reorders a window: after
    [handle_layout_scheme], after each of the three requests that call it,
    after [toggle_layout] and after [toggle_tabbing], the leaves of the
    tree carry the same windows in the same order. *)
Theorem layout_requests_keep_windows (t : TilingWindowTree) (scheme : LayoutScheme.t)
    (container : ContainerRef) :
  let kept (t' : TilingWindowTree) := leaves (root_lane t') = leaves (root_lane t) in
  kept (fst (handle_layout_scheme t scheme container))
  /\ kept (fst (request_vertical_layout t container))
  /\ kept (fst (request_horizontal_layout t container))
  /\ kept (fst (requested_tabbing_layout t container))
  /\ kept (fst (toggle_layout t container))
  /\ kept (tree_after (toggle_tabbing t container)).
Proof.
  cbv zeta. repeat split; try apply handle_layout_scheme_leaves.
  - unfold toggle_layout. destruct container as [| index parent]; [reflexivity |].
    destruct (resolve (root_lane t) parent) as [[w a n | [] a n subs] |];
      try reflexivity; apply handle_layout_scheme_leaves.
  - unfold toggle_tabbing. destruct container as [| index parent]; [reflexivity |].
    destruct (resolve (root_lane t) parent) as [[w a n | s a n subs] |];
      try reflexivity.
    destruct (LayoutScheme.eqb s LayoutScheme.tabbing).
    + pose proof (handle_layout_scheme_leaves t LayoutScheme.horizontal (index :: parent))
        as Hkept.
      unfold request_horizontal_layout.
      destruct (handle_layout_scheme t LayoutScheme.horizontal (index :: parent)).
      exact Hkept.
    + pose proof (handle_layout_scheme_leaves t LayoutScheme.tabbing (index :: parent))
        as Hkept.
      unfold requested_tabbing_layout.
      destruct (handle_layout_scheme t LayoutScheme.tabbing (index :: parent)).
      exact Hkept.
Qed.

(** X23.  On the only child of a horizontal or vertical lane,
    [toggle_layout] turns the lane itself: no lane is created, the scheme
    of the lane becomes the other of the two, and a second [toggle_layout]
    gives the tree back as it was. *)
Theorem toggle_layout_twice_restores (t : TilingWindowTree) (index : nat)
    (parent : ContainerRef) (scheme : LayoutScheme.t) (area : geom.Rectangle)
    (next : option geom.Rectangle) (only_child : Container) :
  is_active_window_fullscreen t = false ->
  resolve (root_lane t) parent = Some (ParentContainer scheme area next [only_child]) ->
  scheme = LayoutScheme.horizontal \/ scheme = LayoutScheme.vertical ->
  let other :=
    match scheme with
    | LayoutScheme.horizontal => LayoutScheme.vertical
    | _ => LayoutScheme.horizontal
    end in
  let toggled := fst (toggle_layout t (index :: parent)) in
  snd (toggle_layout t (index :: parent)) = []
  /\ resolve (root_lane toggled) parent
     = Some (ParentContainer other area next [only_child])
  /\ toggle_layout toggled (index :: parent) = (t, []).
Proof.
  intros Hflag Hlane Hscheme other toggled.
  assert (Htoggle :
            toggle_layout t (index :: parent)
            = (with_root t (update (set_direction other) (root_lane t) parent), [])).
  { unfold toggle_layout, handle_layout_scheme. rewrite Hlane, Hflag.
    subst other. destruct Hscheme as [-> | ->]; reflexivity. }
  assert (Hresolve :
            resolve (update (set_direction other) (root_lane t) parent) parent
            = Some (ParentContainer other area next [only_child])).
  { unfold resolve, update in *. rewrite container_at_alter_at, Hlane. reflexivity. }
  subst toggled. rewrite Htoggle. cbn [fst snd with_root root_lane].
  split; [reflexivity |]. split; [exact Hresolve |].
  unfold toggle_layout, handle_layout_scheme.
  cbn [with_root root_lane is_active_window_fullscreen]. rewrite Hresolve, Hflag.
  assert (Hback :
            update (set_direction scheme)
              (update (set_direction other) (root_lane t) parent) parent
            = root_lane t).
  { unfold update. rewrite alter_at_compose. apply alter_at_same.
    intros x Hx. unfold resolve in Hlane. rewrite Hlane in Hx. injection Hx as <-.
    reflexivity. }
  subst other.
  destruct Hscheme as [-> | ->]; cbn [length Nat.ltb Nat.leb andb];
    rewrite Hback; unfold with_root; cbn; f_equal; apply tree_eta.
Qed.

Lemma no_empty_lanes_has_leaf (c : Container) :
  no_empty_lanes c = true -> leaves c <> [].
Proof.
  induction c as [w a n | s a n subs IH] using Container_ind_sub; intros Hne;
    cbn [leaves]; [discriminate |].
  cbn [no_empty_lanes] in Hne. apply andb_true_iff in Hne as [Hlen Hall].
  destruct subs as [| sub rest]; [discriminate |].
  cbn [forallb] in Hall. apply andb_true_iff in Hall as [Hsub _].
  inversion IH as [| ? ? IHsub _]; subst. cbn [flat_map].
  intros Hnil. apply app_eq_nil in Hnil as [Hnil _]. exact (IHsub Hsub Hnil).
Qed.

(** X24.  In a tree none of whose internal lanes is empty, [is_empty]
    answers whether the tree is without windows: the root has no child
    exactly when no leaf is left. *)
Theorem is_empty_iff_no_window (t : TilingWindowTree) :
  is_lane (root_lane t) = true ->
  internal_lanes_nonempty (root_lane t) = true ->
  is_empty t = true <-> leaves (root_lane t) = [].
Proof.
  unfold is_empty, num_nodes, internal_lanes_nonempty.
  destruct (root_lane t) as [w a n | s a n subs]; [discriminate |].
  intros _ Hall. cbn [get_sub_nodes leaves] in *.
  destruct subs as [| sub rest]; [split; reflexivity |].
  cbn [forallb] in Hall. apply andb_true_iff in Hall as [Hsub _].
  split; [discriminate |]. cbn [flat_map]. intros Hnil.
  apply app_eq_nil in Hnil as [Hnil _].
  contradiction (no_empty_lanes_has_leaf sub Hsub Hnil).
Qed.

(** X25.  [toggle_tabbing] on the only child of a lane turns the lane
    itself: a tabbing lane becomes horizontal, any other lane tabbing.  Two
    calls therefore give back a lane that was tabbing or horizontal, and
    leave a lane that was vertical or stacking horizontal; nothing else in
    the tree changes. *)
Theorem toggle_tabbing_twice (t : TilingWindowTree) (index : nat)
    (parent : ContainerRef) (scheme : LayoutScheme.t) (area : geom.Rectangle)
    (next : option geom.Rectangle) (only_child : Container) :
  is_active_window_fullscreen t = false ->
  resolve (root_lane t) parent = Some (ParentContainer scheme area next [only_child]) ->
  let once := toggle_tabbing t (index :: parent) in
  let twice := toggle_tabbing (tree_after once) (index :: parent) in
  let is_tabbing := LayoutScheme.eqb scheme LayoutScheme.tabbing in
  resolve (root_lane (tree_after once)) parent
  = Some (ParentContainer
            (if is_tabbing then LayoutScheme.horizontal else LayoutScheme.tabbing)
            area next [only_child])
  /\ tree_after twice
     = with_root t
         (update (set_direction
                    (if is_tabbing then LayoutScheme.tabbing else LayoutScheme.horizontal))
            (root_lane t) parent)
  /\ (scheme = LayoutScheme.tabbing \/ scheme = LayoutScheme.horizontal ->
      tree_after twice = t).
Proof.
  intros Hflag Hlane once twice is_tabbing.
  set (turned := if is_tabbing then LayoutScheme.horizontal else LayoutScheme.tabbing).
  assert (Honce : tree_after once
                  = with_root t (update (set_direction turned) (root_lane t) parent)).
  { subst once turned is_tabbing.
    unfold toggle_tabbing, request_horizontal_layout, requested_tabbing_layout,
      handle_layout_scheme.
    rewrite Hlane, Hflag. cbn [length Nat.ltb Nat.leb andb].
    destruct (LayoutScheme.eqb scheme LayoutScheme.tabbing); reflexivity. }
  assert (Hresolve : resolve (update (set_direction turned) (root_lane t) parent) parent
                     = Some (ParentContainer turned area next [only_child])).
  { unfold resolve, update in *. rewrite container_at_alter_at, Hlane. reflexivity. }
  rewrite Honce. cbn [with_root root_lane]. split; [exact Hresolve |].
  assert (Htwice :
            tree_after twice
            = with_root t
                (update (set_direction
                           (if is_tabbing then LayoutScheme.tabbing
                            else LayoutScheme.horizontal))
                   (root_lane t) parent)).
  { subst twice. rewrite Honce.
    unfold toggle_tabbing, request_horizontal_layout, requested_tabbing_layout,
      handle_layout_scheme.
    cbn [with_root root_lane is_active_window_fullscreen].
    rewrite Hresolve, Hflag. cbn [length Nat.ltb Nat.leb andb].
    subst turned is_tabbing.
    destruct (LayoutScheme.eqb scheme LayoutScheme.tabbing);
      cbn [LayoutScheme.eqb tree_after with_root root_lane];
      unfold with_root; cbn; f_equal; unfold update; rewrite alter_at_compose;
      apply alter_at_ext; intros x _; destruct x; reflexivity. }
  split; [exact Htwice |].
  intros Hscheme. rewrite Htwice. unfold update. rewrite alter_at_same.
  - unfold with_root. apply tree_eta.
  - intros x Hx. unfold resolve in Hlane. rewrite Hlane in Hx. injection Hx as <-.
    subst is_tabbing. destruct Hscheme as [-> | ->]; reflexivity.
Qed.

(** ** Moving: where the windows go *)

Lemma insert_head_Permutation {A} (l : list A) (j : nat) (x b : A) :
  l !! j = Some b -> b :: <[j := x]> l ≡ₚ x :: l.
Proof.
  revert j. induction l as [| y l IH]; intros [| j] Hj; try discriminate.
  - injection Hj as ->. apply perm_swap.
  - cbn. rewrite perm_swap. rewrite (IH j Hj). apply perm_swap.
Qed.

Lemma swap_Permutation {A} (l : list A) (i j : nat) (a b : A) :
  l !! i = Some a -> l !! j = Some b -> <[j := a]> (<[i := b]> l) ≡ₚ l.
Proof.
  revert i j. induction l as [| x l IH]; intros [| i] [| j] Hi Hj; try discriminate.
  - injection Hi as ->. injection Hj as ->. reflexivity.
  - injection Hi as ->. cbn. apply insert_head_Permutation. exact Hj.
  - injection Hj as ->. cbn. apply insert_head_Permutation. exact Hi.
  - cbn. constructor. apply IH; assumption.
Qed.

(** A change at the end of a path that adds [extra] to the windows of the
    container there adds [extra] to the windows of the tree. *)
Lemma leaves_alter_at_Permutation (f : Container -> Container) (extra : list nat)
    (path : list nat) :
  forall c,
    is_Some (container_at c path) ->
    (forall x, container_at c path = Some x -> leaves (f x) ≡ₚ extra ++ leaves x) ->
    leaves (alter_at f c path) ≡ₚ extra ++ leaves c.
Proof.
  induction path as [| i path IH]; intros c Hvalid Hf; cbn [alter_at];
    [apply Hf; reflexivity |].
  destruct Hvalid as [x Hx].
  apply container_at_lane in Hx as (s & a & n & subs & child & -> & Hchild & Hx).
  cbn [leaves].
  rewrite (alter_middle _ subs i child Hchild), flat_map_app. cbn [flat_map].
  rewrite (flat_map_middle leaves subs i child Hchild).
  rewrite (IH child).
  - rewrite <- !app_assoc. rewrite (app_assoc _ extra).
    rewrite (Permutation_app_comm _ extra). rewrite <- !app_assoc. reflexivity.
  - eexists. exact Hx.
  - intros y Hy. apply Hf. cbn [container_at get_sub_nodes]. rewrite Hchild. exact Hy.
Qed.

Lemma leaves_swap_nodes (i j : nat) (lane : Container) :
  leaves (swap_nodes i j lane) ≡ₚ leaves lane.
Proof.
  destruct lane as [w a n | s a n subs]; [reflexivity |].
  cbn [swap_nodes with_sub_nodes leaves].
  destruct (subs !! i) as [x |] eqn:Hi; [| reflexivity].
  destruct (subs !! j) as [y |] eqn:Hj; [| reflexivity].
  apply Permutation_flat_map. apply swap_Permutation; assumption.
Qed.

Lemma leaves_graft_existing (node : Container) (index : nat) (lane : Container) :
  is_lane lane = true ->
  leaves (graft_existing node index lane) ≡ₚ leaves node ++ leaves lane.
Proof.
  destruct lane as [w a n | s a n subs]; [discriminate |]. intros _.
  cbn [graft_existing with_sub_nodes leaves].
  rewrite <- (take_drop index subs) at 3.
  rewrite !flat_map_app. cbn [flat_map].
  rewrite app_assoc, (Permutation_app_comm _ (leaves node)), <- app_assoc. reflexivity.
Qed.

Lemma leaves_commit_lanes (lanes : list ContainerRef) :
  forall root, leaves (fst (commit_lanes root lanes)) = leaves root.
Proof.
  induction lanes as [| lane rest IH]; intros root; cbn [commit_lanes]; [reflexivity |].
  unfold commit_lane.
  destruct (commit_lanes (update commit_area root lane) rest) as [root'' events'] eqn:Hrest.
  cbn [fst]. apply (f_equal fst) in Hrest. cbn [fst] in Hrest. rewrite <- Hrest, IH.
  apply leaves_update_same_structure. apply erase_geometry_commit_area.
Qed.

(** *** One removal, one deletion *)

Lemma delete_alter {A} (f : A -> A) (l : list A) (j : nat) :
  delete j (alter f j l) = delete j l.
Proof.
  revert j. induction l as [| x l IH]; intros [| j]; cbn; try reflexivity.
  f_equal. apply IH.
Qed.

(** Taking a child away undoes whatever was changed inside it. *)
Lemma delete_absorbs (g : Container -> Container) (path : list nat) (j : nat)
    (rest : list nat) :
  forall c,
    alter_at (with_sub_nodes (delete j)) (alter_at g c (path ++ j :: rest)) path
    = alter_at (with_sub_nodes (delete j)) c path.
Proof.
  induction path as [| i path IH]; intros [w a n | s a n subs]; cbn [app alter_at];
    try reflexivity.
  - cbn [with_sub_nodes]. rewrite delete_alter. reflexivity.
  - f_equal. rewrite list_alter_alter_eq. apply list_alter_ext; [| reflexivity].
    intros child _. apply IH.
Qed.

(** The cascade of [ParentContainer::remove] comes to a single deletion, at
    the site of the removal, of a child that lies on the way to the one the
    cascade started from. *)
Lemma ParentContainer_remove_at_site (lane : ContainerRef) :
  forall root index,
    (exists below,
        index :: lane
        = below ++ snd (removal_site root lane index) :: fst (removal_site root lane index))
    /\ ParentContainer_remove root lane index
       = update (with_sub_nodes (delete (snd (removal_site root lane index)))) root
           (fst (removal_site root lane index)).
Proof.
  induction lane as [| lane_index parent IH]; intros root index.
  - split; [exists []; reflexivity | reflexivity].
  - cbn [ParentContainer_remove removal_site].
    set (detached := update (with_sub_nodes (delete index)) root (lane_index :: parent)).
    destruct (resolve detached (lane_index :: parent)) as [[w a n | s a n [| sub rest]] |];
      try (split; [exists []; reflexivity | reflexivity]).
    destruct (IH detached lane_index) as [[below Hbelow] Hremove].
    destruct (removal_site detached parent lane_index) as [site_lane site_index].
    cbn [fst snd] in *. split.
    + exists (index :: below). cbn [app]. f_equal. exact Hbelow.
    + rewrite Hremove. unfold detached, update. rewrite Hbelow.
      rewrite rev_app_distr. cbn [rev]. rewrite <- app_assoc. cbn [app].
      apply delete_absorbs.
Qed.

Lemma handle_remove_at_site (root : Container) (node : ContainerRef)
    (site : ContainerRef * nat) :
  handle_remove_site root node = Some site ->
  (exists below, node = below ++ snd site :: fst site)
  /\ fst (handle_remove root node)
     = update (with_sub_nodes (delete (snd site))) root (fst site).
Proof.
  unfold handle_remove_site, handle_remove.
  destruct node as [| index parent]; [discriminate |].
  destruct (resolve root parent) as [[w a n | s a n subs] |]; try discriminate.
  destruct parent as [| parent_index grandparent];
    [| destruct (length subs =? 1)%nat]; intros [= <-].
  - exact (ParentContainer_remove_at_site [] root index).
  - destruct (ParentContainer_remove_at_site grandparent root parent_index)
      as [[below Hbelow] Hremove].
    split; [| exact Hremove]. exists (index :: below). cbn [app]. f_equal. exact Hbelow.
  - exact (ParentContainer_remove_at_site (parent_index :: grandparent) root index).
Qed.

(** *** References after a deletion *)

Lemma through_Some (lane r below : ContainerRef) (k : nat) :
  through lane r = Some (below, k) -> r = below ++ k :: lane.
Proof.
  unfold through. destruct (length r - length lane)%nat as [| m] eqn:Hm; [discriminate |].
  destruct (decide (drop (S m) r = lane)) as [Hdrop | Hdrop].
  - rewrite bool_decide_eq_true_2 by exact Hdrop.
    destruct (r !! m) as [k' |] eqn:Hk; [| discriminate]. intros [= <- <-].
    rewrite <- Hdrop. symmetry. apply take_drop_middle. exact Hk.
  - rewrite bool_decide_eq_false_2 by exact Hdrop. discriminate.
Qed.

Lemma through_below (lane below : ContainerRef) :
  below <> [] -> through lane (below ++ lane) <> None.
Proof.
  intros Hbelow. unfold through. rewrite length_app.
  destruct below as [| b below] using rev_ind; [congruence |]. clear IHbelow.
  rewrite length_app. cbn [length].
  replace (length below + 1 + length lane - length lane)%nat with (S (length below))
    by lia.
  rewrite <- app_assoc. cbn [app].
  rewrite bool_decide_eq_true_2.
  - rewrite list_lookup_middle by reflexivity. discriminate.
  - rewrite drop_app_ge by lia.
    replace (S (length below) - length below)%nat with 1%nat by lia. reflexivity.
Qed.

Lemma resolve_after_delete (root : Container) (lane below : ContainerRef) (j k : nat) :
  k <> j ->
  resolve (update (with_sub_nodes (delete j)) root lane)
          (below ++ (if (j <? k)%nat then (k - 1)%nat else k) :: lane)
  = resolve root (below ++ k :: lane).
Proof.
  intros Hne. unfold resolve, update.
  rewrite !rev_app_distr. cbn [rev]. rewrite <- !app_assoc. cbn [app].
  rewrite !container_at_app, container_at_alter_at.
  destruct (container_at root (rev lane)) as [[w a n | s a n subs] |];
    cbn [fmap option_fmap option_map container_at get_sub_nodes with_sub_nodes];
    [rewrite !lookup_nil; reflexivity | | reflexivity].
  destruct (Nat.ltb_spec j k).
  - rewrite list_lookup_delete_ge by lia. replace (S (k - 1)) with k by lia. reflexivity.
  - rewrite list_lookup_delete_lt by lia. reflexivity.
Qed.

(** A change at the end of a path leaves in place whatever does not lie
    strictly below that end. *)
Lemma container_at_alter_at_is_Some (f : Container -> Container) (p : list nat) :
  forall c q,
    is_Some (container_at c q) ->
    (forall rest, rest <> [] -> q <> p ++ rest) ->
    is_Some (container_at (alter_at f c p) q).
Proof.
  induction p as [| i p IH]; intros c q Hvalid Hoff.
  - destruct q as [| k q]; [eexists; reflexivity |].
    contradiction (Hoff (k :: q)); [discriminate | reflexivity].
  - destruct q as [| k q]; [eexists; reflexivity |].
    destruct Hvalid as [x Hx].
    apply container_at_lane in Hx as (s & a & n & subs & child & -> & Hchild & Hx).
    cbn [alter_at container_at get_sub_nodes].
    destruct (decide (k = i)) as [-> | Hne].
    + rewrite list_lookup_alter_eq, Hchild. cbn. apply IH; [eexists; exact Hx |].
      intros rest Hrest ->. apply (Hoff rest Hrest). reflexivity.
    + rewrite list_lookup_alter_ne by congruence. rewrite Hchild. eexists. exact Hx.
Qed.

(** What [after_remove] makes of a reference denotes a container of the
    tree the removal leaves. *)
Lemma after_remove_resolves (root : Container) (site : ContainerRef * nat)
    (r r' : ContainerRef) :
  is_Some (resolve root r) ->
  after_remove site r = Some r' ->
  is_Some (resolve (update (with_sub_nodes (delete (snd site))) root (fst site)) r').
Proof.
  intros Hvalid. unfold after_remove.
  destruct (through (fst site) r) as [[below k] |] eqn:Hthrough.
  - apply through_Some in Hthrough. subst r.
    destruct (Nat.eqb_spec k (snd site)) as [| Hne]; [discriminate |].
    pose proof (resolve_after_delete root (fst site) below (snd site) k Hne) as Hsame.
    destruct (snd site <? k)%nat; intros [= <-]; rewrite Hsame; exact Hvalid.
  - intros [= <-]. unfold resolve, update in *.
    apply container_at_alter_at_is_Some; [exact Hvalid |].
    intros rest Hrest Hr.
    apply (through_below (fst site) (rev rest)).
    + intros Hnil. apply Hrest. apply (f_equal (@rev nat)) in Hnil.
      rewrite rev_involutive in Hnil. exact Hnil.
    + apply (f_equal (@rev nat)) in Hr. rewrite rev_involutive, rev_app_distr in Hr.
      rewrite rev_involutive in Hr. rewrite <- Hr. exact Hthrough.
Qed.

(** *** The branches of [move_container] *)

Lemma flat_map_alter_Permutation {A B} (g : A -> list B) (f : A -> A) (l : list A)
    (i : nat) :
  (forall x, l !! i = Some x -> g (f x) ≡ₚ g x) ->
  flat_map g (alter f i l) ≡ₚ flat_map g l.
Proof.
  revert i. induction l as [| y l IH]; intros [| i] H; cbn; try reflexivity.
  - rewrite (H y eq_refl). reflexivity.
  - rewrite (IH i H). reflexivity.
Qed.

Lemma leaves_alter_at_rearranged (f : Container -> Container) (path : list nat) :
  forall c,
    (forall x, leaves (f x) ≡ₚ leaves x) ->
    leaves (alter_at f c path) ≡ₚ leaves c.
Proof.
  induction path as [| i path IH]; intros c Hf; cbn [alter_at]; [apply Hf |].
  destruct c as [w a n | s a n subs]; [reflexivity |].
  cbn [leaves]. apply flat_map_alter_Permutation. intros child _. apply IH. exact Hf.
Qed.

Lemma resolve_below_root_lane (root : Container) (index : nat) (parent : ContainerRef)
    (node : Container) :
  resolve root (index :: parent) = Some node -> is_lane root = true.
Proof.
  unfold resolve. cbn [rev].
  destruct (rev parent) as [| i path]; cbn [app]; intros H;
    apply container_at_lane in H as (s & a & n & subs & child & -> & _); reflexivity.
Qed.

Lemma is_lane_alter_at_with_sub_nodes (g : list Container -> list Container)
    (path : list nat) (c : Container) :
  is_lane c = true -> is_lane (alter_at (with_sub_nodes g) c path) = true.
Proof. destruct path, c; intros H; try discriminate; reflexivity. Qed.

Lemma handle_remove_site_is_Some (root : Container) (index : nat)
    (parent : ContainerRef) (node : Container) :
  resolve root (index :: parent) = Some node ->
  is_Some (handle_remove_site root (index :: parent)).
Proof.
  intros Hnode.
  destruct (resolve_parent_lane _ _ _ _ Hnode) as (s & a & n & subs & Hlane & _).
  unfold handle_remove_site. rewrite Hlane.
  destruct parent; [| destruct (length subs =? 1)%nat]; eexists; reflexivity.
Qed.

(** Taking a container out and putting it into the root lane keeps the
    windows. *)
Lemma graft_at_root_leaves (root : Container) (index : nat) (parent : ContainerRef)
    (moving_node : Container) (position : nat) :
  resolve root (index :: parent) = Some moving_node ->
  leaves (graft_existing moving_node position (fst (handle_remove root (index :: parent))))
  ≡ₚ leaves root.
Proof.
  intros Hnode.
  destruct (handle_remove_leaves _ _ _ _ Hnode) as (before & after & Hleaves & Hremoved).
  destruct (handle_remove_site_is_Some _ _ _ _ Hnode) as [site Hsite].
  destruct (handle_remove_at_site _ _ _ Hsite) as [_ Hat].
  rewrite leaves_graft_existing.
  - rewrite Hremoved, Hleaves.
    rewrite app_assoc, (Permutation_app_comm (leaves moving_node)), <- app_assoc.
    reflexivity.
  - rewrite Hat. unfold update. apply is_lane_alter_at_with_sub_nodes.
    exact (resolve_below_root_lane _ _ _ _ Hnode).
Qed.

(** Taking a container out and putting it next to another keeps the
    windows. *)
Lemma transfer_node_leaves (root : Container) (node to : ContainerRef)
    (root' : Container) (lanes : list ContainerRef) :
  is_Some (resolve root to) ->
  transfer_node root node to = Done (root', lanes) ->
  leaves root' ≡ₚ leaves root.
Proof.
  intros Hto. unfold transfer_node.
  destruct (resolve root node) as [moving_node |] eqn:Hnode; [| discriminate].
  destruct (handle_remove_site root node) as [site |] eqn:Hsite; [| discriminate].
  destruct (handle_remove root node) as [removed to_update] eqn:Hremove.
  destruct (after_remove site to) as [[| index target_parent] |] eqn:Hafter;
    try discriminate.
  intros [= <- _].
  destruct (handle_remove_at_site _ _ _ Hsite) as [_ Hat].
  rewrite Hremove in Hat. cbn [fst] in Hat.
  pose proof (after_remove_resolves root site to _ Hto Hafter) as [target Htarget].
  rewrite <- Hat in Htarget.
  destruct (resolve_parent_lane _ _ _ _ Htarget) as (s & a & n & subs & Hlane & _).
  destruct node as [| node_index node_parent]; [discriminate |].
  destruct (handle_remove_leaves _ _ _ _ Hnode) as (before & after & Hleaves & Hremoved).
  rewrite Hremove in Hremoved. cbn [fst] in Hremoved.
  unfold update.
  rewrite (leaves_alter_at_Permutation _ (leaves moving_node)).
  - rewrite Hremoved, Hleaves.
    rewrite app_assoc, (Permutation_app_comm (leaves moving_node)), <- app_assoc.
    reflexivity.
  - unfold resolve in Hlane. rewrite Hlane. eexists. reflexivity.
  - intros x Hx. unfold resolve in Hlane. rewrite Hlane in Hx. injection Hx as <-.
    apply leaves_graft_existing. reflexivity.
Qed.

(** What [handle_move] hands over to [move_container]. *)
Lemma handle_move_leaves (t : TilingWindowTree) (from : ContainerRef)
    (direction : Direction.t) (moved : Moved) :
  handle_move t from direction = Done moved ->
  leaves (root_lane (moved_tree moved)) = leaves (root_lane t)
  /\ (traversal (move_result moved) = traversal_type_insert ->
      moved_tree moved = t
      /\ moved_from moved = from
      /\ exists to,
          move_node (move_result moved) = Some to
          /\ is_Some (resolve (root_lane t) to)).
Proof.
  unfold handle_move.
  destruct (handle_select (root_lane t) from direction) as [[to |] |] eqn:Hselect;
    [| | discriminate].
  - intros [= <-]. cbn. split; [reflexivity |]. intros _.
    split; [reflexivity |]. split; [reflexivity |]. exists to. split; [reflexivity |].
    destruct from as [| index parent]; [discriminate |].
    destruct (handle_select_climb_leaf _ _ _ _ _ Hselect) as (w & a & n & Hleaf).
    rewrite Hleaf. eexists. reflexivity.
  - destruct from as [| index [| parent_index grandparent]].
    + intros [= <-]. cbn. split; [reflexivity |].
      destruct (is_negative_direction direction); discriminate.
    + destruct (root_lane t) as [w a n | s a n subs] eqn:Hroot; [discriminate |].
      destruct (LayoutScheme.eqb (from_direction direction) s).
      * intros [= <-]. cbn. split; [rewrite Hroot; reflexivity | discriminate].
      * destruct (recalculate_root_node_area _) as [t' events] eqn:Hrecalculate.
        intros [= <-]. cbn.
        split; [| destruct (is_negative_direction direction); discriminate].
        unfold recalculate_root_node_area in Hrecalculate.
        cbn [zones with_root root_lane] in Hrecalculate.
        destruct (zones t); injection Hrecalculate as <- _; cbn; rewrite ?Hroot; cbn;
          apply app_nil_r.
    + intros [= <-]. cbn. split; [reflexivity |].
      destruct (is_negative_direction direction); discriminate.
Qed.

(** X26.  Moving never loses, adds or duplicates a window: whenever
    [move_container] returns, refusing or not, the leaves of the tree carry
    the windows they carried before, in a possibly different order. *)
Theorem move_container_keeps_windows (t : TilingWindowTree) (direction : Direction.t)
    (container : ContainerRef) (result : Returned) :
  move_container t direction container = Done result ->
  leaves (root_lane (tree_after result)) ≡ₚ leaves (root_lane t).
Proof.
  unfold move_container.
  destruct (is_active_window_fullscreen t); [intros [= <-]; reflexivity |].
  destruct (handle_move t container direction) as [moved |] eqn:Hmove; [| discriminate].
  destruct (handle_move_leaves _ _ _ _ Hmove) as [Hkept Hinsert].
  rewrite <- Hkept.
  destruct (traversal (move_result moved)).
  - (* invalid *)
    intros [= <-]. reflexivity.
  - (* insert *)
    destruct (Hinsert eq_refl) as (Htree & _ & to & Hto & Hvalid).
    rewrite Hto, Htree. destruct to as [| target_index target_parent];
      [intros [= <-]; reflexivity |].
    destruct (moved_from moved) as [| index active_parent]; [discriminate |].
    destruct (bool_decide (active_parent = target_parent)).
    + destruct (commit_lanes _ _) as [root' events'] eqn:Hcommit.
      intros [= <-]. cbn [tree_after with_root root_lane].
      apply (f_equal fst) in Hcommit. cbn [fst] in Hcommit.
      rewrite <- Hcommit, leaves_commit_lanes. unfold update.
      apply leaves_alter_at_rearranged. intros x. apply leaves_swap_nodes.
    + destruct (transfer_node _ _ _) as [[root' lanes] |] eqn:Htransfer; [| discriminate].
      destruct (commit_lanes root' lanes) as [root'' events'] eqn:Hcommit.
      intros [= <-]. cbn [tree_after with_root root_lane].
      apply (f_equal fst) in Hcommit. cbn [fst] in Hcommit.
      rewrite <- Hcommit, leaves_commit_lanes.
      exact (transfer_node_leaves _ _ _ _ _ Hvalid Htransfer).
  - (* prepend *)
    destruct (moved_from moved) as [| index parent]; [discriminate |].
    destruct (resolve _ (index :: parent)) as [moving_node |] eqn:Hnode; [| discriminate].
    destruct (handle_remove _ (index :: parent)) as [removed to_update] eqn:Hremove.
    destruct (commit_lanes _ _) as [root' events'] eqn:Hcommit.
    intros [= <-]. cbn [tree_after with_root root_lane].
    apply (f_equal fst) in Hcommit. cbn [fst] in Hcommit.
    rewrite <- Hcommit, leaves_commit_lanes.
    apply (f_equal fst) in Hremove. cbn [fst] in Hremove. rewrite <- Hremove.
    apply graft_at_root_leaves. exact Hnode.
  - (* append *)
    destruct (moved_from moved) as [| index parent]; [discriminate |].
    destruct (resolve _ (index :: parent)) as [moving_node |] eqn:Hnode; [| discriminate].
    destruct (handle_remove _ (index :: parent)) as [removed to_update] eqn:Hremove.
    destruct (commit_lanes _ _) as [root' events'] eqn:Hcommit.
    intros [= <-]. cbn [tree_after with_root root_lane].
    apply (f_equal fst) in Hcommit. cbn [fst] in Hcommit.
    rewrite <- Hcommit, leaves_commit_lanes.
    apply (f_equal fst) in Hremove. cbn [fst] in Hremove. rewrite <- Hremove.
    apply graft_at_root_leaves. exact Hnode.
Qed.

(** X27.  A move within a lane is a swap.  When [handle_select] finds the
    target in the lane of the container itself, [move_container] succeeds
    and the two trade places: the container sits where the target was, the
    target where the container was, and every other child of the lane is
    where it was. *)
Theorem move_container_within_lane_swaps (t : TilingWindowTree) (direction : Direction.t)
    (index target : nat) (parent : ContainerRef) (node : Container) :
  is_active_window_fullscreen t = false ->
  resolve (root_lane t) (index :: parent) = Some node ->
  handle_select (root_lane t) (index :: parent) direction = Done (Some (target :: parent)) ->
  exists result,
    move_container t direction (index :: parent) = Done result
    /\ returned result = true
    /\ resolve (root_lane (tree_after result)) (target :: parent) = Some node
    /\ resolve (root_lane (tree_after result)) (index :: parent)
       = resolve (root_lane t) (target :: parent)
    /\ forall k,
        k <> index -> k <> target ->
        resolve (root_lane (tree_after result)) (k :: parent)
        = resolve (root_lane t) (k :: parent).
Proof.
  intros Hflag Hnode Hselect.
  assert (Hother : target <> index).
  { intros ->. cbn [handle_select] in Hselect.
    apply handle_select_climb_elsewhere in Hselect. apply Hselect. reflexivity. }
  destruct (handle_select_climb_leaf _ _ _ _ _ Hselect) as (w & a & n & Hleaf).
  destruct (resolve_parent_lane _ _ _ _ Hnode) as (s & la & ln & subs & Hlane & Hsub).
  rewrite resolve_cons, Hlane in Hleaf. cbn [get_sub_nodes] in Hleaf.
  unfold move_container, handle_move. rewrite Hflag, Hselect.
  cbn [moved_tree moved_from move_result traversal move_node moved_events].
  rewrite bool_decide_eq_true_2 by reflexivity.
  cbn [commit_lanes commit_lane].
  eexists. split; [reflexivity |]. cbn [returned tree_after with_root root_lane].
  split; [reflexivity |].
  assert (Hlane' :
            resolve (update commit_area
                       (update (swap_nodes index target) (root_lane t) parent) parent)
                    parent
            = Some (commit_area
                      (ParentContainer s la ln
                         (<[target := node]> (<[index := LeafContainer w a n]> subs))))).
  { unfold resolve, update in *. rewrite !container_at_alter_at, Hlane.
    cbn [fmap option_fmap option_map swap_nodes with_sub_nodes].
    rewrite Hsub, Hleaf. reflexivity. }
  assert (Hsubs : forall lane, get_sub_nodes (commit_area lane) = get_sub_nodes lane).
  { intros [? ? [|] | ? ? [|] ?]; reflexivity. }
  pose proof (lookup_lt_Some _ _ _ Hsub) as Hindex.
  pose proof (lookup_lt_Some _ _ _ Hleaf) as Htarget.
  rewrite !resolve_cons, Hlane', Hlane, Hsubs. cbn [get_sub_nodes].
  split; [| split].
  - apply list_lookup_insert_eq. rewrite length_insert. exact Htarget.
  - rewrite list_lookup_insert_ne by exact Hother.
    rewrite list_lookup_insert_eq by exact Hindex. symmetry. exact Hleaf.
  - intros k Hk Hk'. rewrite resolve_cons, Hlane', resolve_cons, Hlane, Hsubs.
    cbn [get_sub_nodes]. rewrite !list_lookup_insert_ne by congruence. reflexivity.
Qed.

(** X28.  For the children of the root [get_neighbors] is exact on all four
    sides: a child of a horizontal root has a neighbour on the left unless
    it is the first and on the right unless it is the last, and none above
    or below; for a vertical root the same holds with the sides turned; for
    a tabbing or stacking root there is none. *)
Theorem get_neighbors_of_root_children (scheme : LayoutScheme.t) (area : geom.Rectangle)
    (next : option geom.Rectangle) (sub_nodes : list Container) (index : nat) :
  (index < length sub_nodes)%nat ->
  Z.of_nat (length sub_nodes) < 2 ^ 64 ->
  let root := ParentContainer scheme area next sub_nodes in
  let along (axis : LayoutScheme.t) := LayoutScheme.eqb scheme axis in
  get_neighbors root [index]
  = [ along LayoutScheme.vertical && (0 <? index)%nat;
      along LayoutScheme.horizontal && (0 <? index)%nat;
      along LayoutScheme.vertical && (index + 1 <? length sub_nodes)%nat;
      along LayoutScheme.horizontal && (index + 1 <? length sub_nodes)%nat ].
Proof.
  intros Hindex Hbound root along. subst root along.
  unfold get_neighbors, has_top_neighbor, has_left_neighbor, has_bottom_neighbor,
    has_right_neighbor.
  cbn [has_neighbor]. rewrite resolve_nil.
  unfold to_size_t, size_t_sub.
  rewrite !Z.mod_small by lia.
  assert (Hfirst : (Z.of_nat index =? 0) = negb (0 <? index)%nat).
  { destruct index; [reflexivity |].
    cbn [Nat.ltb Nat.leb negb]. apply Z.eqb_neq. lia. }
  assert (Hlast : (Z.of_nat index =? Z.of_nat (length sub_nodes) - 1)
                  = negb (index + 1 <? length sub_nodes)%nat).
  { destruct (Nat.ltb_spec (index + 1) (length sub_nodes)); cbn [negb].
    - apply Z.eqb_neq. lia.
    - apply Z.eqb_eq. lia. }
  assert (Hmany : (index + 1 <? length sub_nodes)%nat = true ->
                  (1 <? length sub_nodes)%nat = true).
  { rewrite !Nat.ltb_lt. lia. }
  assert (Hmany' : (0 <? index)%nat = true -> (1 <? length sub_nodes)%nat = true).
  { rewrite !Nat.ltb_lt. lia. }
  rewrite Hfirst, Hlast, !negb_involutive.
  destruct scheme; cbn [LayoutScheme.eqb negb andb orb];
    rewrite ?orb_false_r;
    destruct (0 <? index)%nat, (index + 1 <? length sub_nodes)%nat;
    rewrite ?Hmany, ?Hmany' by reflexivity; cbn [andb]; rewrite ?andb_false_r;
    reflexivity.
Qed.

(** When [handle_select] answers a child of the lane the container is in,
    the step was made in that lane. *)
Lemma handle_select_same_lane_step (root : Container) (index target : nat)
    (parent : ContainerRef) (direction : Direction.t) :
  handle_select root (index :: parent) direction = Done (Some (target :: parent)) ->
  step_target root index parent direction = Some target.
Proof.
  cbn [handle_select]. rewrite handle_select_climb_unfold.
  destruct (resolve root parent) as [[w a n | s a n subs] |]; try discriminate.
  destruct (step_target root index parent direction) as [found |] eqn:Hstep.
  - destruct (subs !! found) as [sibling |]; [| discriminate].
    destruct (get_closest_window_to_select_from_node sibling direction) as [[leaf |] |];
      try discriminate.
    intros [= Hfound].
    assert (Hlen : length (leaf ++ found :: parent) = length (target :: parent))
      by (rewrite Hfound; reflexivity).
    rewrite length_app in Hlen. cbn [length] in Hlen.
    destruct leaf as [| ? ?]; [| cbn [length] in Hlen; lia].
    injection Hfound as ->. reflexivity.
  - destruct parent as [| parent_index grandparent]; cbn [handle_select];
      [discriminate |].
    intros Hclimb. exfalso.
    apply (handle_select_climb_elsewhere _ _ _ _ _ Hclimb). exists [target]. reflexivity.
Qed.

(** The step back: in a lane of the same scheme and the same number of
    children, the opposite direction leads from the target to where the
    step came from. *)
Lemma step_target_back (root root' : Container) (index target : nat)
    (parent : ContainerRef) (direction : Direction.t) (scheme : LayoutScheme.t)
    (area area' : geom.Rectangle) (next next' : option geom.Rectangle)
    (sub_nodes sub_nodes' : list Container) :
  resolve root parent = Some (ParentContainer scheme area next sub_nodes) ->
  resolve root' parent = Some (ParentContainer scheme area' next' sub_nodes') ->
  length sub_nodes' = length sub_nodes ->
  (index < length sub_nodes)%nat ->
  step_target root index parent direction = Some target ->
  step_target root' target parent (Direction.opposite direction) = Some index.
Proof.
  intros Hlane Hlane' Hlength Hindex. unfold step_target. rewrite Hlane, Hlane', Hlength.
  replace (select_axis_matches (Direction.opposite direction) scheme)
    with (select_axis_matches direction scheme) by (destruct direction; reflexivity).
  destruct (select_axis_matches direction scheme); [| discriminate].
  destruct direction; cbn [is_negative_direction Direction.opposite].
  all: repeat match goal with
         | |- context [(?a <? ?b)%nat] => destruct (Nat.ltb_spec a b)
         end; try discriminate; intros [= <-]; try lia; f_equal; lia.
Qed.

(** X29.  A move within a lane can be taken back: after such a move,
    [move_container] on the container in the opposite direction succeeds
    and puts every child of the lane where it was.  The tree is the one
    before the two moves, up to the commit of the lane; when nothing was
    staged for the lane it is that tree exactly. *)
Theorem move_container_there_and_back (t : TilingWindowTree) (direction : Direction.t)
    (index target : nat) (parent : ContainerRef) (node : Container) :
  is_active_window_fullscreen t = false ->
  resolve (root_lane t) (index :: parent) = Some node ->
  handle_select (root_lane t) (index :: parent) direction = Done (Some (target :: parent)) ->
  exists there back,
    move_container t direction (index :: parent) = Done there
    /\ move_container (tree_after there) (Direction.opposite direction) (target :: parent)
       = Done back
    /\ returned back = true
    /\ tree_after back = with_root t (update commit_area (root_lane t) parent)
    /\ (forall scheme area sub_nodes,
           resolve (root_lane t) parent
           = Some (ParentContainer scheme area None sub_nodes) ->
           tree_after back = t).
Proof.
  intros Hflag Hnode Hselect.
  assert (Hother : target <> index).
  { intros ->. cbn [handle_select] in Hselect.
    apply handle_select_climb_elsewhere in Hselect. apply Hselect. reflexivity. }
  pose proof (handle_select_same_lane_step _ _ _ _ _ Hselect) as Hstep.
  destruct (handle_select_climb_leaf _ _ _ _ _ Hselect) as (w & a & n & Hleaf).
  destruct (resolve_parent_lane _ _ _ _ Hnode) as (s & la & ln & subs & Hlane & Hsub).
  rewrite resolve_cons, Hlane in Hleaf. cbn [get_sub_nodes] in Hleaf.
  pose proof (lookup_lt_Some _ _ _ Hsub) as Hindex.
  pose proof (lookup_lt_Some _ _ _ Hleaf) as Htarget.
  set (leaf := LeafContainer w a n) in *.
  set (swapped := <[target := node]> (<[index := leaf]> subs)).
  set (root1 := update commit_area
                  (update (swap_nodes index target) (root_lane t) parent) parent).
  (* there *)
  assert (Hthere : exists events1,
             move_container t direction (index :: parent)
             = Done {| returned := true; tree_after := with_root t root1;
                       events := events1 |}).
  { unfold move_container, handle_move. rewrite Hflag, Hselect.
    cbn [moved_tree moved_from move_result traversal move_node moved_events].
    rewrite bool_decide_eq_true_2 by reflexivity.
    cbn [commit_lanes commit_lane]. eexists. reflexivity. }
  destruct Hthere as [events1 Hthere].
  assert (Hlane1 : resolve root1 parent
                   = Some (commit_area (ParentContainer s la ln swapped))).
  { unfold root1, resolve, update in *. rewrite !container_at_alter_at, Hlane.
    cbn [fmap option_fmap option_map swap_nodes with_sub_nodes].
    rewrite Hsub, Hleaf. reflexivity. }
  assert (Hcommitted : exists la', commit_area (ParentContainer s la ln swapped)
                                   = ParentContainer s la' None swapped).
  { destruct ln; eexists; reflexivity. }
  destruct Hcommitted as [la' Hcommitted]. rewrite Hcommitted in Hlane1.
  assert (Hlength : length swapped = length subs).
  { unfold swapped. rewrite !length_insert. reflexivity. }
  assert (Hat_index : swapped !! index = Some leaf).
  { unfold swapped. rewrite list_lookup_insert_ne by exact Hother.
    apply list_lookup_insert_eq. exact Hindex. }
  assert (Hat_target : swapped !! target = Some node).
  { unfold swapped. apply list_lookup_insert_eq. rewrite length_insert. exact Htarget. }
  (* the way back *)
  assert (Hselect' :
            handle_select root1 (target :: parent) (Direction.opposite direction)
            = Done (Some (index :: parent))).
  { cbn [handle_select]. rewrite handle_select_climb_unfold, Hlane1.
    rewrite (step_target_back (root_lane t) root1 index target parent direction s la la'
               ln None subs swapped Hlane Hlane1 Hlength Hindex Hstep).
    rewrite Hat_index. reflexivity. }
  set (root2 := update commit_area
                  (update (swap_nodes target index) root1 parent) parent).
  assert (Hback : exists events2,
             move_container (with_root t root1) (Direction.opposite direction)
               (target :: parent)
             = Done {| returned := true; tree_after := with_root t root2;
                       events := events2 |}).
  { unfold move_container, handle_move.
    cbn [with_root is_active_window_fullscreen root_lane]. rewrite Hflag, Hselect'.
    cbn [moved_tree moved_from move_result traversal move_node moved_events].
    rewrite bool_decide_eq_true_2 by reflexivity.
    cbn [commit_lanes commit_lane root_lane]. eexists. reflexivity. }
  destruct Hback as [events2 Hback].
  assert (Hroot2 : root2 = update commit_area (root_lane t) parent).
  { unfold root2, root1, update. rewrite !alter_at_compose. apply alter_at_ext.
    intros x Hx. unfold resolve in Hlane. rewrite Hlane in Hx. injection Hx as <-.
    cbn [swap_nodes with_sub_nodes]. rewrite Hsub, Hleaf. fold leaf swapped.
    rewrite Hcommitted. cbn [swap_nodes with_sub_nodes].
    rewrite Hat_index, Hat_target.
    replace (<[index := node]> (<[target := leaf]> swapped)) with subs.
    - destruct ln; cbn in Hcommitted |- *; injection Hcommitted as <-; reflexivity.
    - apply list_eq. intros k. unfold swapped.
      destruct (decide (k = index)) as [-> | Hk].
      + rewrite list_lookup_insert_eq by (rewrite !length_insert; exact Hindex).
        exact Hsub.
      + rewrite list_lookup_insert_ne by congruence.
        destruct (decide (k = target)) as [-> | Hk'].
        * rewrite list_lookup_insert_eq by (rewrite !length_insert; exact Htarget).
          exact Hleaf.
        * rewrite !list_lookup_insert_ne by congruence. reflexivity. }
  eexists. eexists. split; [exact Hthere |]. cbn [tree_after].
  split; [exact Hback |]. cbn [returned tree_after].
  split; [reflexivity |]. rewrite Hroot2. split; [reflexivity |].
  intros scheme area sub_nodes Hclean. unfold update. rewrite alter_at_same.
  - unfold with_root. apply tree_eta.
  - intros x Hx. unfold resolve in Hclean. rewrite Hclean in Hx. injection Hx as <-.
    reflexivity.
Qed.

(** *** No move runs into undefined behaviour *)

(** A change at the end of a path does not touch a leaf that lies off the
    path. *)
Lemma container_at_alter_at_off_path (f : Container -> Container) (p : list nat) :
  forall c q window area next,
    container_at c q = Some (LeafContainer window area next) ->
    is_Some (container_at c p) ->
    (forall rest, q <> p ++ rest) ->
    container_at (alter_at f c p) q = container_at c q.
Proof.
  induction p as [| i p IH]; intros c q w a n Hleaf Hvalid Hoff.
  - contradiction (Hoff q). reflexivity.
  - destruct Hvalid as [x Hx].
    apply container_at_lane in Hx as (s & la & ln & subs & child & -> & Hchild & Hx).
    destruct q as [| k q]; [discriminate |].
    cbn [alter_at container_at get_sub_nodes] in *.
    destruct (decide (k = i)) as [-> | Hne].
    + rewrite list_lookup_alter_eq, Hchild in *. cbn.
      apply (IH child q w a n Hleaf); [eexists; exact Hx |].
      intros rest ->. apply (Hoff rest). reflexivity.
    + rewrite list_lookup_alter_ne by congruence. reflexivity.
Qed.

Lemma resolve_below (root : Container) (below : ContainerRef) (k : nat)
    (lane : ContainerRef) :
  resolve root (below ++ k :: lane)
  = match resolve root lane with
    | Some c =>
        match get_sub_nodes c !! k with
        | Some child => container_at child (rev below)
        | None => None
        end
    | None => None
    end.
Proof.
  unfold resolve. rewrite rev_app_distr. cbn [rev]. rewrite <- app_assoc. cbn [app].
  rewrite container_at_app. destruct (container_at root (rev lane)); reflexivity.
Qed.

(** A lane that is empty once a child is taken away had that child only. *)
Lemma emptied_lane_had_one_child (root : Container) (lane : ContainerRef) (index : nat)
    (scheme : LayoutScheme.t) (area : geom.Rectangle) (next : option geom.Rectangle) :
  is_Some (resolve root (index :: lane)) ->
  resolve (update (with_sub_nodes (delete index)) root lane) lane
  = Some (ParentContainer scheme area next []) ->
  index = 0%nat
  /\ exists only_child, resolve root lane = Some (ParentContainer scheme area next [only_child]).
Proof.
  intros [node Hnode].
  destruct (resolve_parent_lane _ _ _ _ Hnode) as (s & a & n & subs & Hlane & Hsub).
  unfold resolve, update in *. rewrite container_at_alter_at, Hlane.
  cbn [fmap option_fmap option_map with_sub_nodes]. intros [= -> -> -> Hdeleted].
  pose proof (lookup_lt_Some _ _ _ Hsub) as Hindex.
  apply (f_equal (@length Container)) in Hdeleted.
  rewrite length_delete in Hdeleted by (eexists; exact Hsub). cbn [length] in Hdeleted.
  destruct subs as [| only_child [| ? ?]]; cbn [length] in *; try lia.
  split; [lia |]. exists only_child. reflexivity.
Qed.

(** The only leaves at or below the site of a removal are the leaves at or
    below the child the removal started from: the lanes the cascade takes
    away held nothing else. *)
Lemma removal_site_leaves (lane : ContainerRef) :
  forall root index r window area next,
    is_Some (resolve root (index :: lane)) ->
    resolve root r = Some (LeafContainer window area next) ->
    (snd (removal_site root lane index) :: fst (removal_site root lane index))
      `suffix_of` r ->
    (index :: lane) `suffix_of` r.
Proof.
  induction lane as [| lane_index parent IH]; intros root index r w a n Hvalid Hleaf;
    [intros H; exact H |].
  cbn [removal_site].
  set (detached := update (with_sub_nodes (delete index)) root (lane_index :: parent)).
  destruct (resolve detached (lane_index :: parent))
    as [[w' a' n' | s a' n' [| sub rest]] |] eqn:Hemptied; try (intros H; exact H).
  destruct (emptied_lane_had_one_child _ _ _ _ _ _ Hvalid Hemptied)
    as [-> [only_child Hlane]].
  intros Hsite.
  destruct (decide ((0%nat :: lane_index :: parent) `suffix_of` r)) as [| Hoff];
    [assumption | exfalso].
  (* [r] is not below the lane, so the detachment leaves it alone *)
  assert (Hbelow : forall below k, r = below ++ k :: lane_index :: parent -> False).
  { intros below k ->. apply Hoff.
    assert (k = 0%nat) as ->; [| exists below; reflexivity].
    rewrite resolve_below, Hlane in Hleaf. cbn [get_sub_nodes] in Hleaf.
    destruct k as [| k]; [reflexivity |].
    rewrite lookup_cons, lookup_nil in Hleaf. discriminate. }
  assert (Hleaf' : resolve detached r = Some (LeafContainer w a n)).
  { unfold detached, resolve, update in *. rewrite <- Hleaf.
    apply (container_at_alter_at_off_path _ _ _ _ w a n Hleaf).
    - rewrite Hlane. eexists. reflexivity.
    - intros rest Hr. apply (f_equal (@rev nat)) in Hr.
      rewrite rev_involutive, rev_app_distr, rev_involutive in Hr.
      destruct (rev rest) as [| k below] using rev_ind.
      + cbn [app] in Hr. subst r. rewrite Hlane in Hleaf. discriminate.
      + clear IHbelow. rewrite <- app_assoc in Hr. cbn [app] in Hr.
        exact (Hbelow _ _ Hr). }
  assert (Hvalid' : is_Some (resolve detached (lane_index :: parent)))
    by (rewrite Hemptied; eexists; reflexivity).
  destruct (IH detached lane_index r w a n Hvalid' Hleaf' Hsite) as [below Hr].
  destruct below as [| k below] using rev_ind.
  - cbn [app] in Hr. subst r. rewrite Hlane in Hleaf. discriminate.
  - clear IHbelow. rewrite <- app_assoc in Hr. cbn [app] in Hr. exact (Hbelow _ _ Hr).
Qed.

Lemma handle_remove_site_leaves (root : Container) (index : nat) (parent : ContainerRef)
    (site : ContainerRef * nat) (r : ContainerRef) (window : nat)
    (area : geom.Rectangle) (next : option geom.Rectangle) :
  is_Some (resolve root (index :: parent)) ->
  handle_remove_site root (index :: parent) = Some site ->
  resolve root r = Some (LeafContainer window area next) ->
  (snd site :: fst site) `suffix_of` r ->
  (index :: parent) `suffix_of` r.
Proof.
  intros Hvalid. pose proof Hvalid as [node Hnode].
  destruct (resolve_parent_lane _ _ _ _ Hnode) as (s & a & n & subs & Hlane & Hsub).
  unfold handle_remove_site. rewrite Hlane.
  destruct parent as [| parent_index grandparent];
    [| destruct (Nat.eqb_spec (length subs) 1) as [Hone | Hmany]];
    intros [= <-] Hleaf Hsite.
  - exact Hsite.
  - assert (Hparent : is_Some (resolve root (parent_index :: grandparent)))
      by (rewrite Hlane; eexists; reflexivity).
    destruct (removal_site_leaves grandparent root parent_index r window area next
                Hparent Hleaf Hsite) as [below Hr].
    destruct below as [| k below] using rev_ind.
    + cbn [app] in Hr. subst r. rewrite Hlane in Hleaf. discriminate.
    + clear IHbelow. rewrite <- app_assoc in Hr. cbn [app] in Hr. subst r.
      exists below. f_equal. f_equal.
      rewrite resolve_below, Hlane in Hleaf. cbn [get_sub_nodes] in Hleaf.
      apply lookup_lt_Some in Hsub.
      destruct (subs !! k) eqn:Hk; [| discriminate]. apply lookup_lt_Some in Hk. lia.
  - exact (removal_site_leaves (parent_index :: grandparent) root index r window area
             next Hvalid Hleaf Hsite).
Qed.

Lemma transfer_node_defined (root : Container) (index : nat) (parent to : ContainerRef)
    (window : nat) (area : geom.Rectangle) (next : option geom.Rectangle) :
  is_Some (resolve root (index :: parent)) ->
  resolve root to = Some (LeafContainer window area next) ->
  ~ (index :: parent) `suffix_of` to ->
  exists root' lanes, transfer_node root (index :: parent) to = Done (root', lanes).
Proof.
  intros Hvalid Hleaf Helsewhere. pose proof Hvalid as [node Hnode].
  destruct (handle_remove_site_is_Some _ _ _ _ Hnode) as [site Hsite].
  unfold transfer_node. rewrite Hnode, Hsite.
  destruct (handle_remove root (index :: parent)) as [removed to_update].
  assert (Hafter : exists to_index to_parent,
             after_remove site to = Some (to_index :: to_parent)).
  { unfold after_remove.
    destruct (through (fst site) to) as [[below k] |] eqn:Hthrough.
    - apply through_Some in Hthrough.
      destruct (Nat.eqb_spec k (snd site)) as [-> | Hne].
      + contradiction Helsewhere.
        apply (handle_remove_site_leaves root index parent site to window area next
                 Hvalid Hsite Hleaf).
        exists below. exact Hthrough.
      + destruct (snd site <? k)%nat.
        * destruct below; eexists; eexists; reflexivity.
        * subst to. destruct below; eexists; eexists; reflexivity.
    - destruct to as [| to_index to_parent]; [| eexists; eexists; reflexivity].
      apply resolve_below_root_lane in Hnode. rewrite resolve_nil in Hleaf.
      injection Hleaf as ->. discriminate. }
  destruct Hafter as (to_index & to_parent & ->).
  eexists. eexists. reflexivity.
Qed.

(** What [handle_move] answers for a container of a tree without empty
    internal lanes. *)
Lemma handle_move_defined (t : TilingWindowTree) (index : nat) (parent : ContainerRef)
    (direction : Direction.t) :
  internal_lanes_nonempty (root_lane t) = true ->
  is_Some (resolve (root_lane t) (index :: parent)) ->
  exists moved,
    handle_move t (index :: parent) direction = Done moved
    /\ match traversal (move_result moved) with
       | traversal_type_invalid => True
       | traversal_type_insert =>
           moved_tree moved = t
           /\ moved_from moved = index :: parent
           /\ exists to,
               move_node (move_result moved) = Some to
               /\ handle_select (root_lane t) (index :: parent) direction
                  = Done (Some to)
       | _ =>
           exists moved_index moved_parent,
             moved_from moved = moved_index :: moved_parent
             /\ is_Some (resolve (root_lane (moved_tree moved))
                           (moved_index :: moved_parent))
       end.
Proof.
  intros Hroot Hvalid.
  destruct (handle_select_defined_without_empty_lanes _ _ direction Hroot Hvalid)
    as [[to |] Hselect]; unfold handle_move; rewrite Hselect.
  - eexists. split; [reflexivity |]. cbn. repeat split. exists to. split; reflexivity.
  - destruct parent as [| parent_index grandparent].
    + destruct Hvalid as [node Hnode]. pose proof Hnode as Hlane.
      apply resolve_below_root_lane in Hlane.
      destruct (root_lane t) as [w a n | s a n subs] eqn:Hroot_lane; [discriminate |].
      destruct (LayoutScheme.eqb (from_direction direction) s).
      * eexists. split; [reflexivity |]. exact I.
      * destruct (recalculate_root_node_area _) as [t' logged] eqn:Hrecalculate.
        eexists. split; [reflexivity |].
        cbn [move_result traversal moved_from moved_tree app].
        assert (Hthere : is_Some (resolve (root_lane t') [index; 0%nat])).
        { unfold recalculate_root_node_area in Hrecalculate.
          cbn [zones with_root root_lane] in Hrecalculate.
          rewrite resolve_cons, resolve_nil in Hnode. cbn [get_sub_nodes] in Hnode.
          destruct (zones t); injection Hrecalculate as <- _;
            cbn; unfold resolve; cbn; rewrite Hnode; eexists; reflexivity. }
        destruct (is_negative_direction direction); exists index, [0%nat];
          (split; [reflexivity | exact Hthere]).
    + eexists. split; [reflexivity |].
      cbn [move_result traversal moved_from moved_tree].
      destruct (is_negative_direction direction);
        exists index, (parent_index :: grandparent); (split; [reflexivity | exact Hvalid]).
Qed.

(** X30.  In a tree none of whose internal lanes is empty, [move_container]
    on a container other than the root never runs into undefined behaviour,
    whatever the direction: the leaf [handle_select] finds is never part of
    what the removal of the container takes out of the tree, so that its
    parent is still there for the graft; and the call returns. *)
Theorem move_container_is_defined (t : TilingWindowTree) (direction : Direction.t)
    (index : nat) (parent : ContainerRef) :
  internal_lanes_nonempty (root_lane t) = true ->
  is_Some (resolve (root_lane t) (index :: parent)) ->
  exists result, move_container t direction (index :: parent) = Done result.
Proof.
  intros Hroot Hvalid. unfold move_container.
  destruct (is_active_window_fullscreen t); [eexists; reflexivity |].
  destruct (handle_move_defined t index parent direction Hroot Hvalid)
    as (moved & -> & Hmoved).
  destruct (traversal (move_result moved)).
  - eexists. reflexivity.
  - destruct Hmoved as (-> & -> & to & -> & Hselect).
    destruct to as [| target_index target_parent]; [eexists; reflexivity |].
    destruct (bool_decide (parent = target_parent)).
    + destruct (commit_lanes _ _). eexists. reflexivity.
    + destruct (handle_select_climb_leaf _ _ _ _ _ Hselect) as (w & a & n & Hleaf).
      destruct (transfer_node_defined (root_lane t) index parent
                  (target_index :: target_parent) w a n Hvalid Hleaf)
        as (root' & lanes & ->).
      * cbn [handle_select] in Hselect.
        exact (handle_select_climb_elsewhere _ _ _ _ _ Hselect).
      * destruct (commit_lanes root' lanes). eexists. reflexivity.
  - destruct Hmoved as (moved_index & moved_parent & -> & [node ->]).
    destruct (handle_remove _ _). destruct (commit_lanes _ _). eexists. reflexivity.
  - destruct Hmoved as (moved_index & moved_parent & -> & [node ->]).
    destruct (handle_remove _ _). destruct (commit_lanes _ _). eexists. reflexivity.
Qed.

(** ** The further properties at work on the sample trees *)

(** Growing the first leaf of the right-hand column of [column_tree]
    downwards by 50: 200, 200, 200 become 250, 175, 175. *)
Lemma handle_resize_siblings_tile_lane_witness :
  let root' :=
    fst (handle_resize (fun _ => 0) (fun _ => 0) column_tree [0%nat; 1%nat]
           Direction.down 50) in
  exists lane',
    resolve root' [1%nat] = Some lane'
    /\ areas_of lane' = [rect 500 0 500 250; rect 500 250 500 175; rect 500 425 500 175]
    /\ sum_extents true (areas_of lane') = 600
    /\ contiguous true (areas_of lane').
Proof.
  cbv zeta.
  destruct (handle_resize_siblings_tile_lane (fun _ => 0) (fun _ => 0) column_tree
              0%nat [1%nat] Direction.down 50 LayoutScheme.vertical (rect 500 0 500 600)
              None
              [ LeafContainer 2 (rect 500 0 500 200) None;
                LeafContainer 3 (rect 500 200 500 200) None;
                LeafContainer 4 (rect 500 400 500 200) None ]
              eq_refl eq_refl)
    as [Hrefused | (lane' & Hresolve & _ & _ & Hsum & Hcontiguous)].
  - cbn [length]. lia.
  - vm_compute in Hrefused. discriminate.
  - exists lane'. split; [exact Hresolve |].
    split; [| split; [exact Hsum | exact Hcontiguous]].
    vm_compute in Hresolve. injection Hresolve as <-. reflexivity.
Defined.

Lemma handle_resize_keeps_cross_axis_witness :
  let root' :=
    fst (handle_resize (fun _ => 0) (fun _ => 0) column_tree [0%nat; 1%nat]
           Direction.down 50) in
  resolve column_tree [1%nat; 1%nat] = Some (LeafContainer 3 (rect 500 200 500 200) None)
  /\ resolve root' [1%nat; 1%nat] = Some (LeafContainer 3 (rect 500 250 500 175) None)
  /\ extent false (rect 500 250 500 175) = extent false (rect 500 200 500 200)
  /\ origin false (rect 500 250 500 175) = origin false (rect 500 200 500 200).
Proof.
  cbv zeta. split; [reflexivity |]. split; [reflexivity |].
  destruct (handle_resize_keeps_cross_axis (fun _ => 0) (fun _ => 0) column_tree
              0%nat [1%nat] Direction.down 50 LayoutScheme.vertical (rect 500 0 500 600)
              None
              [ LeafContainer 2 (rect 500 0 500 200) None;
                LeafContainer 3 (rect 500 200 500 200) None;
                LeafContainer 4 (rect 500 400 500 200) None ]
              1%nat (LeafContainer 3 (rect 500 200 500 200) None)
              (LeafContainer 3 (rect 500 250 500 175) None)
              eq_refl eq_refl eq_refl eq_refl)
    as (Hextent & Horigin & _).
  split; [exact Hextent | exact Horigin].
Defined.

Lemma handle_resize_respects_minimum_witness :
  let root' :=
    fst (handle_resize (fun _ => 0) (fun _ => 0) column_tree [0%nat; 1%nat]
           Direction.down 50) in
  resolve root' [1%nat; 1%nat] = Some (LeafContainer 3 (rect 500 250 500 175) None)
  /\ get_min (fun _ => 0) (fun _ => 0) true (LeafContainer 3 (rect 500 200 500 200) None)
     < extent true (rect 500 250 500 175).
Proof.
  cbv zeta. split; [reflexivity |].
  destruct (handle_resize_respects_minimum (fun _ => 0) (fun _ => 0) column_tree
              0%nat [1%nat] Direction.down 50 LayoutScheme.vertical (rect 500 0 500 600)
              None
              [ LeafContainer 2 (rect 500 0 500 200) None;
                LeafContainer 3 (rect 500 200 500 200) None;
                LeafContainer 4 (rect 500 400 500 200) None ]
              eq_refl eq_refl)
    as [Hrefused | Habove].
  - cbn [length]. lia.
  - cbn [length]. lia.
  - reflexivity.
  - intros [| [| [| k]]] node Hnode; cbn in Hnode; try discriminate;
      injection Hnode as <-; vm_compute; split; congruence.
  - vm_compute in Hrefused. discriminate.
  - exact (Habove 1%nat (LeafContainer 3 (rect 500 200 500 200) None)
             (LeafContainer 3 (rect 500 250 500 175) None) eq_refl eq_refl).
Defined.

Lemma handle_resize_off_axis_does_nothing_witness :
  handle_resize (fun _ => 0) (fun _ => 0) tabbed_tree [1%nat] Direction.right 50
  = (tabbed_tree, []).
Proof.
  apply (handle_resize_off_axis_does_nothing (fun _ => 0) (fun _ => 0) tabbed_tree
           [1%nat] Direction.right 50).
  reflexivity.
Defined.

Lemma handle_resize_there_and_back_witness :
  let there :=
    handle_resize (fun _ => 0) (fun _ => 0) column_tree [0%nat; 1%nat] Direction.down 50 in
  let back :=
    handle_resize (fun _ => 0) (fun _ => 0) (fst there) [0%nat; 1%nat] Direction.up 50 in
  (exists lane,
      resolve (fst there) [1%nat] = Some lane
      /\ areas_of lane
         = [rect 500 0 500 250; rect 500 250 500 175; rect 500 425 500 175])
  /\ exists lane,
      resolve (fst back) [1%nat] = Some lane
      /\ areas_of lane
         = [rect 500 0 500 200; rect 500 200 500 200; rect 500 400 500 200].
Proof.
  cbv zeta. split; [eexists; split; reflexivity |].
  apply (handle_resize_there_and_back (fun _ => 0) (fun _ => 0) column_tree 0%nat
           [1%nat] Direction.down 50 LayoutScheme.vertical (rect 500 0 500 600) None
           [ LeafContainer 2 (rect 500 0 500 200) None;
             LeafContainer 3 (rect 500 200 500 200) None;
             LeafContainer 4 (rect 500 400 500 200) None ]).
  - reflexivity.
  - reflexivity.
  - cbn [length]. lia.
  - cbn [length]. lia.
  - exists 25. reflexivity.
  - reflexivity.
  - intros [| [| [| k]]] a b Ha Hb; cbn in Ha, Hb; try discriminate;
      injection Ha as <-; injection Hb as <-; reflexivity.
  - vm_compute. discriminate.
  - vm_compute. discriminate.
Defined.

Lemma get_closest_window_returns_leaf_below_witness :
  let lane :=
    ParentContainer LayoutScheme.vertical (rect 500 0 500 600) None
      [ LeafContainer 2 (rect 500 0 500 200) None;
        LeafContainer 3 (rect 500 200 500 200) None;
        LeafContainer 4 (rect 500 400 500 200) None ] in
  get_closest_window_to_select_from_node lane Direction.up = Done (Some [2%nat])
  /\ exists window area next,
      container_at lane (rev [2%nat]) = Some (LeafContainer window area next).
Proof.
  cbv zeta. split; [reflexivity |].
  apply (get_closest_window_returns_leaf_below _ Direction.up [2%nat]). reflexivity.
Defined.

Lemma handle_select_returns_another_leaf_witness :
  handle_select column_tree [0%nat] Direction.right = Done (Some [0%nat; 1%nat])
  /\ (exists window area next,
         resolve column_tree [0%nat; 1%nat] = Some (LeafContainer window area next))
  /\ ~ [0%nat] `suffix_of` [0%nat; 1%nat].
Proof.
  split; [reflexivity |].
  apply (handle_select_returns_another_leaf column_tree [0%nat] Direction.right
           [0%nat; 1%nat]).
  reflexivity.
Defined.

Lemma handle_select_is_defined_witness :
  internal_lanes_nonempty column_tree = true
  /\ exists result, handle_select column_tree [2%nat; 1%nat] Direction.down = Done result.
Proof.
  split; [reflexivity |].
  apply (handle_select_is_defined column_tree [2%nat; 1%nat] Direction.down).
  - reflexivity.
  - eexists. reflexivity.
Defined.

Lemma committed_area_becomes_visible_witness :
  get_visible_area sample_config column_tree [1%nat; 1%nat] = Some (rect 507 207 486 186)
  /\ get_visible_area sample_config
       (update (set_logical_area (rect 500 250 500 175)) column_tree [1%nat; 1%nat])
       [1%nat; 1%nat]
     = Some (rect 507 207 486 186)
  /\ get_visible_area sample_config
       (update commit_area
          (update (set_logical_area (rect 500 250 500 175)) column_tree [1%nat; 1%nat])
          [1%nat; 1%nat])
       [1%nat; 1%nat]
     = Some (rect 507 257 486 161).
Proof.
  split; [reflexivity |]. split; [reflexivity |].
  rewrite (committed_area_becomes_visible sample_config column_tree [1%nat; 1%nat]
             3%nat (rect 500 200 500 200) None (rect 500 250 500 175) eq_refl).
  reflexivity.
Defined.

Lemma visible_area_within_logical_area_witness :
  exists visible,
    get_visible_area sample_config column_tree [1%nat; 1%nat] = Some visible
    /\ within visible (rect 500 200 500 200).
Proof.
  apply (visible_area_within_logical_area sample_config column_tree [1%nat; 1%nat]
           3%nat (rect 500 200 500 200) None).
  - cbn. lia.
  - cbn. lia.
  - cbn. lia.
  - reflexivity.
Defined.

Lemma get_neighbors_left_and_top_exact_witness :
  neighbor_at (get_neighbors column_tree [1%nat; 1%nat]) Direction.up = true
  /\ neighbor_at (get_neighbors column_tree [0%nat; 1%nat]) Direction.up = false.
Proof.
  split; [| reflexivity].
  assert (Hvalid : is_Some (resolve column_tree [1%nat; 1%nat]))
    by (eexists; reflexivity).
  assert (Hbound : Forall (fun index => Z.of_nat index < 2 ^ 64) [1%nat; 1%nat])
    by (repeat constructor).
  apply (proj2 (get_neighbors_left_and_top_exact column_tree [1%nat; 1%nat] Direction.up
                  eq_refl Hvalid Hbound)).
  exists [], 1%nat, [1%nat], (rect 500 0 500 600), None,
    [ LeafContainer 2 (rect 500 0 500 200) None;
      LeafContainer 3 (rect 500 200 500 200) None;
      LeafContainer 4 (rect 500 400 500 200) None ].
  repeat split; cbn [length]; lia.
Defined.

Lemma toggle_fullscreen_twice_restores_witness :
  let t := sample_tree column_tree false in
  let state := {| active := Some (in_tree [0%nat]) |} in
  exists first second,
    toggle_fullscreen t state [0%nat] = Done first
    /\ is_active_window_fullscreen (advised_tree first) = true
    /\ toggle_fullscreen (advised_tree first) state [0%nat] = Done second
    /\ advised_tree second = t.
Proof.
  cbv zeta.
  destruct (toggle_fullscreen_twice_restores (sample_tree column_tree false)
              {| active := Some (in_tree [0%nat]) |} [0%nat] 1%nat (rect 0 0 500 600) None
              eq_refl eq_refl eq_refl)
    as (first & second & Hfirst & Hflag & Hsecond & _ & Hsame).
  exists first, second. repeat split; try assumption. apply Hsame. reflexivity.
Defined.

Lemma toggle_fullscreen_needs_active_leaf_witness :
  let t := sample_tree column_tree true in
  let state := {| active := Some (in_tree [0%nat]) |} in
  exists result,
    toggle_fullscreen t state [0%nat; 1%nat] = Done result
    /\ advised result = true
    /\ advised_tree result = t
    /\ advised_effects result = [].
Proof.
  cbv zeta.
  destruct (toggle_fullscreen_needs_active_leaf (fun _ => 0) (fun _ => 0)
              (sample_tree column_tree true)
              {| active := Some (in_tree [0%nat]) |} [0%nat; 1%nat] 2%nat
              (rect 500 0 500 200) None eq_refl eq_refl)
    as (result & Hresult & Hadvised & Htree & Heffects & _).
  - intros active_leaf Hactive. vm_compute in Hactive. injection Hactive as <-.
    vm_compute. discriminate.
  - exists result. auto.
Defined.

Lemma advise_delete_window_clears_fullscreen_witness :
  let t := sample_tree column_tree true in
  let state := {| active := Some (in_tree [0%nat; 1%nat]) |} in
  exists t' events,
    advise_delete_window t state [0%nat; 1%nat] = Done (t', events)
    /\ leaves (root_lane t') = [1%nat; 3%nat; 4%nat]
    /\ is_active_window_fullscreen t' = false.
Proof.
  cbv zeta.
  destruct (proj1 (advise_delete_window_clears_fullscreen (sample_tree column_tree true)
                     {| active := Some (in_tree [0%nat; 1%nat]) |})
              0%nat [1%nat] (LeafContainer 2 (rect 500 0 500 200) None) eq_refl)
    as (t' & events & before & after & Hdelete & _ & _ & Hflag & _).
  exists t', events. split; [exact Hdelete |]. split; [| apply Hflag; reflexivity].
  vm_compute in Hdelete. injection Hdelete as <- _. reflexivity.
Defined.

Lemma toggle_layout_twice_restores_witness :
  let t := sample_tree (single_leaf_root LayoutScheme.horizontal) false in
  fst (toggle_layout t [0%nat]) = sample_tree (single_leaf_root LayoutScheme.vertical) false
  /\ toggle_layout (fst (toggle_layout t [0%nat])) [0%nat] = (t, []).
Proof.
  cbv zeta. split; [reflexivity |].
  apply (toggle_layout_twice_restores
           (sample_tree (single_leaf_root LayoutScheme.horizontal) false) 0%nat []
           LayoutScheme.horizontal (rect 0 0 1000 600) None
           (LeafContainer 1 (rect 0 0 1000 600) None) eq_refl eq_refl).
  left. reflexivity.
Defined.

Lemma is_empty_iff_no_window_witness :
  is_empty (sample_tree column_tree false) = false
  /\ leaves column_tree <> [].
Proof.
  split; [reflexivity |]. intros Hnone.
  apply (proj2 (is_empty_iff_no_window (sample_tree column_tree false) eq_refl eq_refl))
    in Hnone.
  discriminate Hnone.
Defined.

(** Moving the last leaf of the right-hand column of [column_tree] to the
    left puts it next to the leaf on the left. *)
Lemma move_container_keeps_windows_witness :
  match move_container (sample_tree column_tree false) Direction.left [2%nat; 1%nat] with
  | Done result =>
      leaves (root_lane (tree_after result)) = [1%nat; 4%nat; 2%nat; 3%nat]
      /\ leaves (root_lane (tree_after result)) ≡ₚ [1%nat; 2%nat; 3%nat; 4%nat]
  | Undefined => False
  end.
Proof.
  destruct (move_container (sample_tree column_tree false) Direction.left [2%nat; 1%nat])
    as [result |] eqn:Hmove.
  - split.
    + vm_compute in Hmove. injection Hmove as <-. reflexivity.
    + exact (move_container_keeps_windows _ _ _ _ Hmove).
  - vm_compute in Hmove. discriminate.
Defined.

Lemma move_container_within_lane_swaps_witness :
  exists result,
    move_container (sample_tree column_tree false) Direction.down [0%nat; 1%nat]
    = Done result
    /\ resolve (root_lane (tree_after result)) [1%nat; 1%nat]
       = Some (LeafContainer 2 (rect 500 0 500 200) None)
    /\ resolve (root_lane (tree_after result)) [0%nat; 1%nat]
       = Some (LeafContainer 3 (rect 500 200 500 200) None).
Proof.
  destruct (move_container_within_lane_swaps (sample_tree column_tree false)
              Direction.down 0%nat 1%nat [1%nat]
              (LeafContainer 2 (rect 500 0 500 200) None) eq_refl eq_refl eq_refl)
    as (result & Hmove & _ & Hthere & Hhere & _).
  exists result. split; [exact Hmove |]. split; [exact Hthere | exact Hhere].
Defined.

Lemma get_neighbors_of_root_children_witness :
  get_neighbors narrow_tree [0%nat] = [false; false; false; true]
  /\ get_neighbors narrow_tree [1%nat] = [false; true; false; false].
Proof.
  split.
  - apply (get_neighbors_of_root_children LayoutScheme.horizontal (rect 0 0 1000 600) None
             [ LeafContainer 1 (rect 0 0 40 600) None;
               LeafContainer 2 (rect 40 0 960 600) None ] 0%nat);
      cbn [length]; lia.
  - reflexivity.
Defined.

Lemma move_container_there_and_back_witness :
  exists there back,
    move_container (sample_tree column_tree false) Direction.down [0%nat; 1%nat]
    = Done there
    /\ leaves (root_lane (tree_after there)) = [1%nat; 3%nat; 2%nat; 4%nat]
    /\ move_container (tree_after there) Direction.up [1%nat; 1%nat] = Done back
    /\ tree_after back = sample_tree column_tree false.
Proof.
  destruct (move_container_there_and_back (sample_tree column_tree false)
              Direction.down 0%nat 1%nat [1%nat]
              (LeafContainer 2 (rect 500 0 500 200) None) eq_refl eq_refl eq_refl)
    as (there & back & Hthere & Hback & _ & _ & Hsame).
  exists there, back. split; [exact Hthere |]. split.
  - vm_compute in Hthere. injection Hthere as <-. reflexivity.
  - split; [exact Hback |].
    apply (Hsame LayoutScheme.vertical (rect 500 0 500 600)
             [ LeafContainer 2 (rect 500 0 500 200) None;
               LeafContainer 3 (rect 500 200 500 200) None;
               LeafContainer 4 (rect 500 400 500 200) None ]).
    reflexivity.
Defined.

Lemma toggle_tabbing_twice_witness :
  let t := sample_tree (single_leaf_root LayoutScheme.vertical) false in
  tree_after (toggle_tabbing t [0%nat])
  = sample_tree (single_leaf_root LayoutScheme.tabbing) false
  /\ tree_after (toggle_tabbing (tree_after (toggle_tabbing t [0%nat])) [0%nat])
     = sample_tree (single_leaf_root LayoutScheme.horizontal) false.
Proof.
  cbv zeta. split; [reflexivity |].
  destruct (toggle_tabbing_twice (sample_tree (single_leaf_root LayoutScheme.vertical) false)
              0%nat [] LayoutScheme.vertical (rect 0 0 1000 600) None
              (LeafContainer 1 (rect 0 0 1000 600) None) eq_refl eq_refl)
    as (_ & Htwice & _).
  rewrite Htwice. reflexivity.
Defined.

(** The point lies in the narrow leaf of [narrow_tree]. *)
Lemma select_window_from_point_hits_witness :
  select_window_from_point find_where_preorder (sample_tree narrow_tree false)
    {| active := None |} 10 10
  = Some (in_tree [0%nat])
  /\ exists r window area next,
      in_tree [0%nat] = in_tree r
      /\ resolve narrow_tree r = Some (LeafContainer window area next)
      /\ geom.contains (LeafContainer_get_logical_area area next)
           {| geom.x := 10; geom.y := 10 |} = true.
Proof.
  split; [reflexivity |].
  exact (select_window_from_point_hits find_where_preorder find_where_preorder_sound
           find_where_preorder_complete (sample_tree narrow_tree false)
           {| active := None |} 10 10 eq_refl).
Defined.

Lemma move_container_is_defined_witness :
  internal_lanes_nonempty column_tree = true
  /\ exists result,
      move_container (sample_tree column_tree false) Direction.left [2%nat; 1%nat]
      = Done result.
Proof.
  split; [reflexivity |].
  apply (move_container_is_defined (sample_tree column_tree false) Direction.left
           2%nat [1%nat]).
  - reflexivity.
  - eexists. reflexivity.
Defined.
